(** * meta-active-learning: BALD acquisition script and stacked generative model

    Shallow embedding of
    - [mnist_bayesian_al_ssl_clustering.py]: the active-learning script
      (data preparation, the BALD acquisition loop, the oracle query);
    - [ssl_vae/dgm.py]: [Classifier], [DeepGenerativeModel] and
      [StackedDeepGenerativeModel].

    NumPy arrays are lists indexed along their first axis, Python exceptions
    are [None], and everything random or numerical that the frameworks
    (NumPy, [random], Keras, scikit-learn, PyTorch) provide is an operation of
    a type class, so that every result holds for whatever those operations
    compute. *)

From Stdlib Require Import QArith Ascii.
From stdpp Require Import base numbers option list sorting strings gmap.

Set Default Proof Using "Type*".

(** * Part I: definitions *)

(** ** NumPy fragment on first-axis lists *)

(** [np.arange(n)]. *)
Definition arange (n : nat) : list nat := seq 0 n.

(** [np.where(cond)[0]] for a one-dimensional array: the positions where the
    condition holds, in increasing order. *)
Fixpoint where_from {A} (cond : A → bool) (i : nat) (a : list A) : list nat :=
  match a with
  | [] => []
  | v :: a' =>
      if cond v then i :: where_from cond (S i) a' else where_from cond (S i) a'
  end.

Definition np_where {A} (cond : A → bool) (a : list A) : list nat :=
  where_from cond 0 a.

(** [a[idx]] with an integer index array: a new array; an index out of range
    raises [IndexError]. *)
Definition fancy_index {A} (a : list A) (idx : list nat) : option (list A) :=
  mapM (λ i, a !! i) idx.

(** [a[mask]] with a boolean mask of the same length (a different length
    raises [IndexError]). *)
Fixpoint mask_rows {A} (a : list A) (mask : list bool) : list A :=
  match a, mask with
  | v :: a', b :: mask' => if b then v :: mask_rows a' mask' else mask_rows a' mask'
  | _, _ => []
  end.

Definition mask_index {A} (a : list A) (mask : list bool) : option (list A) :=
  if decide (length a = length mask) then Some (mask_rows a mask) else None.

(** [a[idx] = v] with an integer index array and a scalar: in place, bounds
    checked before anything is written. *)
Definition put_scalar {A} (a : list A) (idx : list nat) (v : A) : option (list A) :=
  if decide (Forall (λ i, i < length a) idx)
  then Some (foldl (λ acc i, <[i := v]> acc) a idx)
  else None.

(** [a[idx] = vals] with an integer index array and an array of values: a
    single value is broadcast to every index; otherwise there must be as many
    values as indices ([ValueError] if not), and [a[idx[j]] = vals[j]] in
    order of [j]. *)
Definition put_values {A} (a : list A) (idx : list nat) (vals : list A) : option (list A) :=
  match vals with
  | [v] => put_scalar a idx v
  | _ =>
      if decide (length idx = length vals ∧ Forall (λ i, i < length a) idx)
      then Some (foldl (λ acc iv, <[iv.1 := iv.2]> acc) a (zip idx vals))
      else None
  end.

(** [np.delete(a, idx, axis=0)]: a new array without the rows named by [idx];
    an index out of range raises [IndexError]. *)
Fixpoint delete_from {A} (i : nat) (idx : list nat) (a : list A) : list A :=
  match a with
  | [] => []
  | v :: a' =>
      if bool_decide (i ∈ idx) then delete_from (S i) idx a'
      else v :: delete_from (S i) idx a'
  end.

Definition np_delete {A} (a : list A) (idx : list nat) : option (list A) :=
  if decide (Forall (λ i, i < length a) idx)
  then Some (delete_from 0 idx a) else None.

(** Python slices [a[-k:]] and [a[::-1]]. For [k = 0] the first is [a[0:]],
    the whole list. *)
Definition slice_last {A} (k : nat) (a : list A) : list A :=
  if decide (k = 0) then a else drop (length a - k) a.

Definition slice_reversed {A} (a : list A) : list A := reverse a.

(** [np.int(np.round(n * 0.5))]: [n * 0.5] is exact in binary64 and
    [np.round] rounds a half to the even neighbour. *)
Definition round_half (n : nat) : nat :=
  let q := n / 2 in
  if Nat.even n then q else if Nat.even q then q else S q.

(** ** Labels *)

Definition num_classes : nat := 10.

(** The label that marks a pool point as withheld from the oracle. *)
Definition unknown_label : nat := 10.

(** ** Data preparation of the script *)

Definition get_pool_data {A} (x_train : list A) (y_train : list nat)
    (initial_train_point : nat)
  : list A * list nat * list A * list nat :=
  let x_pool := drop initial_train_point x_train in
  let y_pool := drop initial_train_point y_train in
  let x_train := take initial_train_point x_train in
  let y_train := take initial_train_point y_train in
  (x_train, y_train, x_pool, y_pool).

(** The block the script repeats for each digit: [idx_c[0:2, 0]] of
    [np.where(y_train == c)], then the rows of both arrays there. *)
Definition class_rows {A} (x_train : list A) (y_train : list nat) (c : nat)
  : option (list A * list nat) :=
  let idx_c := take 2 (np_where (λ y, bool_decide (y = c)) y_train) in
  x_c ← fancy_index x_train idx_c;
  y_c ← fancy_index y_train idx_c;
  Some (x_c, y_c).

Definition get_uniform_training_data {A} (x_train : list A) (y_train : list nat)
  : option (list A * list nat) :=
  '(x_0, y_0) ← class_rows x_train y_train 0;
  '(x_1, y_1) ← class_rows x_train y_train 1;
  '(x_2, y_2) ← class_rows x_train y_train 2;
  '(x_3, y_3) ← class_rows x_train y_train 3;
  '(x_4, y_4) ← class_rows x_train y_train 4;
  '(x_5, y_5) ← class_rows x_train y_train 5;
  '(x_6, y_6) ← class_rows x_train y_train 6;
  '(x_7, y_7) ← class_rows x_train y_train 7;
  '(x_8, y_8) ← class_rows x_train y_train 8;
  '(x_9, y_9) ← class_rows x_train y_train 9;
  let x_train := x_0 ++ x_1 ++ x_2 ++ x_3 ++ x_4 ++ x_5 ++ x_6 ++ x_7 ++ x_8 ++ x_9 in
  let y_train := y_0 ++ y_1 ++ y_2 ++ y_3 ++ y_4 ++ y_5 ++ y_6 ++ y_7 ++ y_8 ++ y_9 in
  Some (x_train, y_train).

(** [get_pool_index_unknown_to_oracle]: the positions of [Pooled_Y] that
    hold the sentinel. *)
Definition get_pool_index_unknown_to_oracle (Pooled_Y : list nat) : list nat :=
  let index_unknown_to_oracle := np_where (λ y, bool_decide (y = unknown_label)) Pooled_Y in
  index_unknown_to_oracle.

(** ** What the frameworks provide *)

(** Floating-point numbers as NumPy computes with them. No law is assumed of
    the operations: they may round, overflow and produce NaN. *)
Class Numeric := {
  num : Type;
  fzero : num;
  fone : num;
  fadd : num → num → num;
  fsub : num → num → num;
  fmul : num → num → num;
  fneg : num → num;
  flog2 : num → num;
  (** [np.divide(a, k)] for a Python integer [k] *)
  fdivide : num → nat → num;
  (** [np.sum] over one row *)
  fsum : list num → num;
  (** the order in which [np.sort] arranges numbers *)
  sort_le : num → num → Prop;
  (** [a.argsort()] *)
  argsort : list num → list nat;
  (** [np.int(np.round(n * 0.1))] *)
  round_tenth : nat → nat;
}.

(** The documented contract of [argsort]: the indices of the array, arranged
    so that the values they name are in sorted order. *)
Class NumericLaws `{Numeric} : Prop := {
  argsort_perm a : argsort a ≡ₚ seq 0 (length a);
  argsort_sorted a :
    ∀ p q i j, p < q → argsort a !! p = Some i → argsort a !! q = Some j →
      ∀ u v, a !! i = Some u → a !! j = Some v → sort_le u v;
}.

(** Random choices: [random.sample(range(0, n), k)] for [k ≤ n],
    [np.random.shuffle], and the generator state they advance. *)
Class Randomness := {
  rng : Type;
  sample_range : nat → nat → rng → list nat * rng;
  shuffle : list nat → rng → list nat * rng;
}.

Class RandomnessLaws `{Randomness} : Prop := {
  sample_range_length n k r : k ≤ n → length (sample_range n k r).1 = k;
  sample_range_bound n k r : k ≤ n → Forall (λ i, i < n) (sample_range n k r).1;
  sample_range_NoDup n k r : k ≤ n → NoDup (sample_range n k r).1;
  shuffle_perm z r : (shuffle z r).1 ≡ₚ z;
}.

(** Keras layers as the script configures them. *)
Inductive activation := relu | softmax_activation.

Inductive Layer :=
  | Conv2D (filters : nat) (kernel_size : nat * nat) (act : activation)
           (input_shape : option (nat * nat * nat))
  | MaxPooling2D (pool_size : nat * nat)
  | Lambda_dropout (level : Q)
  | Flatten
  | Dense (units : nat) (act : activation).

Inductive loss_function := categorical_crossentropy.
Inductive optimizer := Adam.
Inductive metric := accuracy.

Record compile_args := {
  loss : loss_function;
  optimizer_ : optimizer;
  metrics : list metric;
}.

Class Keras `{Numeric} `{Randomness} := {
  image : Type;
  weights : Type;
  (** [K.image_data_format() == 'channels_first'] *)
  channels_first : bool;
  reshape : nat * nat * nat → image → image;
  (** [astype('float32')] followed by [/= 255] *)
  normalize : image → image;
  (** the initialisers that run when layers are added to a new [Sequential] *)
  initialize : list Layer → rng → weights * rng;
  (** [model.fit]: the weights after training, from the weights before *)
  fit_weights : list Layer → compile_args → weights →
                list image → list (list num) → nat → nat →
                list image * list (list num) → rng → weights * rng;
  (** [model.predict], stochastic through the dropout [Lambda] layers *)
  predict_scores : list Layer → weights → list image → nat → rng →
                   list (list num) * rng;
  (** [model.evaluate] *)
  evaluate_scores : list Layer → weights → list image → list (list num) → rng →
                    list num * rng;
  (** Modelled from the spec: the module [oracle] is not among the sources;
      this is the k-nearest-neighbour label lookup of the glossary: the label
      found for a point from reference points, their labels and [k]. *)
  nearest_label : list image → list nat → nat → image → nat;
}.

(** The last layer is [Dense(num_classes, softmax)]: one row of [num_classes]
    scores per input row. A nearest-neighbour lookup answers with the label of
    a reference point. *)
Class KerasLaws `{Keras} : Prop := {
  predict_scores_length ls w X b r : length (predict_scores ls w X b r).1 = length X;
  predict_scores_width ls w X b r :
    Forall (λ row, length row = num_classes) (predict_scores ls w X b r).1;
  nearest_label_elem xs ys k x : ys ≠ [] → nearest_label xs ys k x ∈ ys;
}.

(** ** The state of a run and its monad *)

Inductive keras_op := op_Sequential | op_compile | op_fit | op_evaluate | op_predict.

(** A framework call, with the value of [CUDA_VISIBLE_DEVICES] it found. *)
Record keras_call := {
  call_op : keras_op;
  call_devices : option string;
}.

Section run.
Context `{Keras}.

Record world := {
  environ : gmap string string;
  random_state : rng;
  keras_log : list keras_call;
}.

(** How a computation ends: with a value, with an uncaught exception, or
    with [sys.exit]. The world reached is kept in each case. *)
Inductive outcome (A : Type) :=
  | Returned (a : A) (w : world)
  | Raised (w : world)
  | Exited (status : nat) (w : world).
Global Arguments Returned {A}.
Global Arguments Raised {A}.
Global Arguments Exited {A}.

Definition M (A : Type) : Type := world → outcome A.

Global Instance M_ret : MRet M := λ A a w, Returned a w.
Global Instance M_bind : MBind M := λ A B f m w,
  match m w with
  | Returned a w' => f a w'
  | Raised w' => Raised w'
  | Exited s w' => Exited s w'
  end.

Definition final_world {A} (o : outcome A) : world :=
  match o with Returned _ w | Raised w | Exited _ w => w end.

(** A partial NumPy operation: [None] is an exception. *)
Definition checked {A} (o : option A) : M A := λ w,
  match o with Some a => Returned a w | None => Raised w end.

Definition sys_exit {A} (status : nat) : M A := λ w, Exited status w.

(** [os.environ[k] = v] *)
Definition os_environ_set (k v : string) : M unit := λ w,
  Returned () {| environ := <[k := v]> (environ w);
                 random_state := random_state w;
                 keras_log := keras_log w |}.

Definition random {A} (f : rng → A * rng) : M A := λ w,
  let '(a, r) := f (random_state w) in
  Returned a {| environ := environ w; random_state := r; keras_log := keras_log w |}.

Definition keras (op : keras_op) : M unit := λ w,
  Returned () {| environ := environ w;
                 random_state := random_state w;
                 keras_log := keras_log w ++
                   [{| call_op := op;
                       call_devices := environ w !! "CUDA_VISIBLE_DEVICES" |}] |}.

(** [for _ in range(n)] over the variables the body assigns. *)
Fixpoint for_range {S} (n : nat) (body : S → M S) (s : S) : M S :=
  match n with
  | 0 => mret s
  | S n' => s' ← body s; for_range n' body s'
  end.
End run.

(** ** The command line ([argparse]) *)

Inductive action_kind := store_action | help_action.

Record Action := {
  option_strings : list string;
  dest : string;
  action_kind_ : action_kind;
  required : bool;
  default_value : option string;
  help : string;
}.

(** A parser is the list of actions registered with it. *)
Record ArgumentParser_ := { actions : list Action }.

(** [argparse.ArgumentParser()]: [add_help] defaults to [True], which
    registers [-h]/[--help] before anything the script adds. *)
Definition ArgumentParser : ArgumentParser_ :=
  {| actions := [ {| option_strings := ["-h"; "--help"]; dest := "help";
                     action_kind_ := help_action; required := false;
                     default_value := None;
                     help := "show this help message and exit" |} ] |}.

(** [group.add_argument(...)] on a group made by [add_argument_group]: the
    action is registered with the parser of the group. *)
Definition add_argument (p : ArgumentParser_) (a : Action) : ArgumentParser_ :=
  {| actions := actions p ++ [a] |}.

Definition parser : ArgumentParser_ :=
  let parser := ArgumentParser in
  add_argument parser
    {| option_strings := ["-g"; "--gpu"]; dest := "gpu";
       action_kind_ := store_action; required := false;
       default_value := Some "0"; help := "gpu to use" |}.

(** How [parse_args] ends: with the namespace, or with [parser.exit] after the
    help text (status 0), or with [parser.error] (status 2). *)
Inductive parse_result :=
  | Namespace (attrs : gmap string string)
  | HelpExit
  | UsageError.

(** The attributes a namespace starts with: the default of every stored
    destination. *)
Definition namespace_defaults (p : ArgumentParser_) : gmap string string :=
  foldl (λ ns a,
           match action_kind_ a, default_value a with
           | store_action, Some v => <[dest a := v]> ns
           | _, _ => ns
           end) ∅ (actions p).

Definition find_action (p : ArgumentParser_) (s : string) : option Action :=
  list_find (λ a, s ∈ option_strings a) (actions p) ≫= λ ia, Some ia.2.

Definition starts_with_dash (s : string) : bool :=
  match s with
  | String c _ => bool_decide (c = "-"%char)
  | EmptyString => false
  end.

(** [parse_args] on command lines written plainly: every word is either an
    option string exactly as registered, or a word that does not start with
    [-]. [None] stands for a command line with another kind of word
    (abbreviated options, [--opt=value], [-ovalue], [--], negative numbers),
    which this model leaves out.

    Words are consumed from the left. The help action exits at once; a
    storing option takes the next word, which must be an argument; a stray
    argument is kept in [extras] and reported when the end is reached. *)
Fixpoint parse_known (p : ArgumentParser_) (argv : list string)
    (ns : gmap string string) (extras : list string) : option parse_result :=
  match argv with
  | [] => Some (if decide (extras = []) then Namespace ns else UsageError)
  | s :: rest =>
      if starts_with_dash s then
        match find_action p s with
        | None => None
        | Some a =>
            match action_kind_ a with
            | help_action => Some HelpExit
            | store_action =>
                match rest with
                | v :: rest' =>
                    if starts_with_dash v then
                      match find_action p v with
                      | Some _ => Some UsageError
                      | None => None
                      end
                    else parse_known p rest' (<[dest a := v]> ns) extras
                | [] => Some UsageError
                end
            end
        end
      else parse_known p rest ns (extras ++ [s])
  end.

Definition parse_args (p : ArgumentParser_) (argv : list string) : option parse_result :=
  parse_known p argv (namespace_defaults p) [].

(** ** The Keras model of the script *)

Record Sequential_ `{Keras} := {
  layers : list Layer;
  model_weights : weights;
  compiled : option compile_args;
}.

(** Modelled from the spec: the module [oracle] with the class [KNOracle] is
    not among the sources. The oracle is a k-nearest-neighbour label lookup:
    it keeps the reference points and labels it was built from, and
    [assign_nearest_available_label] looks up a label for each row given. *)
Record KNOracle_ `{Keras} := {
  oracle_x : list image;
  oracle_y : list nat;
  n_neighbors : nat;
  n_jobs : nat;
}.

Section script.
Context `{Keras}.

Definition KNOracle (x : list image) (y : list nat) (n_neighbors n_jobs : nat)
  : KNOracle_ :=
  {| oracle_x := x; oracle_y := y; n_neighbors := n_neighbors; n_jobs := n_jobs |}.

Definition assign_nearest_available_label (o : KNOracle_) (X : list image)
  : list nat :=
  map (nearest_label (oracle_x o) (oracle_y o) (n_neighbors o)) X.

(** [keras.utils.to_categorical(y, n)]: one row per label with a one in the
    column of the label; a label outside the columns raises [IndexError]. *)
Definition to_categorical (y : list nat) (n : nat) : option (list (list num)) :=
  if decide (Forall (λ c, c < n) y)
  then Some (map (λ c, map (λ j, if bool_decide (j = c) then fone else fzero)
                           (seq 0 n)) y)
  else None.

Definition batch_size : nat := 128.
Definition epochs : nat := 4.
Definition img_rows : nat := 28.
Definition img_cols : nat := 28.

Definition input_shape : nat * nat * nat :=
  if channels_first then (1, img_rows, img_cols) else (img_rows, img_cols, 1).

(** [get_valid_data]: the last tenth of the rows is the validation set. *)
Definition get_valid_data {A B} (x_train : list A) (y_train : list B)
  : list A * list B * list A * list B :=
  let valid_shape := round_tenth (length x_train) in
  let x_valid := slice_last valid_shape x_train in
  let y_valid := slice_last valid_shape y_train in
  let x_train :=
    if decide (valid_shape = 0) then [] else take (length x_train - valid_shape) x_train in
  let y_train :=
    if decide (valid_shape = 0) then [] else take (length y_train - valid_shape) y_train in
  (x_train, y_train, x_valid, y_valid).

(** [remove_pool_labels_for_oracle]: [z] is [arange] of half the pool size,
    shuffled in place; [y_pool[z] = 10] then writes the sentinel at every
    index of [z]. *)
Definition remove_pool_labels_for_oracle (x_pool : list image) (y_pool : list nat)
  : M (list nat) :=
  let z := arange (round_half (length x_pool)) in
  z ← random (shuffle z);
  y_pool ← checked (put_scalar y_pool z unknown_label);
  mret y_pool.

(** The dropout CNN, lines 259 to 269 of the script. *)
Definition dropout_cnn : list Layer :=
  [ Conv2D 32 (3, 3) relu (Some input_shape);
    Conv2D 64 (3, 3) relu None;
    MaxPooling2D (2, 2);
    Lambda_dropout (1 # 4);
    Flatten;
    Dense 128 relu;
    Lambda_dropout (1 # 2);
    Dense num_classes softmax_activation ].

(** The same construction inside the loop, lines 367 to 377. *)
Definition dropout_cnn_in_loop : list Layer :=
  [ Conv2D 32 (3, 3) relu (Some input_shape);
    Conv2D 64 (3, 3) relu None;
    MaxPooling2D (2, 2);
    Lambda_dropout (1 # 4);
    Flatten;
    Dense 128 relu;
    Lambda_dropout (1 # 2);
    Dense num_classes softmax_activation ].

(** [model = Sequential()] followed by the [model.add] calls: a new object
    whose weights come from the layer initialisers. *)
Definition Sequential (ls : list Layer) : M Sequential_ :=
  keras op_Sequential;;
  w ← random (initialize ls);
  mret {| layers := ls; model_weights := w; compiled := None |}.

Definition compile (model : Sequential_) (c : compile_args) : M Sequential_ :=
  keras op_compile;;
  mret {| layers := layers model; model_weights := model_weights model;
          compiled := Some c |}.

(** [model.fit]: training starts from the weights the object holds and
    replaces them; fitting a model that was not compiled raises. *)
Definition fit (model : Sequential_) (x : list image) (y : list (list num))
    (batch_size epochs : nat) (validation_data : list image * list (list num))
  : M Sequential_ :=
  keras op_fit;;
  c ← checked (compiled model);
  w ← random (fit_weights (layers model) c (model_weights model) x y
                batch_size epochs validation_data);
  mret {| layers := layers model; model_weights := w; compiled := compiled model |}.

Definition evaluate (model : Sequential_) (x : list image) (y : list (list num))
  : M (list num) :=
  keras op_evaluate;;
  random (evaluate_scores (layers model) (model_weights model) x y).

Definition predict (model : Sequential_) (x : list image) (batch_size : nat)
  : M (list (list num)) :=
  keras op_predict;;
  random (predict_scores (layers model) (model_weights model) x batch_size).

Definition compile_settings : compile_args :=
  {| loss := categorical_crossentropy; optimizer_ := Adam; metrics := [accuracy] |}.
End script.

(** ** The acquisition loop *)

Section acquisition.
Context `{Keras}.

Definition acquisition_iterations : nat := 1000.
Definition dropout_iterations : nat := 3.
Definition Queries : nat := 10.
Definition pool_subset : nat := 2000.

(** The module-level variables the loop reads and assigns. The four
    [delete_*] variables are unbound until the first iteration. *)
Record globals := {
  x_train : list image;
  y_train : list (list num);
  x_pool : list image;
  y_pool : list nat;
  x_test : list image;
  y_test : list (list num);
  oracle : KNOracle_;
  model : Sequential_;
  score : list num;
  delete_Pool_X : option (list image);
  delete_Pool_Y : option (list nat);
  delete_Pool_X_Dropout : option (list image);
  delete_Pool_Y_Dropout : option (list nat);
}.

(** [random.sample(range(0, n), k)] raises [ValueError] when [k] exceeds
    [n]. *)
Definition random_sample (n k : nat) : M (list nat) :=
  if decide (k ≤ n) then random (sample_range n k) else checked None.

(** One pass of the loop over [d], lines 305 to 319: a stochastic prediction
    for the whole subset, added to [score_All], and its row entropies, added
    to [All_Entropy_Dropout]. The arrays added have the same shape, by the
    shape of what [predict] returns. *)
Definition dropout_pass (model : Sequential_) (X_Pool_Dropout : list image)
    (acc : list (list num) * list num) : M (list (list num) * list num) :=
  let '(score_All, All_Entropy_Dropout) := acc in
  dropout_score ← predict model X_Pool_Dropout batch_size;
  let score_All := zip_with (zip_with fadd) score_All dropout_score in
  let dropout_score_log := map (map flog2) dropout_score in
  let Entropy_Compute :=
    map (map fneg) (zip_with (zip_with fmul) dropout_score dropout_score_log) in
  let Entropy_Per_Dropout := map fsum Entropy_Compute in
  let All_Entropy_Dropout := zip_with fadd All_Entropy_Dropout Entropy_Per_Dropout in
  mret (score_All, All_Entropy_Dropout).

(** Lines 302 to 329: the acquisition scores [U_X] of the subset. *)
Definition acquisition_scores (model : Sequential_) (X_Pool_Dropout : list image)
  : M (list num) :=
  let score_All := replicate (length X_Pool_Dropout) (replicate num_classes fzero) in
  let All_Entropy_Dropout := replicate (length X_Pool_Dropout) fzero in
  '(score_All, All_Entropy_Dropout) ←
    for_range dropout_iterations (dropout_pass model X_Pool_Dropout)
              (score_All, All_Entropy_Dropout);
  let Avg_Pi := map (map (λ v, fdivide v dropout_iterations)) score_All in
  let Log_Avg_Pi := map (map flog2) Avg_Pi in
  let Entropy_Avg_Pi := map (map fneg) (zip_with (zip_with fmul) Avg_Pi Log_Avg_Pi) in
  let Entropy_Average_Pi := map fsum Entropy_Avg_Pi in
  let G_X := Entropy_Average_Pi in
  let Average_Entropy := map (λ v, fdivide v dropout_iterations) All_Entropy_Dropout in
  let U_X := zip_with fsub Entropy_Average_Pi Average_Entropy in
  mret U_X.

(** Lines 331 and 332: [a_1d.argsort()[-Queries:][::-1]]. *)
Definition query_indices (U_X : list num) : list nat :=
  let a_1d := U_X in
  let x_pool_index := slice_reversed (slice_last Queries (argsort a_1d)) in
  x_pool_index.

(** Lines 339 to 349: the labels of the queried points, those the oracle
    does not know replaced by its lookup. *)
Definition query_labels (oracle : KNOracle_) (Pooled_X : list image)
    (y_Pool_Dropout : list nat) (x_pool_index : list nat) : option (list nat) :=
  Pooled_Y ← fancy_index y_Pool_Dropout x_pool_index;
  let index_unknown_to_oracle := get_pool_index_unknown_to_oracle Pooled_Y in
  unknown_X ← fancy_index Pooled_X index_unknown_to_oracle;
  Pooled_Y ← put_values Pooled_Y index_unknown_to_oracle
               (assign_nearest_available_label oracle unknown_X);
  Some Pooled_Y.

(** Lines 367 to 388: a new model, compiled, fitted and evaluated. *)
Definition retrain (x_train : list image) (y_train : list (list num))
    (x_test : list image) (y_test : list (list num))
  : M (Sequential_ * list num) :=
  model ← Sequential dropout_cnn_in_loop;
  model ← compile model compile_settings;
  model ← fit model x_train y_train batch_size epochs (x_test, y_test);
  score ← evaluate model x_test y_test;
  mret (model, score).

(** The body of [for i in range(acquisition_iterations)]. *)
Definition acquisition_iteration (g : globals) : M globals :=
  pool_subset_dropout ← random_sample (length (x_pool g)) pool_subset;
  X_Pool_Dropout ← checked (fancy_index (x_pool g) pool_subset_dropout);
  y_Pool_Dropout ← checked (fancy_index (y_pool g) pool_subset_dropout);
  U_X ← acquisition_scores (model g) X_Pool_Dropout;
  let x_pool_index := query_indices U_X in
  Pooled_X ← checked (fancy_index X_Pool_Dropout x_pool_index);
  Pooled_Y ← checked (query_labels (oracle g) Pooled_X y_Pool_Dropout x_pool_index);
  Pooled_Y ← checked (to_categorical Pooled_Y num_classes);
  delete_Pool_X ← checked (np_delete (x_pool g) pool_subset_dropout);
  delete_Pool_Y ← checked (np_delete (y_pool g) pool_subset_dropout);
  delete_Pool_X_Dropout ← checked (np_delete X_Pool_Dropout x_pool_index);
  delete_Pool_Y_Dropout ← checked (np_delete y_Pool_Dropout x_pool_index);
  let x_pool := x_pool g ++ X_Pool_Dropout in
  let y_pool := y_pool g ++ y_Pool_Dropout in
  let x_train := x_train g ++ Pooled_X in
  let y_train := y_train g ++ Pooled_Y in
  '(model, score) ← retrain x_train y_train (x_test g) (y_test g);
  mret {| x_train := x_train; y_train := y_train;
          x_pool := x_pool; y_pool := y_pool;
          x_test := x_test g; y_test := y_test g;
          oracle := oracle g; model := model; score := score;
          delete_Pool_X := Some delete_Pool_X;
          delete_Pool_Y := Some delete_Pool_Y;
          delete_Pool_X_Dropout := Some delete_Pool_X_Dropout;
          delete_Pool_Y_Dropout := Some delete_Pool_Y_Dropout |}.

Definition acquisition_loop (n : nat) (g : globals) : M globals :=
  for_range n acquisition_iteration g.

(** ** The script from its first statement *)

Definition initial_train_point : nat := 10 * 1000.

(** Lines 226 to 230: labels withheld, and the oracle built from the pool
    points that kept theirs. *)
Definition make_oracle (x_pool : list image) (y_pool : list nat)
  : M (list nat * KNOracle_) :=
  y_pool ← remove_pool_labels_for_oracle x_pool y_pool;
  let known := map (λ y, bool_decide (y ≠ unknown_label)) y_pool in
  x_pool_with_labels ← checked (mask_index x_pool known);
  y_pool_with_labels ← checked (mask_index y_pool known);
  let oracle := KNOracle x_pool_with_labels y_pool_with_labels 3 2 in
  mret (y_pool, oracle).

(** Everything after [parse_args] returned [args], up to the loop. [mnist]
    is what [mnist.load_data()] returns. *)
Definition prepare (args : gmap string string)
    (mnist : (list image * list nat) * (list image * list nat)) : M globals :=
  os_environ_set "CUDA_DEVICE_ORDER" "PCI_BUS_ID";;
  gpu ← checked (args !! "gpu");
  os_environ_set "CUDA_VISIBLE_DEVICES" gpu;;
  let '((x_train, y_train), (x_test, y_test)) := mnist in
  let x_train := map (reshape input_shape) x_train in
  let x_test := map (reshape input_shape) x_test in
  let '(x_train, y_train, x_valid, y_valid) := get_valid_data x_train y_train in
  let '(x_train, y_train, x_pool, y_pool) :=
    get_pool_data x_train y_train initial_train_point in
  '(x_train, y_train) ← checked (get_uniform_training_data x_train y_train);
  '(y_pool, oracle) ← make_oracle x_pool y_pool;
  let x_train := map normalize x_train in
  let x_valid := map normalize x_valid in
  let x_pool := map normalize x_pool in
  let x_test := map normalize x_test in
  y_train ← checked (to_categorical y_train num_classes);
  y_valid ← checked (to_categorical y_valid num_classes);
  y_test ← checked (to_categorical y_test num_classes);
  model ← Sequential dropout_cnn;
  model ← compile model compile_settings;
  model ← fit model x_train y_train batch_size epochs (x_test, y_test);
  score ← evaluate model x_test y_test;
  mret {| x_train := x_train; y_train := y_train;
          x_pool := x_pool; y_pool := y_pool;
          x_test := x_test; y_test := y_test;
          oracle := oracle; model := model; score := score;
          delete_Pool_X := None; delete_Pool_Y := None;
          delete_Pool_X_Dropout := None; delete_Pool_Y_Dropout := None |}.

(** The whole script after the command line was parsed into [r]. *)
Definition run (r : parse_result)
    (mnist : (list image * list nat) * (list image * list nat)) : M globals :=
  match r with
  | Namespace args =>
      g ← prepare args mnist;
      acquisition_loop acquisition_iterations g
  | HelpExit => sys_exit 0
  | UsageError => sys_exit 2
  end.

End acquisition.

(** ** [ssl_vae/dgm.py] *)

(** A [torch.nn.Parameter]. *)
Record nn_Parameter {tensor : Type} := {
  data : tensor;
  requires_grad : bool;
}.
Global Arguments nn_Parameter : clear implicits.

(** A plain attribute of a module object. *)
Inductive attr_value {scalar : Type} :=
  | Int (n : nat)
  | Float (x : scalar).
Global Arguments attr_value : clear implicits.

(** A [torch.nn.Module] object: whether it is an [nn.Linear], its [training]
    flag, its plain attributes, and the ordered dictionaries [_parameters]
    and [_modules] that attribute assignment fills. A submodule is held by
    the module that registered it: what is done to [self.features] is done to
    the object [features] itself. *)
#[local] Unset Elimination Schemes.
Inductive Module {tensor scalar : Type} :=
  mkModule (is_linear : bool) (training : bool)
           (attributes : list (string * attr_value scalar))
           (_parameters : list (string * nn_Parameter tensor))
           (_modules : list (string * Module)).
#[local] Set Elimination Schemes.
Global Arguments Module : clear implicits.

(** What PyTorch provides, and the classes of [vae.py], which [dgm.py]
    imports and which are not among the sources. *)
Class Torch := {
  tensor : Type;
  scalar : Type;
  generator : Type;
  (** [torch.cat(ts, dim=1)] *)
  cat : list tensor → tensor;
  (** [F.linear(x, weight, bias)] *)
  F_linear : tensor → tensor → option tensor → tensor;
  F_softplus : tensor → tensor;
  F_softmax : tensor → tensor;
  tensor_size : tensor → list nat;
  transpose : tensor → Z → Z → tensor;
  contiguous : tensor → tensor;
  view : tensor → list Z → tensor;
  (** the initial weight and bias of [nn.Linear(in_features, out_features)] *)
  linear_reset : nat → nat → generator → (tensor * tensor) * generator;
  (** [init.xavier_normal(t)] and [t.zero_()] *)
  xavier_normal : tensor → generator → tensor * generator;
  zero_ : tensor → tensor;
  (** [0.1 * ratio] *)
  tenth_of : scalar → scalar;
  (** [vae.py]: the constructors [VariationalAutoencoder.__init__(dims)],
      [Encoder(dims)], [Decoder(dims)] and the [forward] of the last two *)
  VariationalAutoencoder_init :
    nat → nat → list nat → generator → Module tensor scalar * generator;
  Encoder : nat → list nat → nat → generator → Module tensor scalar * generator;
  Decoder : nat → list nat → nat → generator → Module tensor scalar * generator;
  Encoder_forward :
    Module tensor scalar → tensor → generator → (tensor * tensor * tensor) * generator;
  Decoder_forward : Module tensor scalar → tensor → generator → tensor * generator;
}.

Section nn.
Context `{Torch}.

Abbreviation Module := (Module tensor scalar).
Abbreviation Param := (nn_Parameter tensor).

Definition is_linear (m : Module) : bool :=
  match m with mkModule l _ _ _ _ => l end.
Definition training (m : Module) : bool :=
  match m with mkModule _ t _ _ _ => t end.
Definition attributes (m : Module) : list (string * attr_value scalar) :=
  match m with mkModule _ _ a _ _ => a end.
Definition _parameters (m : Module) : list (string * Param) :=
  match m with mkModule _ _ _ p _ => p end.
Definition _modules (m : Module) : list (string * Module) :=
  match m with mkModule _ _ _ _ c => c end.

(** Lookup and assignment in an ordered dictionary: assignment to a key
    that is present keeps its place. *)
Fixpoint assoc_get {V} (k : string) (d : list (string * V)) : option V :=
  match d with
  | [] => None
  | (k', v) :: d' => if decide (k = k') then Some v else assoc_get k d'
  end.

Fixpoint assoc_set {V} (k : string) (v : V) (d : list (string * V))
  : list (string * V) :=
  match d with
  | [] => [(k, v)]
  | (k', v') :: d' =>
      if decide (k = k') then (k, v) :: d' else (k', v') :: assoc_set k v d'
  end.

(** [m.name] for a submodule, and [m.name = child]. *)
Definition get_module (m : Module) (name : string) : option Module :=
  assoc_get name (_modules m).

Definition set_module (m : Module) (name : string) (child : Module) : Module :=
  mkModule (is_linear m) (training m) (attributes m) (_parameters m)
           (assoc_set name child (_modules m)).

Definition set_attribute (m : Module) (name : string) (v : attr_value scalar)
  : Module :=
  mkModule (is_linear m) (training m) (assoc_set name v (attributes m))
           (_parameters m) (_modules m).

Definition get_int (m : Module) (name : string) : option nat :=
  match assoc_get name (attributes m) with
  | Some (Int n) => Some n
  | _ => None
  end.

(** [Module.train(mode)]: the flag of the module and of every module below
    it. *)
Fixpoint train (mode : bool) (m : Module) : Module :=
  match m with
  | mkModule l _ a p c =>
      mkModule l mode a p (map (λ nc, (nc.1, train mode nc.2)) c)
  end.

(** [Module.parameters()]: the module's own, then those of its submodules
    in order. *)
Fixpoint parameters (m : Module) : list Param :=
  match m with
  | mkModule _ _ _ p c =>
      map snd p ++ concat (map (λ nc, parameters nc.2) c)
  end.

(** [Module.modules()]: the module, then the modules below it. *)
Fixpoint modules (m : Module) : list Module :=
  match m with
  | mkModule _ _ _ _ c => m :: concat (map (λ nc, modules nc.2) c)
  end.

(** Doing [f] to every parameter that [m.parameters()] yields. *)
Fixpoint map_parameters (f : Param → Param) (m : Module) : Module :=
  match m with
  | mkModule l t a p c =>
      mkModule l t a (map (λ np, (np.1, f np.2)) p)
               (map (λ nc, (nc.1, map_parameters f nc.2)) c)
  end.

(** [param.requires_grad = False] *)
Definition no_grad (p : Param) : Param :=
  {| data := data p; requires_grad := false |}.
End nn.

Section dgm.
Context `{Torch}.

Abbreviation Module := (Module tensor scalar).
Abbreviation Param := (nn_Parameter tensor).

(** Computations that draw random numbers and may raise. *)
Definition T (A : Type) : Type := generator → option (A * generator).

Global Instance T_ret : MRet T := λ A a g, Some (a, g).
Global Instance T_bind : MBind T := λ A B f m g,
  match m g with
  | Some (a, g') => f a g'
  | None => None
  end.

Definition T_try {A} (o : option A) : T A := λ g,
  match o with Some a => Some (a, g) | None => None end.

Definition T_random {A} (f : generator → A * generator) : T A := λ g, Some (f g).

(** [nn.Linear(in_features, out_features)]: a weight and a bias, both
    requiring gradient, in training mode. *)
Definition Linear (in_features out_features : nat) : T Module :=
  '(w, b) ← T_random (linear_reset in_features out_features);
  mret (mkModule true true
          [("in_features", Int in_features); ("out_features", Int out_features)]
          [("weight", {| data := w; requires_grad := true |});
           ("bias", {| data := b; requires_grad := true |})]
          []).

Definition Linear_forward (self : Module) (x : tensor) : option tensor :=
  weight ← assoc_get "weight" (_parameters self);
  let bias := assoc_get "bias" (_parameters self) in
  Some (F_linear x (data weight) (data <$> bias)).

(** The module-level function [softmax(input, dim)]. *)
Definition softmax (input : tensor) (dim : Z) : option tensor :=
  let input_size := tensor_size input in
  let trans_input := transpose input dim (Z.of_nat (length input_size) - 1) in
  let trans_size := tensor_size trans_input in
  last_size ← last trans_size;
  let input_2d := view (contiguous trans_input) [(-1)%Z; Z.of_nat last_size] in
  let soft_max_2d := F_softmax input_2d in
  let soft_max_nd := view soft_max_2d (Z.of_nat <$> trans_size) in
  Some (transpose soft_max_nd dim (Z.of_nat (length input_size) - 1)).

(** [Classifier(dims)] with [dims = [x_dim, h_dim, y_dim]]. *)
Definition Classifier (x_dim h_dim y_dim : nat) : T Module :=
  dense ← Linear x_dim h_dim;
  logits ← Linear h_dim y_dim;
  mret (mkModule false true [] [] [("dense", dense); ("logits", logits)]).

Definition Classifier_forward (self : Module) (x : tensor) : option tensor :=
  dense ← get_module self "dense";
  x ← F_softplus <$> Linear_forward dense x;
  logits ← get_module self "logits";
  x ← Linear_forward logits x ≫= λ l, softmax l (-1);
  Some x.

(** The loop [for m in self.modules()] that ends
    [DeepGenerativeModel.__init__]: the weight of every [nn.Linear] is
    redrawn and its bias, when there is one, zeroed. Only [.data] is
    written. *)
Definition xavier_linear (p : list (string * Param)) (g : generator)
  : list (string * Param) * generator :=
  match assoc_get "weight" p with
  | Some w =>
      let '(t, g') := xavier_normal (data w) g in
      let p := assoc_set "weight" {| data := t; requires_grad := requires_grad w |} p in
      let p :=
        match assoc_get "bias" p with
        | Some b =>
            assoc_set "bias" {| data := zero_ (data b); requires_grad := requires_grad b |} p
        | None => p
        end in
      (p, g')
  | None => (p, g)
  end.

(** Visiting the submodules in order, with the generator passed along. *)
Fixpoint visit_modules {V} (f : V → generator → V * generator)
    (c : list (string * V)) (g : generator) : list (string * V) * generator :=
  match c with
  | [] => ([], g)
  | nc :: c' =>
      let '(m', g') := f nc.2 g in
      let '(c'', g'') := visit_modules f c' g' in
      ((nc.1, m') :: c'', g'')
  end.

Fixpoint xavier_modules (m : Module) (g : generator) : Module * generator :=
  match m with
  | mkModule l t a p c =>
      let '(p', g1) := if l then xavier_linear p g else (p, g) in
      let '(c', g2) := visit_modules (λ m' g', xavier_modules m' g') c g1 in
      (mkModule l t a p' c', g2)
  end.

(** [DeepGenerativeModel.__init__(dims, ratio)] with
    [dims = [x_dim, y_dim, z_dim, h_dim]]. *)
Definition DeepGenerativeModel_init (x_dim y_dim z_dim : nat) (h_dim : list nat)
    (ratio : scalar) : T Module :=
  let alpha := tenth_of ratio in
  self ← T_random (VariationalAutoencoder_init x_dim z_dim h_dim);
  let self := set_attribute self "alpha" (Float alpha) in
  let self := set_attribute self "y_dim" (Int y_dim) in
  encoder ← T_random (Encoder (x_dim + y_dim) h_dim z_dim);
  let self := set_module self "encoder" encoder in
  decoder ← T_random (Decoder (z_dim + y_dim) (reverse h_dim) x_dim);
  let self := set_module self "decoder" decoder in
  h_dim_0 ← T_try (h_dim !! 0);
  classifier ← Classifier x_dim h_dim_0 y_dim;
  let self := set_module self "classifier" classifier in
  T_random (xavier_modules self).

(** What [forward] returns: the classifier output alone, or the triple. *)
Inductive forward_result :=
  | Logits (logits : tensor)
  | Reconstruction (reconstruction logits : tensor) (latent : list (list tensor)).

Definition DeepGenerativeModel_forward (self : Module) (x : tensor)
    (y : option tensor) : T forward_result :=
  classifier ← T_try (get_module self "classifier");
  logits ← T_try (Classifier_forward classifier x);
  match y with
  | None => mret (Logits logits)
  | Some y =>
      encoder ← T_try (get_module self "encoder");
      '(z, z_mu, z_log_var) ← T_random (Encoder_forward encoder (cat [x; y]));
      decoder ← T_try (get_module self "decoder");
      reconstruction ← T_random (Decoder_forward decoder (cat [z; y]));
      mret (Reconstruction reconstruction logits [[z; z_mu; z_log_var]])
  end.

(** [StackedDeepGenerativeModel.__init__(dims, ratio, features)]. *)
Definition StackedDeepGenerativeModel_init (x_dim y_dim z_dim : nat)
    (h_dim : list nat) (ratio : scalar) (features : Module) : T Module :=
  features_z_dim ← T_try (get_int features "z_dim");
  self ← DeepGenerativeModel_init features_z_dim y_dim z_dim h_dim ratio;
  decoder ← T_try (get_module self "decoder");
  reconstruction ← T_try (get_module decoder "reconstruction");
  in_features ← T_try (get_int reconstruction "in_features");
  reconstruction ← Linear in_features x_dim;
  let self := set_module self "decoder"
                (set_module decoder "reconstruction" reconstruction) in
  let self := set_module self "features" features in
  features ← T_try (get_module self "features");
  let self := set_module self "features" (train false features) in
  features ← T_try (get_module self "features");
  let self := set_module self "features" (map_parameters no_grad features) in
  mret self.

Definition StackedDeepGenerativeModel_forward (self : Module) (x : tensor)
    (y : option tensor) : T forward_result :=
  features ← T_try (get_module self "features");
  encoder ← T_try (get_module features "encoder");
  '(x_sample, _, _) ← T_random (Encoder_forward encoder x);
  DeepGenerativeModel_forward self x_sample y.

(** Training, as far as it can touch parameters. Autograd computes a
    gradient only for a parameter with [requires_grad], and an optimiser
    step writes only parameters that have a gradient; [new_data] is
    whatever the step computes. A training loop may also switch modes. *)
Inductive training_action :=
  | optimizer_step (new_data : Param → tensor)
  | set_mode (mode : bool).

Definition update (new_data : Param → tensor) (p : Param) : Param :=
  if requires_grad p then {| data := new_data p; requires_grad := true |} else p.

Definition training_step (self : Module) (a : training_action) : Module :=
  match a with
  | optimizer_step new_data => map_parameters (update new_data) self
  | set_mode mode => train mode self
  end.

Definition training_run (self : Module) (l : list training_action) : Module :=
  foldl training_step self l.
End dgm.

(** ** Notions the properties are stated with *)

(** How often the label [c] occurs in [y]. *)
Definition occurrences (c : nat) (y : list nat) : nat :=
  length (filter (λ v, v = c) y).

(** [i1] and [i2] are the positions of the first two occurrences of [c]. *)
Definition first_two_occurrences (y : list nat) (c i1 i2 : nat) : Prop :=
  i1 < i2 ∧ y !! i1 = Some c ∧ y !! i2 = Some c ∧
  ∀ j, j < i2 → j ≠ i1 → y !! j ≠ Some c.


(** What the BALD formula is made of, for the predictive distributions of
    one point. *)
Section bald.
Context `{Numeric}.

(** Entropy to base 2. *)
Definition entropy2 (p : list num) : num :=
  fsum (map (λ q, fneg (fmul q (flog2 q))) p).

(** The average of a list of numbers: their sum from zero, by their
    count. *)
Definition average (l : list num) : num :=
  fdivide (foldl fadd fzero l) (length l).

(** The average of distributions, class by class. *)
Definition average_distribution (n : nat) (ps : list (list num)) : list num :=
  map (λ c, average (map (λ p, default fzero (p !! c)) ps)) (seq 0 n).
End bald.

Section passes.
Context `{Keras}.

(** The predictions of [n] successive stochastic forward passes. *)
Fixpoint stochastic_passes (n : nat) (model : Sequential_) (X : list image)
  : M (list (list (list num))) :=
  match n with
  | 0 => mret []
  | S n' =>
      P ← predict model X batch_size;
      Ps ← stochastic_passes n' model X;
      mret (P :: Ps)
  end.

(** A prediction has one row of [num_classes] scores for each input. *)
Definition well_shaped (X : list image) (P : list (list num)) : Prop :=
  length P = length X ∧ Forall (λ row, length row = num_classes) P.

End passes.

(** A parameter that training may change. *)
Definition trainable {tensor : Type} (p : nn_Parameter tensor) : Prop :=
  requires_grad p = true.

(** What is taken for granted of [vae.py]: a module that one of its
    constructors returns has parameters that require gradient, as
    [nn.Parameter] makes them. *)
Class VaeLaws `{Torch} : Prop := {
  VariationalAutoencoder_trainable x z h g :
    Forall trainable (parameters (VariationalAutoencoder_init x z h g).1);
  Encoder_trainable x h z g :
    Forall trainable (parameters (Encoder x h z g).1);
  Decoder_trainable z h x g :
    Forall trainable (parameters (Decoder z h x g).1);
}.

(** The pool and the oracle as the loop needs them: as many labels as
    points, enough points to sample from, labels that are digits or the
    sentinel, and an oracle that knows some digits. *)
Section invariants.
Context `{Keras}.

Record pool_ok (g : globals) : Prop := {
  pool_lengths : length (x_pool g) = length (y_pool g);
  pool_large : pool_subset ≤ length (x_pool g);
  pool_labels : Forall (λ y, y ≤ 10) (y_pool g);
  oracle_nonempty : oracle_y (oracle g) ≠ [];
  oracle_digits : Forall (λ y, y < 10) (oracle_y (oracle g));
}.

(** The same variables, with other values in the four [delete_*]
    variables. *)
Definition with_delete_variables (g : globals)
    (dx : option (list image)) (dy : option (list nat))
    (dxd : option (list image)) (dyd : option (list nat)) : globals :=
  {| x_train := x_train g; y_train := y_train g;
     x_pool := x_pool g; y_pool := y_pool g;
     x_test := x_test g; y_test := y_test g;
     oracle := oracle g; model := model g; score := score g;
     delete_Pool_X := dx; delete_Pool_Y := dy;
     delete_Pool_X_Dropout := dxd; delete_Pool_Y_Dropout := dyd |}.

(** The four framework calls that retraining makes, as they are logged in
    a world where [CUDA_VISIBLE_DEVICES] has the value [devices]. *)
Definition retrain_calls (devices : option string) : list keras_call :=
  [ {| call_op := op_Sequential; call_devices := devices |};
    {| call_op := op_compile; call_devices := devices |};
    {| call_op := op_fit; call_devices := devices |};
    {| call_op := op_evaluate; call_devices := devices |} ].
End invariants.



Section traces.
Context `{Randomness}.

(** From [w] to [w'] the framework was called only with
    [CUDA_VISIBLE_DEVICES] at [devices]. *)
Definition calls_after (w w' : world) (devices : option string) : Prop :=
  ∃ l, keras_log w' = keras_log w ++ l ∧
       Forall (λ c, call_devices c = devices) l.

(** A computation that leaves the environment alone. *)
Definition env_stable {A} (m : M A) : Prop :=
  ∀ w, environ (final_world (m w)) = environ w ∧
       calls_after w (final_world (m w)) (environ w !! "CUDA_VISIBLE_DEVICES").
End traces.

(** ** Small instances of the frameworks, to run the definitions on *)

Definition by_value (p q : nat * Z) : Prop := (p.2 ≤ q.2)%Z.

Global Instance by_value_dec : RelDecision by_value :=
  λ p q, decide (p.2 ≤ q.2)%Z.

Definition Z_argsort (a : list Z) : list nat :=
  (merge_sort by_value (zip (seq 0 (length a)) a)).*1.

Definition Z_numeric : Numeric := {|
  num := Z;
  fzero := 0%Z;
  fone := 1%Z;
  fadd := Z.add;
  fsub := Z.sub;
  fmul := Z.mul;
  fneg := Z.opp;
  flog2 := Z.log2;
  fdivide := λ a k, (a `div` Z.of_nat k)%Z;
  fsum := foldr Z.add 0%Z;
  sort_le := Z.le;
  argsort := Z_argsort;
  round_tenth := λ n, n `div` 10;
|}.

Definition counter_randomness : Randomness := {|
  rng := nat;
  sample_range := λ n k r, (seq 0 k, S r);
  shuffle := λ z r, (reverse z, S r);
|}.

Definition toy_predict_scores (ls : list Layer) (w : nat) (X : list nat)
    (b : nat) (r : nat) : list (list Z) * nat :=
  (map (λ x, map (λ c, Z.of_nat ((x * (c + r + w)) `mod` 7) + 1)%Z
                 (seq 0 num_classes)) X,
   S r).

Definition toy_fit_weights (ls : list Layer) (c : compile_args) (w : nat)
    (x : list nat) (y : list (list Z)) (batch_size epochs : nat)
    (validation_data : list nat * list (list Z)) (r : nat) : nat * nat :=
  (S w, S r).

Definition toy_evaluate_scores (ls : list Layer) (w : nat) (x : list nat)
    (y : list (list Z)) (r : nat) : list Z * nat :=
  ([0%Z; 0%Z], S r).

Definition toy_initialize (ls : list Layer) (r : nat) : nat * nat := (0, S r).

Definition toy_nearest_label (xs : list nat) (ys : list nat) (k : nat) (x : nat)
  : nat :=
  default 0 (head ys).

Definition toy_keras : @Keras Z_numeric counter_randomness :=
  @Build_Keras Z_numeric counter_randomness
    nat nat false (λ _ x, x) (λ x, x)
    toy_initialize toy_fit_weights toy_predict_scores toy_evaluate_scores
    toy_nearest_label.

Definition toy_torch : Torch := {|
  tensor := Z;
  scalar := Z;
  generator := nat;
  cat := foldr Z.add 0%Z;
  F_linear := λ x w b, (x * w + default 0 b)%Z;
  F_softplus := λ x, x;
  F_softmax := λ x, x;
  tensor_size := λ _, [1; 1];
  transpose := λ t _ _, t;
  contiguous := λ t, t;
  view := λ t _, t;
  linear_reset := λ i o g, ((Z.of_nat i, Z.of_nat o), S g);
  xavier_normal := λ t g, ((t + 1)%Z, S g);
  zero_ := λ _, 0%Z;
  tenth_of := λ x, (x `div` 10)%Z;
  VariationalAutoencoder_init := λ _ z _ g,
    (mkModule false true [("z_dim", Int z)] [] [], g);
  Encoder := λ x _ z g,
    (mkModule false true [] []
       [("sample", mkModule true true
                     [("in_features", Int x); ("out_features", Int z)]
                     [("weight", {| data := 5%Z; requires_grad := true |})] [])],
     S g);
  Decoder := λ z _ x g,
    (mkModule false true [] []
       [("reconstruction", mkModule true true
                     [("in_features", Int z); ("out_features", Int x)]
                     [("weight", {| data := 7%Z; requires_grad := true |});
                      ("bias", {| data := 1%Z; requires_grad := true |})] [])],
     S g);
  Encoder_forward := λ _ x g, ((x + Z.of_nat g, x, 0)%Z, S g);
  Decoder_forward := λ _ x g, (x, g);
|}.

(** A pretrained M1 model for [toy_torch]: its parameters still require
    gradient and it is in training mode. *)
Definition toy_features : Module Z Z :=
  mkModule false true [("z_dim", Int 2)] []
    [("encoder", mkModule false true [] []
        [("hidden", mkModule true true
                      [("in_features", Int 3); ("out_features", Int 2)]
                      [("weight", {| data := 11%Z; requires_grad := true |});
                       ("bias", {| data := 13%Z; requires_grad := true |})] [])]);
     ("decoder", mkModule false true [] []
        [("reconstruction", mkModule true true
                      [("in_features", Int 2); ("out_features", Int 3)]
                      [("weight", {| data := 17%Z; requires_grad := true |})] [])])].

(** A world in which nothing has happened yet, and a small pool. *)
Definition toy_world : @world counter_randomness :=
  @Build_world counter_randomness ∅ 0 [].

Definition toy_x_pool : list nat := [100; 101; 102; 103; 104].
Definition toy_y_pool : list nat := [3; 1; 4; 1; 5].

(** A pool of 2400 points for [toy_keras]: the first half withheld from
    the oracle, the rest labelled with digits. *)
Definition toy_pool_x : list nat := seq 0 2400.

Definition toy_pool_y : list nat :=
  map (λ i, if i <? 1200 then 10 else i `mod` 10) (seq 0 2400).

Definition toy_oracle : @KNOracle_ Z_numeric counter_randomness toy_keras :=
  @KNOracle Z_numeric counter_randomness toy_keras
    (drop 1200 toy_pool_x) (drop 1200 toy_pool_y) 3 2.

Definition toy_model : @Sequential_ Z_numeric counter_randomness toy_keras :=
  @Build_Sequential_ Z_numeric counter_randomness toy_keras
    (@dropout_cnn Z_numeric counter_randomness toy_keras) 0 (Some compile_settings).

Definition toy_globals : @globals Z_numeric counter_randomness toy_keras :=
  @Build_globals Z_numeric counter_randomness toy_keras
    [] [] toy_pool_x toy_pool_y [] [] toy_oracle toy_model []
    None None None None.

(** Scores for a subset of 2000 points, and the small pool after the labels
    of its first half were withheld. *)
Definition toy_subset : list nat := seq 0 2000.

Definition toy_scores : list Z :=
  map (λ i, Z.of_nat ((i * 37) `mod` 101)) (seq 0 2000).

Definition toy_y_pool_withheld : list nat := [10; 10; 4; 1; 5].

Definition toy_small_oracle : @KNOracle_ Z_numeric counter_randomness toy_keras :=
  @KNOracle Z_numeric counter_randomness toy_keras [102; 103; 104] [4; 1; 5] 3 2.

Definition toy_world_shuffled : @world counter_randomness :=
  @Build_world counter_randomness ∅ 1 [].

(** The stacked model that [toy_torch] builds on [toy_features]. *)
Definition toy_init : option (Module Z Z * nat) :=
  StackedDeepGenerativeModel_init (H := toy_torch) 4 2 3 [5] 10%Z toy_features 0.

Definition toy_stacked : Module Z Z :=
  match toy_init with Some (m, _) => m | None => toy_features end.

Definition toy_generator : nat :=
  match toy_init with Some (_, g) => g | None => 0 end.

Definition toy_frozen : Module Z Z :=
  default toy_features (get_module (H := toy_torch) toy_stacked "features").

Definition toy_frozen_encoder : Module Z Z :=
  default toy_features (get_module (H := toy_torch) toy_frozen "encoder").


(** ** Functions of the script that it defines beside the run *)

Section binary_split.
Context `{Keras}.

End binary_split.

(** [random.randint(a, b)]. *)
Class RandInt `{Randomness} := {
  randint : nat → nat → rng → nat * rng;
}.

(** Its documented range: [a <= N <= b]. *)
Class RandIntLaws `{RandInt} : Prop := {
  randint_range a b r : a ≤ b → a ≤ (randint a b r).1 ≤ b;
}.

(** The function [assign_nearest_available_label(Pooled_Y, index)] that the
    script defines at its top level (the loop calls the method of the same
    name of the oracle instead). [index] is an array of positions: the
    right-hand side is evaluated once, before the assignment. *)
Module script.
Section assign.
Context `{RandInt}.

Definition assign_nearest_available_label (Pooled_Y : list nat) (index : list nat)
  : M (list nat) :=
  label ← random (randint 0 9);
  Pooled_Y ← checked (put_scalar Pooled_Y index label);
  mret Pooled_Y.
End assign.
End script.

Definition toy_randint : @RandInt counter_randomness :=
  @Build_RandInt counter_randomness (λ a b r, (a + r `mod` (S b - a), S r)).

(** The framework calls of one iteration of the loop: a prediction for each
    dropout pass, then the four calls of retraining. *)
Definition iteration_calls (devices : option string) : list keras_call :=
  replicate dropout_iterations {| call_op := op_predict; call_devices := devices |}
  ++ retrain_calls devices.

(** The variables of the script with a pool of five points. *)
Definition toy_small_globals : @globals Z_numeric counter_randomness toy_keras :=
  @Build_globals Z_numeric counter_randomness toy_keras
    [] [] toy_x_pool toy_y_pool_withheld [] [] toy_small_oracle toy_model []
    None None None None.


(** A linear layer as the loop at the end of
    [DeepGenerativeModel.__init__] leaves it: the weight drawn by
    [init.xavier_normal], and the bias, when there is one, zeroed. *)
Definition xavier_initialised `{Torch} (m : Module tensor scalar) : Prop :=
  ∀ weight, assoc_get "weight" (_parameters m) = Some weight →
    (∃ t g, data weight = (xavier_normal t g).1) ∧
    ∀ bias, assoc_get "bias" (_parameters m) = Some bias →
      ∃ t, data bias = zero_ t.

(** The generative model that [toy_torch] builds, and one forward pass
    through it with a label. *)
Definition toy_dgm_init : option (Module Z Z * nat) :=
  DeepGenerativeModel_init (H := toy_torch) 4 2 3 [5] 10%Z 0.

Definition toy_dgm : Module Z Z :=
  match toy_dgm_init with Some (m, _) => m | None => toy_features end.

Definition toy_dgm_generator : nat :=
  match toy_dgm_init with Some (_, g) => g | None => 0 end.

Definition toy_forward : option (@forward_result toy_torch * nat) :=
  DeepGenerativeModel_forward (H := toy_torch) toy_dgm 6%Z (Some 1%Z) 4.

Definition toy_forward_result : @forward_result toy_torch :=
  match toy_forward with Some (r, _) => r | None => @Logits toy_torch 0%Z end.

Definition toy_forward_generator : nat :=
  match toy_forward with Some (_, g) => g | None => 0 end.

(** What is taken for granted of tensors: exchanging an axis with itself
    ([-1] and [n - 1] both name the last of [n] axes), [contiguous], a
    [view] of a matrix as rows of its own width and a [view] with the sizes
    the tensor has all return the values they were given; and [F.softmax]
    keeps the sizes. *)
Class TensorLaws `{Torch} : Prop := {
  transpose_last t :
    tensor_size t ≠ [] →
    transpose t (-1) (Z.of_nat (length (tensor_size t)) - 1) = t;
  contiguous_values t : contiguous t = t;
  view_rows t r c : tensor_size t = [r; c] → view t [(-1)%Z; Z.of_nat c] = t;
  view_same t : view t (Z.of_nat <$> tensor_size t) = t;
  F_softmax_size t : tensor_size (F_softmax t) = tensor_size t;
}.

(** ** More of [ssl_vae/dgm.py] *)

(** Tensor addition and [t.type(torch.FloatTensor)]. *)
Class TorchArith `{Torch} := {
  tensor_add : tensor → tensor → tensor;
  type_FloatTensor : tensor → tensor;
}.

Section dgm_more.
Context `{TorchArith}.

Abbreviation Module := (Module tensor scalar).

(** [DeepGenerativeModel.sample(z, y)]. *)
Definition DeepGenerativeModel_sample (self : Module) (z y : tensor) : T tensor :=
  let y := type_FloatTensor y in
  decoder ← T_try (get_module self "decoder");
  x ← T_random (Decoder_forward decoder (cat [z; y]));
  mret x.

(** What [AuxiliaryDeepGenerativeModel.forward] returns: the classifier
    output alone, or the reconstruction, the classifier output and the two
    lists. *)
Inductive auxiliary_forward_result :=
  | AuxiliaryLogits (logits : tensor)
  | AuxiliaryReconstruction (reconstruction logits : tensor)
      (latent auxiliary : list tensor).

(** [AuxiliaryDeepGenerativeModel.forward(x, y)]. The name [a] is bound
    twice: to the sample of the auxiliary encoder, and then to the output of
    the auxiliary decoder. *)
Definition AuxiliaryDeepGenerativeModel_forward (self : Module) (x : tensor)
    (y : option tensor) : T auxiliary_forward_result :=
  aux_encoder ← T_try (get_module self "aux_encoder");
  '(a, a_mu, a_log_var) ← T_random (Encoder_forward aux_encoder x);
  transform_z_to_x ← T_try (get_module self "transform_z_to_x");
  a_x ← T_try (Linear_forward transform_z_to_x a);
  classifier ← T_try (get_module self "classifier");
  logits ← T_try (Classifier_forward classifier (tensor_add a_x x));
  match y with
  | None => mret (AuxiliaryLogits logits)
  | Some y =>
      transform_y_to_z ← T_try (get_module self "transform_y_to_z");
      y_z ← T_try (Linear_forward transform_y_to_z y);
      transform_x_to_z ← T_try (get_module self "transform_x_to_z");
      x_z ← T_try (Linear_forward transform_x_to_z x);
      encoder ← T_try (get_module self "encoder");
      '(z, z_mu, z_log_var) ←
        T_random (Encoder_forward encoder (tensor_add (tensor_add a y_z) x_z));
      aux_decoder ← T_try (get_module self "aux_decoder");
      y_z ← T_try (Linear_forward transform_y_to_z y);
      a ← T_random (Decoder_forward aux_decoder (tensor_add z y_z));
      decoder ← T_try (get_module self "decoder");
      y_z ← T_try (Linear_forward transform_y_to_z y);
      reconstruction ←
        T_random (Decoder_forward decoder (tensor_add (tensor_add a z) y_z));
      mret (AuxiliaryReconstruction reconstruction logits
              [z; z_mu; z_log_var] [a; a_mu; a_log_var])
  end.

(** [AuxiliaryDeepGenerativeModel.sample(z, a, y)]. *)
Definition AuxiliaryDeepGenerativeModel_sample (self : Module) (z a y : tensor)
  : T tensor :=
  let a := type_FloatTensor a in
  let y := type_FloatTensor y in
  transform_y_to_z ← T_try (get_module self "transform_y_to_z");
  y ← T_try (Linear_forward transform_y_to_z y);
  decoder ← T_try (get_module self "decoder");
  T_random (Decoder_forward decoder (tensor_add (tensor_add z a) y)).
End dgm_more.

Definition toy_torch_arith : @TorchArith toy_torch :=
  @Build_TorchArith toy_torch Z.add (λ t, t).

(** An auxiliary model for [toy_torch], with the submodules that
    [forward] and [sample] use. *)
Definition toy_linear (w b : Z) : Module Z Z :=
  mkModule true true []
    [("weight", {| data := w; requires_grad := true |});
     ("bias", {| data := b; requires_grad := true |})] [].

Definition toy_auxiliary : Module Z Z :=
  mkModule false true [] []
    [("aux_encoder", mkModule false true [] [] []);
     ("encoder", mkModule false true [] [] []);
     ("aux_decoder", mkModule false true [] [] []);
     ("decoder", mkModule false true [] [] []);
     ("classifier", mkModule false true [] []
                      [("dense", toy_linear 2 1); ("logits", toy_linear 3 1)]);
     ("transform_x_to_z", toy_linear 5 0);
     ("transform_y_to_z", toy_linear 7 0);
     ("transform_z_to_x", toy_linear 11 0)].

Definition toy_auxiliary_forward
  : option (@auxiliary_forward_result toy_torch * nat) :=
  AuxiliaryDeepGenerativeModel_forward (H0 := toy_torch_arith) toy_auxiliary 6%Z
    (Some 1%Z) 4.

Definition toy_auxiliary_result : @auxiliary_forward_result toy_torch :=
  match toy_auxiliary_forward with
  | Some (r, _) => r
  | None => @AuxiliaryLogits toy_torch 0%Z
  end.

Definition toy_auxiliary_generator : nat :=
  match toy_auxiliary_forward with Some (_, g) => g | None => 0 end.

(** * Part II: properties *)

(** ** Positions found by [np.where] *)

Section where_facts.
Context {A : Type} (cond : A → bool).

Lemma where_from_elem (a : list A) (k i : nat) :
  i ∈ where_from cond k a ↔ ∃ j v, i = k + j ∧ a !! j = Some v ∧ cond v = true.
Proof.
  revert k. induction a as [|u a IH]; intros k; simpl.
  - split; [intros Hi; inversion Hi | intros (j & v & _ & Hj & _); done].
  - destruct (cond u) eqn:Hu.
    + rewrite elem_of_cons, IH. split.
      * intros [-> | (j & v & -> & Hj & Hv)].
        -- exists 0, u. split; [lia | done].
        -- exists (S j), v. split; [lia | done].
      * intros (j & v & -> & Hj & Hv). destruct j as [|j]; simpl in Hj.
        -- left. lia.
        -- right. exists j, v. split; [lia | done].
    + rewrite IH. split.
      * intros (j & v & -> & Hj & Hv). exists (S j), v. split; [lia | done].
      * intros (j & v & -> & Hj & Hv). destruct j as [|j]; simpl in Hj.
        -- congruence.
        -- exists j, v. split; [lia | done].
Qed.

Lemma np_where_elem (a : list A) (i : nat) :
  i ∈ np_where cond a ↔ ∃ v, a !! i = Some v ∧ cond v = true.
Proof.
  unfold np_where. rewrite where_from_elem. split.
  - intros (j & v & -> & ?). by exists v.
  - intros (v & ?). by exists i, v.
Qed.

Lemma where_from_length (a : list A) (k : nat) :
  length (where_from cond k a) = length (filter (λ v, cond v = true) a).
Proof.
  revert k. induction a as [|u a IH]; intros k; simpl; [done|].
  rewrite filter_cons. destruct (cond u) eqn:Hu.
  - rewrite decide_True by done. simpl. by rewrite IH.
  - rewrite decide_False by congruence. apply IH.
Qed.

(** The first position found, and where the search goes on. *)
Lemma where_from_first (a : list A) (k : nat) :
  0 < length (filter (λ v, cond v = true) a) →
  ∃ j v, a !! j = Some v ∧ cond v = true ∧
    (∀ j' v', j' < j → a !! j' = Some v' → cond v' = false) ∧
    where_from cond k a = (k + j) :: where_from cond (k + S j) (drop (S j) a).
Proof.
  revert k. induction a as [|u a IH]; intros k; simpl.
  - lia.
  - rewrite filter_cons. destruct (cond u) eqn:Hu.
    + intros _. exists 0, u. repeat split; try done.
      * intros; lia.
      * simpl. rewrite drop_0. do 2 f_equal; lia.
    + rewrite decide_False by congruence. intros Hlen.
      destruct (IH (S k) Hlen) as (j & v & Hj & Hv & Hbefore & Heq).
      exists (S j), v. repeat split; try done.
      * intros [|j'] v' Hlt Hl; simpl in Hl; [congruence|].
        apply (Hbefore j' v'); [lia | done].
      * rewrite Heq. simpl. do 2 f_equal; lia.
Qed.
End where_facts.

(** ** The initial training set *)

Lemma filter_none {A} (P : A → Prop) `{!∀ v, Decision (P v)} (l : list A) :
  Forall (λ v, ¬ P v) l → filter P l = [].
Proof.
  induction 1 as [|v l Hv _ IH]; [done|]. by rewrite filter_cons_False.
Qed.

Section uniform_training_data.
Context {A : Type}.

Lemma occurrences_filter (c : nat) (y : list nat) :
  length (filter (λ v, bool_decide (v = c) = true) y) = occurrences c y.
Proof.
  unfold occurrences. induction y as [|u y IH]; [done|].
  rewrite !filter_cons. destruct (decide (u = c)) as [->|Hne].
  - rewrite bool_decide_eq_true_2 by done. rewrite decide_True by done.
    simpl. by rewrite IH.
  - rewrite bool_decide_eq_false_2 by done. rewrite decide_False by done. done.
Qed.

(** With two occurrences of [c], the block for [c] yields the two rows at
    the first two of them. *)
Lemma class_rows_first_two (x_train : list A) (y_train : list nat) (c : nat) :
  length x_train = length y_train →
  2 ≤ occurrences c y_train →
  ∃ i1 i2 u1 u2,
    first_two_occurrences y_train c i1 i2 ∧
    x_train !! i1 = Some u1 ∧ x_train !! i2 = Some u2 ∧
    class_rows x_train y_train c = Some ([u1; u2], [c; c]).
Proof.
  intros Hlen Hocc. rewrite <- occurrences_filter in Hocc.
  pose (cond := λ v : nat, bool_decide (v = c)).
  change (2 ≤ length (filter (λ v, cond v = true) y_train)) in Hocc.
  destruct (where_from_first cond y_train 0) as (j1 & v1 & Hj1 & Hv1 & Hbefore1 & Heq1);
    [lia|].
  assert (Hsplit : y_train = take (S j1) y_train ++ drop (S j1) y_train)
    by (by rewrite take_drop).
  assert (Hone : length (filter (λ v, cond v = true) (take (S j1) y_train)) = 1).
  { rewrite (take_S_r _ _ _ Hj1), filter_app, length_app. simpl.
    rewrite filter_cons, decide_True by done. rewrite filter_nil. simpl.
    enough (filter (λ v, cond v = true) (take j1 y_train) = []) as -> by done.
    apply filter_none, Forall_forall. intros v Hv.
    apply list_elem_of_lookup in Hv as [j' Hj'].
    rewrite lookup_take_Some in Hj'. destruct Hj' as [Hj' Hlt].
    rewrite (Hbefore1 j' v Hlt Hj'). done. }
  assert (Hrest : 0 < length (filter (λ v, cond v = true) (drop (S j1) y_train))).
  { rewrite Hsplit, filter_app, length_app, Hone in Hocc. lia. }
  destruct (where_from_first cond (drop (S j1) y_train) (0 + S j1) Hrest)
    as (j2 & v2 & Hj2 & Hv2 & Hbefore2 & Heq2).
  rewrite lookup_drop in Hj2.
  apply bool_decide_eq_true in Hv1, Hv2. subst v1 v2.
  destruct (lookup_lt_is_Some_2 x_train j1) as [u1 Hu1];
    [rewrite Hlen; by eapply lookup_lt_Some|].
  destruct (lookup_lt_is_Some_2 x_train (S j1 + j2)) as [u2 Hu2];
    [rewrite Hlen; by eapply lookup_lt_Some|].
  exists j1, (S j1 + j2), u1, u2. split; [|split; [done|split; [done|]]].
  - split; [lia|]. split; [done|]. split; [done|].
    intros j Hlt Hne Hj. destruct (decide (j < j1)) as [Hl|Hl].
    + specialize (Hbefore1 j c Hl Hj). unfold cond in Hbefore1.
      by rewrite bool_decide_eq_true_2 in Hbefore1.
    + assert (Hj' : drop (S j1) y_train !! (j - S j1) = Some c).
      { rewrite lookup_drop. rewrite <- Hj. f_equal. lia. }
      assert (Hlt' : j - S j1 < j2) by lia.
      specialize (Hbefore2 _ c Hlt' Hj'). unfold cond in Hbefore2.
      by rewrite bool_decide_eq_true_2 in Hbefore2.
  - unfold class_rows, np_where. change (λ y, bool_decide (y = c)) with cond.
    rewrite Heq1, Heq2. simpl.
    replace (0 + j1) with j1 by lia.
    replace (0 + S j1 + j2) with (S j1 + j2) by lia.
    unfold fancy_index. simpl. simpl in Hu2, Hj2.
    by rewrite Hu1, Hu2, Hj1, Hj2.
Qed.
End uniform_training_data.

(** C9. For every [y_train] with at least two examples of each digit 0 to 9
    (and an [x_train] with as many rows), [get_uniform_training_data] returns
    exactly 20 examples: for each class, in the order 0 to 9, the rows at the
    first two occurrences of the class in [y_train]; so the labels returned
    are each class exactly twice. *)
Theorem get_uniform_training_data_first_two_per_class
    {A} (x_train : list A) (y_train : list nat) :
  length x_train = length y_train →
  (∀ c, c < 10 → 2 ≤ occurrences c y_train) →
  ∃ (x : list A) (y : list nat) (i1 i2 : nat → nat),
    get_uniform_training_data x_train y_train = Some (x, y) ∧
    length x = 20 ∧
    y = [0; 0; 1; 1; 2; 2; 3; 3; 4; 4; 5; 5; 6; 6; 7; 7; 8; 8; 9; 9] ∧
    ∀ c, c < 10 →
      first_two_occurrences y_train c (i1 c) (i2 c) ∧
      x !! (2 * c) = x_train !! i1 c ∧
      x !! (2 * c + 1) = x_train !! i2 c.
Proof.
  intros Hlen Hocc.
  destruct (class_rows_first_two x_train y_train 0 Hlen) as (a0 & b0 & u0 & v0 & F0 & Ua0 & Ub0 & E0);
    [apply Hocc; lia|].
  destruct (class_rows_first_two x_train y_train 1 Hlen) as (a1 & b1 & u1 & v1 & F1 & Ua1 & Ub1 & E1);
    [apply Hocc; lia|].
  destruct (class_rows_first_two x_train y_train 2 Hlen) as (a2 & b2 & u2 & v2 & F2 & Ua2 & Ub2 & E2);
    [apply Hocc; lia|].
  destruct (class_rows_first_two x_train y_train 3 Hlen) as (a3 & b3 & u3 & v3 & F3 & Ua3 & Ub3 & E3);
    [apply Hocc; lia|].
  destruct (class_rows_first_two x_train y_train 4 Hlen) as (a4 & b4 & u4 & v4 & F4 & Ua4 & Ub4 & E4);
    [apply Hocc; lia|].
  destruct (class_rows_first_two x_train y_train 5 Hlen) as (a5 & b5 & u5 & v5 & F5 & Ua5 & Ub5 & E5);
    [apply Hocc; lia|].
  destruct (class_rows_first_two x_train y_train 6 Hlen) as (a6 & b6 & u6 & v6 & F6 & Ua6 & Ub6 & E6);
    [apply Hocc; lia|].
  destruct (class_rows_first_two x_train y_train 7 Hlen) as (a7 & b7 & u7 & v7 & F7 & Ua7 & Ub7 & E7);
    [apply Hocc; lia|].
  destruct (class_rows_first_two x_train y_train 8 Hlen) as (a8 & b8 & u8 & v8 & F8 & Ua8 & Ub8 & E8);
    [apply Hocc; lia|].
  destruct (class_rows_first_two x_train y_train 9 Hlen) as (a9 & b9 & u9 & v9 & F9 & Ua9 & Ub9 & E9);
    [apply Hocc; lia|].
  eexists _, _,
    (λ c, nth c [a0; a1; a2; a3; a4; a5; a6; a7; a8; a9] 0),
    (λ c, nth c [b0; b1; b2; b3; b4; b5; b6; b7; b8; b9] 0).
  split.
  { unfold get_uniform_training_data.
    rewrite E0, E1, E2, E3, E4, E5, E6, E7, E8, E9. simpl. reflexivity. }
  split; [done|]. split; [done|].
  intros c Hc.
  do 10 (destruct c as [|c]; [simpl; split; [done | split; congruence]|]). lia.
Qed.

Lemma get_uniform_training_data_first_two_per_class_witness :
  ∃ (x y : list nat) (i1 i2 : nat → nat),
    get_uniform_training_data
      [10; 11; 12; 13; 14; 15; 16; 17; 18; 19; 20; 21; 22; 23; 24; 25; 26; 27; 28; 29; 30; 31]
      [9; 0; 1; 2; 3; 4; 5; 6; 7; 8; 9; 0; 0; 1; 2; 3; 4; 5; 6; 7; 8; 9]
      = Some (x, y) ∧
    length x = 20 ∧
    y = [0; 0; 1; 1; 2; 2; 3; 3; 4; 4; 5; 5; 6; 6; 7; 7; 8; 8; 9; 9] ∧
    ∀ c, c < 10 →
      first_two_occurrences
        [9; 0; 1; 2; 3; 4; 5; 6; 7; 8; 9; 0; 0; 1; 2; 3; 4; 5; 6; 7; 8; 9]
        c (i1 c) (i2 c) ∧
      x !! (2 * c) =
        [10; 11; 12; 13; 14; 15; 16; 17; 18; 19; 20; 21; 22; 23; 24; 25; 26;
         27; 28; 29; 30; 31] !! i1 c ∧
      x !! (2 * c + 1) =
        [10; 11; 12; 13; 14; 15; 16; 17; 18; 19; 20; 21; 22; 23; 24; 25; 26;
         27; 28; 29; 30; 31] !! i2 c.
Proof.
  apply get_uniform_training_data_first_two_per_class.
  - reflexivity.
  - intros c Hc.
    do 10 (destruct c as [|c]; [vm_compute; lia|]). lia.
Defined.

(** ** Index assignment *)

Section put_facts.
Context {A : Type}.

Lemma foldl_insert_length (v : A) (idx : list nat) (a : list A) :
  length (foldl (λ acc i, <[i := v]> acc) a idx) = length a.
Proof.
  revert a. induction idx as [|i idx IH]; intros a; simpl; [done|].
  by rewrite IH, length_insert.
Qed.

Lemma foldl_insert_lookup_in (v : A) (idx : list nat) (a : list A) (i : nat) :
  i ∈ idx → i < length a →
  foldl (λ acc i, <[i := v]> acc) a idx !! i = Some v.
Proof.
  revert a. induction idx as [|k idx IH]; intros a Hin Hlt; simpl.
  - inversion Hin.
  - destruct (decide (i ∈ idx)) as [Hi|Hi].
    + apply IH; [done | by rewrite length_insert].
    + apply elem_of_cons in Hin as [->|]; [|done].
      clear IH. revert a Hlt Hi. induction idx as [|k' idx IH]; intros a Hlt Hi; simpl.
      * by apply list_lookup_insert_eq.
      * apply not_elem_of_cons in Hi as [Hne Hi].
        rewrite list_insert_insert_ne by done.
        apply IH; [by rewrite length_insert | done].
Qed.

Lemma foldl_insert_lookup_out (v : A) (idx : list nat) (a : list A) (i : nat) :
  i ∉ idx → foldl (λ acc i, <[i := v]> acc) a idx !! i = a !! i.
Proof.
  revert a. induction idx as [|k idx IH]; intros a Hi; simpl; [done|].
  apply not_elem_of_cons in Hi as [Hne Hi].
  rewrite IH by done. by apply list_lookup_insert_ne.
Qed.

End put_facts.



(** Rows selected by a mask computed from the labels. *)
Lemma mask_rows_zip {A} (f : nat → bool) (x : list A) (y : list nat) :
  length x = length y →
  zip (mask_rows x (map f y)) (mask_rows y (map f y)) =
    filter (λ p, f p.2 = true) (zip x y) ∧
  length (mask_rows x (map f y)) = length (mask_rows y (map f y)).
Proof.
  revert y. induction x as [|u x IH]; intros [|v y] Hlen; simpl in *; try done.
  destruct (IH y) as [IH1 IH2]; [lia|].
  rewrite filter_cons. simpl. destruct (f v).
  - rewrite decide_True by done. simpl. by rewrite IH1, IH2.
  - rewrite decide_False by done. done.
Qed.

Lemma mask_rows_self (f : nat → bool) (y : list nat) :
  mask_rows y (map f y) = filter (λ v, f v = true) y.
Proof.
  induction y as [|v y IH]; simpl; [done|].
  rewrite filter_cons. destruct (f v).
  - rewrite decide_True by done. by rewrite IH.
  - rewrite decide_False by done. done.
Qed.

(** ** Running computations *)

Section run_facts.
Context `{Keras}.

Lemma bind_Returned {A B} (m : M A) (f : A → M B) (w w' : world) (a : A) :
  m w = Returned a w' → (m ≫= f) w = f a w'.
Proof. unfold mbind, M_bind. by intros ->. Qed.

Lemma bind_Returned_inv {A B} (m : M A) (f : A → M B) (w w' : world) (b : B) :
  (m ≫= f) w = Returned b w' → ∃ a w1, m w = Returned a w1 ∧ f a w1 = Returned b w'.
Proof. unfold mbind, M_bind. destruct (m w) as [a w1| |]; [eauto|done..]. Qed.

Lemma checked_Returned_inv {A} (o : option A) (w w' : world) (a : A) :
  checked o w = Returned a w' → o = Some a ∧ w' = w.
Proof. unfold checked. destruct o; [|done]. by intros [= -> ->]. Qed.

Lemma ret_Returned_inv {A} (a a' : A) (w w' : world) :
  mret (M := M) a w = Returned a' w' → a = a' ∧ w = w'.
Proof. unfold mret, M_ret. by intros [= -> ->]. Qed.
End run_facts.

(** ** Labels withheld from the oracle *)

Section withheld.
Context `{Keras} `{!RandomnessLaws}.


End withheld.

(** ** The small instances satisfy the laws *)

Lemma StronglySorted_lookup {A} (R : relation A) (l : list A) (p q : nat) (x y : A) :
  StronglySorted R l → p < q → l !! p = Some x → l !! q = Some y → R x y.
Proof.
  intros Hs Hpq Hp Hq.
  rewrite <- (take_drop_middle l q y Hq) in Hs.
  eapply StronglySorted_app_1_elem_of; [exact Hs | | left].
  apply list_elem_of_lookup. exists p. by rewrite lookup_take_lt.
Qed.

Global Instance by_value_trans : Transitive by_value.
Proof. intros p q r. unfold by_value. lia. Qed.

Global Instance by_value_total : Total by_value.
Proof. intros p q. unfold by_value. lia. Qed.

Lemma zip_seq_elem (a : list Z) (i : nat) (u : Z) :
  (i, u) ∈ zip (seq 0 (length a)) a → a !! i = Some u.
Proof.
  intros Hin. apply list_elem_of_lookup in Hin as [k Hk].
  apply lookup_zip_with_Some in Hk as (i' & u' & [= <- <-] & Hi & Hu).
  apply lookup_seq in Hi as [-> _]. done.
Qed.

Global Instance Z_numeric_laws : @NumericLaws Z_numeric.
Proof.
  split.
  - intros a. simpl. unfold Z_argsort.
    rewrite merge_sort_Permutation. rewrite fst_zip; [done|].
    by rewrite length_seq.
  - intros a p q i j Hpq Hp Hq u v Hu Hv. simpl in *. unfold Z_argsort in *.
    rewrite list_lookup_fmap in Hp, Hq.
    destruct (merge_sort by_value (zip (seq 0 (length a)) a) !! p) as [[i' u']|] eqn:Ep;
      [|done].
    destruct (merge_sort by_value (zip (seq 0 (length a)) a) !! q) as [[j' v']|] eqn:Eq;
      [|done].
    simpl in Hp, Hq. injection Hp as ->. injection Hq as ->.
    assert (Hiu : a !! i = Some u').
    { apply zip_seq_elem. rewrite <- (merge_sort_Permutation by_value).
      apply list_elem_of_lookup. eauto. }
    assert (Hjv : a !! j = Some v').
    { apply zip_seq_elem. rewrite <- (merge_sort_Permutation by_value).
      apply list_elem_of_lookup. eauto. }
    assert (u' = u) as -> by congruence. assert (v' = v) as -> by congruence.
    change (by_value (i, u) (j, v)).
    eapply StronglySorted_lookup; [|exact Hpq|exact Ep|exact Eq].
    apply StronglySorted_merge_sort; apply _.
Qed.

Global Instance counter_randomness_laws : @RandomnessLaws counter_randomness.
Proof.
  split; simpl.
  - intros n k r _. apply length_seq.
  - intros n k r Hk. apply Forall_forall. intros i Hi.
    apply elem_of_seq in Hi. lia.
  - intros n k r _. apply NoDup_seq.
  - intros z r. apply reverse_Permutation.
Qed.

Global Instance toy_keras_laws : @KerasLaws Z_numeric counter_randomness toy_keras.
Proof.
  split; simpl.
  - intros ls w X b r. apply length_map.
  - intros ls w X b r. apply Forall_forall. intros row Hrow.
    apply list_elem_of_fmap in Hrow as (x & -> & _). done.
  - intros xs ys k x Hys. unfold toy_nearest_label.
    destruct ys as [|y ys]; [done|]. simpl. left.
Qed.


(** ** The acquisition scores *)

Section fold_facts.
Context {B : Type} (f : B → B → B).

(** Position [i] of a running element-wise combination is the running
    combination of the values at position [i]. *)
Lemma foldl_zip_with_lookup (Ls : list (list B)) (ls : list B)
    (acc : list B) (a : B) (i : nat) :
  acc !! i = Some a →
  Forall2 (λ L x, L !! i = Some x) Ls ls →
  foldl (zip_with f) acc Ls !! i = Some (foldl f a ls).
Proof.
  intros Ha HF. revert acc a Ha.
  induction HF as [|L x Ls ls HL _ IH]; intros acc a Ha; simpl; [done|].
  apply IH. rewrite lookup_zip_with, Ha, HL. done.
Qed.

Lemma foldl_zip_with_length (Ls : list (list B)) (acc : list B) (n : nat) :
  length acc = n → Forall (λ L, length L = n) Ls →
  length (foldl (zip_with f) acc Ls) = n.
Proof.
  intros Ha HF. revert acc Ha.
  induction HF as [|L Ls HL _ IH]; intros acc Ha; simpl; [done|].
  apply IH. rewrite length_zip_with. lia.
Qed.
End fold_facts.

Section scores.
Context `{Keras} `{!KerasLaws}.

Lemma entropy_row (p : list num) :
  fsum (map fneg (zip_with fmul p (map flog2 p))) = entropy2 p.
Proof.
  unfold entropy2. f_equal. induction p as [|q p IH]; simpl; [done|].
  by rewrite IH.
Qed.

Lemma entropy_rows (ds : list (list num)) :
  map fsum (map (map fneg) (zip_with (zip_with fmul) ds (map (map flog2) ds)))
  = map entropy2 ds.
Proof.
  induction ds as [|p ds IH]; simpl; [done|].
  by rewrite IH, entropy_row.
Qed.

Lemma predict_Returned (model : Sequential_) (X : list image) (b : nat) (w : world) :
  ∃ P w', predict model X b w = Returned P w' ∧ well_shaped X P.
Proof.
  unfold predict, keras, random. unfold mbind, M_bind. simpl.
  pose proof (predict_scores_length (layers model) (model_weights model) X b
                (random_state w)) as Hl.
  pose proof (predict_scores_width (layers model) (model_weights model) X b
                (random_state w)) as Hw.
  destruct (predict_scores (layers model) (model_weights model) X b (random_state w))
    as [P r]. simpl in *. eexists P, _. split; [done|]. by split.
Qed.

(** The loop over [d] accumulates the predictions of the passes and their
    row entropies. *)
Lemma dropout_loop (model : Sequential_) (X : list image) (n : nat)
    (acc : list (list num) * list num) (w : world) :
  ∃ Ps w',
    stochastic_passes n model X w = Returned Ps w' ∧
    length Ps = n ∧
    Forall (well_shaped X) Ps ∧
    for_range n (dropout_pass model X) acc w =
      Returned (foldl (zip_with (zip_with fadd)) acc.1 Ps,
                foldl (zip_with fadd) acc.2 (map (map entropy2) Ps)) w'.
Proof.
  revert acc w. induction n as [|n IH]; intros [sa ae] w; simpl.
  - exists [], w. done.
  - destruct (predict_Returned model X batch_size w) as (P & w1 & HP & Hshape).
    destruct (IH (zip_with (zip_with fadd) sa P,
                  zip_with fadd ae (map entropy2 P)) w1)
      as (Ps & w' & Hpasses & Hlen & Hshapes & Hloop).
    exists (P :: Ps), w'. split; [|split; [|split]].
    + erewrite bind_Returned by exact HP.
      erewrite bind_Returned by exact Hpasses. done.
    + simpl. by rewrite Hlen.
    + by constructor.
    + erewrite bind_Returned.
      2:{ unfold dropout_pass. erewrite bind_Returned by exact HP.
          rewrite entropy_rows. done. }
      exact Hloop.
Qed.

Lemma average_row (n : nat) (rows : list (list num)) (k : nat) :
  Forall (λ row, length row = n) rows →
  length rows = k →
  map (λ v, fdivide v k) (foldl (zip_with fadd) (replicate n fzero) rows)
  = average_distribution n rows.
Proof.
  intros Hrows Hk. unfold average_distribution. apply list_eq. intros c.
  rewrite !list_lookup_fmap.
  destruct (decide (c < n)) as [Hc|Hc].
  - rewrite lookup_seq_lt by done. simpl.
    erewrite (foldl_zip_with_lookup fadd rows (map (λ p, default fzero (p !! c)) rows)).
    + simpl. unfold average. by rewrite length_map, Hk.
    + by apply lookup_replicate_2.
    + clear Hk. induction Hrows as [|row rows Hrow _ IH]; simpl; constructor; [|done].
      destruct (lookup_lt_is_Some_2 row c) as [v Hv]; [lia|]. by rewrite Hv.
  - rewrite lookup_seq_ge by lia.
    rewrite lookup_ge_None_2; [done|].
    rewrite (foldl_zip_with_length fadd rows _ n); [lia| |done].
    apply length_replicate.
Qed.
End scores.

Section bald_theorem.
Context `{Keras} `{!KerasLaws} `{!RandomnessLaws}.

(** The subset an iteration samples has [pool_subset] points. *)
Lemma sampled_subset (x_pool : list image) (w : world) :
  pool_subset ≤ length x_pool →
  ∃ idx X w1,
    random_sample (length x_pool) pool_subset w = Returned idx w1 ∧
    length idx = pool_subset ∧ NoDup idx ∧
    Forall (λ i, i < length x_pool) idx ∧
    fancy_index x_pool idx = Some X ∧
    length X = pool_subset.
Proof.
  intros Hn. unfold random_sample. rewrite decide_True by done.
  pose proof (sample_range_length (length x_pool) pool_subset (random_state w) Hn) as Hl.
  pose proof (sample_range_bound (length x_pool) pool_subset (random_state w) Hn) as Hb.
  pose proof (sample_range_NoDup (length x_pool) pool_subset (random_state w) Hn) as Hd.
  unfold random.
  destruct (sample_range (length x_pool) pool_subset (random_state w)) as [idx r].
  simpl in *.
  destruct (mapM_is_Some_2 (λ i, x_pool !! i) idx) as [X HX].
  { eapply Forall_impl; [exact Hb|]. intros i Hi. by apply lookup_lt_is_Some_2. }
  eexists idx, X, _. repeat split; try done.
  apply length_mapM in HX. congruence.
Qed.

(** The scores of any subset [X], against the three passes that produce
    them. *)
Lemma acquisition_scores_passes (model : Sequential_) (X : list image) (w1 : world) :
  ∃ P0 P1 P2 U_X w2,
    stochastic_passes 3 model X w1 = Returned [P0; P1; P2] w2 ∧
    acquisition_scores model X w1 = Returned U_X w2 ∧
    length U_X = length X ∧
    ∀ i, i < length X →
      ∃ p0 p1 p2,
        P0 !! i = Some p0 ∧ P1 !! i = Some p1 ∧ P2 !! i = Some p2 ∧
        U_X !! i =
          Some (fsub (entropy2 (average_distribution num_classes [p0; p1; p2]))
                     (average [entropy2 p0; entropy2 p1; entropy2 p2])).
Proof.
  set (zeros2 := replicate (length X) (replicate num_classes fzero)).
  set (zeros1 := replicate (length X) fzero).
  destruct (dropout_loop model X dropout_iterations (zeros2, zeros1) w1)
    as (Ps & w2 & Hpasses & Hlen & Hshapes & Hloop).
  destruct Ps as [|P0 [|P1 [|P2 [|? ?]]]]; try discriminate Hlen. clear Hlen.
  apply Forall_cons in Hshapes as [[Hl0 Hw0] Hshapes].
  apply Forall_cons in Hshapes as [[Hl1 Hw1] Hshapes].
  apply Forall_cons in Hshapes as [[Hl2 Hw2] _].
  cbn [foldl map fst snd] in Hloop.
  eexists P0, P1, P2, _, w2. split; [exact Hpasses|]. split.
  { unfold acquisition_scores. fold zeros2 zeros1.
    erewrite bind_Returned by exact Hloop. cbv beta iota zeta.
    rewrite entropy_rows. reflexivity. }
  assert (Hsa : length (zip_with (zip_with fadd)
                  (zip_with (zip_with fadd) (zip_with (zip_with fadd) zeros2 P0) P1) P2)
                = length X).
  { rewrite !length_zip_with. unfold zeros2. rewrite length_replicate. lia. }
  assert (Hae : length (zip_with fadd
                  (zip_with fadd (zip_with fadd zeros1 (map entropy2 P0))
                     (map entropy2 P1)) (map entropy2 P2))
                = length X).
  { rewrite !length_zip_with, !length_map. unfold zeros1.
    rewrite length_replicate. lia. }
  split.
  { rewrite length_zip_with, !length_map, Hsa, Hae. lia. }
  intros i Hi.
  destruct (lookup_lt_is_Some_2 P0 i) as [p0 Hp0]; [lia|].
  destruct (lookup_lt_is_Some_2 P1 i) as [p1 Hp1]; [lia|].
  destruct (lookup_lt_is_Some_2 P2 i) as [p2 Hp2]; [lia|].
  exists p0, p1, p2. split; [done|]. split; [done|]. split; [done|].
  pose proof (foldl_zip_with_lookup (zip_with fadd) [P0; P1; P2] [p0; p1; p2]
                zeros2 (replicate num_classes fzero) i) as Hrow.
  cbn [foldl] in Hrow. rewrite lookup_zip_with, !list_lookup_fmap.
  rewrite Hrow; [|by apply lookup_replicate_2|by repeat constructor].
  pose proof (foldl_zip_with_lookup fadd
                [map entropy2 P0; map entropy2 P1; map entropy2 P2]
                [entropy2 p0; entropy2 p1; entropy2 p2] zeros1 fzero i) as Hent.
  cbn [foldl] in Hent.
  rewrite Hent; [|by apply lookup_replicate_2|].
  2:{ repeat constructor; rewrite list_lookup_fmap; by
        first [rewrite Hp0 | rewrite Hp1 | rewrite Hp2]. }
  cbn [fmap option_fmap option_map mbind option_bind].
  pose proof (average_row num_classes [p0; p1; p2] dropout_iterations) as Havg.
  cbn [foldl] in Havg. rewrite Havg; [done| |done].
  repeat constructor.
  - eapply Forall_lookup_1 in Hw0; [exact Hw0 | exact Hp0].
  - eapply Forall_lookup_1 in Hw1; [exact Hw1 | exact Hp1].
  - eapply Forall_lookup_1 in Hw2; [exact Hw2 | exact Hp2].
Qed.

(** C1. In an acquisition iteration the subset scored has
    [pool_subset = 2000] points, and the score [U_X] of each of them is the
    base-2 entropy of the average of the [dropout_iterations = 3] stochastic
    predictive distributions of the point, minus the average of the base-2
    entropies of these three distributions. *)
Theorem acquisition_scores_bald (g : globals) (w : world) :
  pool_subset ≤ length (x_pool g) →
  ∃ idx X w1,
    random_sample (length (x_pool g)) pool_subset w = Returned idx w1 ∧
    fancy_index (x_pool g) idx = Some X ∧
    length X = 2000 ∧
    ∃ P0 P1 P2 U_X w2,
      stochastic_passes 3 (model g) X w1 = Returned [P0; P1; P2] w2 ∧
      acquisition_scores (model g) X w1 = Returned U_X w2 ∧
      length U_X = 2000 ∧
      ∀ i, i < 2000 →
        ∃ p0 p1 p2,
          P0 !! i = Some p0 ∧ P1 !! i = Some p1 ∧ P2 !! i = Some p2 ∧
          U_X !! i =
            Some (fsub (entropy2 (average_distribution num_classes [p0; p1; p2]))
                       (average [entropy2 p0; entropy2 p1; entropy2 p2])).
Proof.
  intros Hn.
  destruct (sampled_subset (x_pool g) w Hn) as (idx & X & w1 & Hs & _ & _ & _ & HX & HlenX).
  exists idx, X, w1. split; [done|]. split; [done|]. split; [done|].
  change 2000 with pool_subset. rewrite <- HlenX.
  apply acquisition_scores_passes.
Qed.
End bald_theorem.

(** ** The points queried *)

Section queries.
Context `{Numeric} `{!NumericLaws}.

Lemma query_indices_eq (U_X : list num) :
  query_indices U_X = reverse (drop (length U_X - Queries) (argsort U_X)).
Proof.
  unfold query_indices, slice_reversed, slice_last.
  rewrite decide_False by done.
  by rewrite (Permutation_length (argsort_perm U_X)), length_seq.
Qed.

Lemma argsort_length (a : list num) : length (argsort a) = length a.
Proof. by rewrite (Permutation_length (argsort_perm a)), length_seq. Qed.

Lemma argsort_NoDup (a : list num) : NoDup (argsort a).
Proof. rewrite argsort_perm. apply NoDup_seq. Qed.

Lemma argsort_elem (a : list num) (i : nat) : i ∈ argsort a ↔ i < length a.
Proof. rewrite argsort_perm, elem_of_seq. lia. Qed.

(** Where an index that [query_indices] selects stands in [argsort]. *)
Lemma query_indices_lookup (U_X : list num) (p i : nat) :
  query_indices U_X !! p = Some i ↔
  p < Queries `min` length U_X ∧
  argsort U_X !! (length U_X - S p) = Some i.
Proof.
  rewrite query_indices_eq, reverse_lookup_Some, length_drop, lookup_drop.
  rewrite argsort_length. split.
  - intros [Hi Hp]. split; [lia|]. rewrite <- Hi. f_equal. lia.
  - intros [Hp Hi]. split; [|lia]. rewrite <- Hi. f_equal. lia.
Qed.

(** C2. The indices selected from the scores [U_X] of the 2000-point subset
    are [Queries = 10] distinct points of the subset; they come in
    descending order of score; and no point that is left out has a score
    above that of a selected point: they are the ten largest. The points
    queried are the rows of the subset at these indices. *)
Theorem queries_are_top_scores {A} (X_Pool_Dropout : list A) (U_X : list num) :
  length X_Pool_Dropout = pool_subset →
  length U_X = pool_subset →
  let x_pool_index := query_indices U_X in
  length x_pool_index = 10 ∧
  NoDup x_pool_index ∧
  Forall (λ i, i < 2000) x_pool_index ∧
  (∀ p q i j u v,
     p < q → x_pool_index !! p = Some i → x_pool_index !! q = Some j →
     U_X !! i = Some u → U_X !! j = Some v → sort_le v u) ∧
  (∀ i j u v,
     i ∈ x_pool_index → j < 2000 → j ∉ x_pool_index →
     U_X !! i = Some u → U_X !! j = Some v → sort_le v u) ∧
  ∃ Pooled_X,
    fancy_index X_Pool_Dropout x_pool_index = Some Pooled_X ∧
    length Pooled_X = 10 ∧
    ∀ p i, x_pool_index !! p = Some i → Pooled_X !! p = X_Pool_Dropout !! i.
Proof.
  intros HX HU sel.
  assert (Hlen : length sel = 10).
  { unfold sel. rewrite query_indices_eq, length_reverse, length_drop, argsort_length.
    rewrite HU. reflexivity. }
  assert (Hsub : ∀ i, i ∈ sel → i < length U_X).
  { intros i Hi. unfold sel in Hi. rewrite query_indices_eq in Hi.
    rewrite elem_of_reverse in Hi. apply argsort_elem.
    eapply elem_of_sublist; [exact Hi | apply sublist_drop]. }
  assert (Hbound : Forall (λ i, i < 2000) sel).
  { apply Forall_forall. intros i Hi. apply Hsub in Hi.
    rewrite HU in Hi. exact Hi. }
  split; [done|]. split; [|split; [done|split; [|split]]].
  - unfold sel. rewrite query_indices_eq, reverse_Permutation.
    eapply sublist_NoDup; [apply argsort_NoDup | apply sublist_drop].
  - intros p q i j u v Hpq Hp Hq Hu Hv.
    apply query_indices_lookup in Hp as [Hp Hi].
    apply query_indices_lookup in Hq as [Hq Hj].
    eapply (argsort_sorted U_X (length U_X - S q) (length U_X - S p) j i);
      [lia|done..].
  - intros i j u v Hi Hj Hnj Hu Hv.
    apply list_elem_of_lookup in Hi as [p Hp].
    apply query_indices_lookup in Hp as [Hp Hi].
    assert (Hjs : j ∈ argsort U_X) by (apply argsort_elem; rewrite HU; exact Hj).
    apply list_elem_of_lookup in Hjs as [m Hm].
    assert (Hmlt : m < length U_X).
    { rewrite <- argsort_length. by eapply lookup_lt_Some. }
    destruct (decide (m < length U_X - Queries)) as [Hlow|Hhigh].
    + eapply (argsort_sorted U_X m (length U_X - S p) j i); [lia|done..].
    + exfalso. apply Hnj. apply list_elem_of_lookup.
      exists (length U_X - S m). apply query_indices_lookup. split; [lia|].
      rewrite <- Hm. f_equal. lia.
  - destruct (mapM_is_Some_2 (λ i, X_Pool_Dropout !! i) sel) as [Pooled_X HP].
    { eapply Forall_impl; [exact Hbound|]. intros i Hi.
      apply lookup_lt_is_Some_2. rewrite HX. exact Hi. }
    exists Pooled_X. split; [exact HP|]. split.
    + apply length_mapM in HP. congruence.
    + intros p i Hp. apply mapM_Some_1 in HP.
      destruct (Forall2_lookup_l _ _ _ _ _ HP Hp) as (u & Hu & Hiu).
      by rewrite Hu, Hiu.
Qed.
End queries.

(** ** The oracle query *)

Section put_values_facts.
Context {A : Type}.

Lemma where_from_lower (cond : A → bool) (a : list A) (k i : nat) :
  i ∈ where_from cond k a → k ≤ i.
Proof. rewrite where_from_elem. intros (j & v & -> & _). lia. Qed.

Lemma where_from_NoDup (cond : A → bool) (a : list A) (k : nat) :
  NoDup (where_from cond k a).
Proof.
  revert k. induction a as [|v a IH]; intros k; simpl; [constructor|].
  destruct (cond v); [|apply IH].
  constructor; [|apply IH]. intros Hin. apply where_from_lower in Hin. lia.
Qed.

Lemma put_values_Some (a : list A) (idx : list nat) (vals : list A) :
  length idx = length vals → Forall (λ i, i < length a) idx →
  put_values a idx vals
  = Some (foldl (λ acc iv, <[iv.1 := iv.2]> acc) a (zip idx vals)).
Proof.
  intros Hl Hb. unfold put_values. destruct vals as [|v [|v' vals]].
  - by rewrite decide_True.
  - destruct idx as [|i [|? ?]]; try done.
    unfold put_scalar. by rewrite decide_True.
  - by rewrite decide_True.
Qed.

Lemma put_fold_length (idx : list nat) (vals : list A) (a : list A) :
  length (foldl (λ acc iv, <[iv.1 := iv.2]> acc) a (zip idx vals)) = length a.
Proof.
  revert vals a. induction idx as [|i idx IH]; intros [|v vals] a; simpl; try done.
  by rewrite IH, length_insert.
Qed.

Lemma put_fold_lookup_out (idx : list nat) (vals : list A) (a : list A) (i : nat) :
  i ∉ idx →
  foldl (λ acc iv, <[iv.1 := iv.2]> acc) a (zip idx vals) !! i = a !! i.
Proof.
  revert vals a. induction idx as [|k idx IH]; intros [|v vals] a Hi; simpl; try done.
  apply not_elem_of_cons in Hi as [Hne Hi].
  rewrite IH by done. by apply list_lookup_insert_ne.
Qed.

Lemma put_fold_lookup_in (idx : list nat) (vals : list A) (a : list A)
    (k i : nat) (v : A) :
  NoDup idx → idx !! k = Some i → vals !! k = Some v → i < length a →
  foldl (λ acc iv, <[iv.1 := iv.2]> acc) a (zip idx vals) !! i = Some v.
Proof.
  revert vals a k. induction idx as [|j idx IH]; intros [|u vals] a k Hnd Hk Hv Hi;
    simpl; try done.
  apply NoDup_cons in Hnd as [Hj Hnd]. destruct k as [|k]; simpl in *.
  - injection Hk as ->. injection Hv as ->.
    rewrite put_fold_lookup_out by done. by apply list_lookup_insert_eq.
  - eapply IH; try done. by rewrite length_insert.
Qed.
End put_values_facts.

Section oracle_query.
Context `{Keras}.

Lemma assign_nearest_available_label_lookup (o : KNOracle_) (X : list image)
    (k : nat) (x : image) :
  X !! k = Some x →
  assign_nearest_available_label o X !! k
  = Some (nearest_label (oracle_x o) (oracle_y o) (n_neighbors o) x).
Proof.
  intros Hx. unfold assign_nearest_available_label.
  by rewrite list_lookup_fmap, Hx.
Qed.

Lemma unknown_index_elem (Pooled_Y : list nat) (p : nat) :
  p ∈ get_pool_index_unknown_to_oracle Pooled_Y ↔ Pooled_Y !! p = Some 10.
Proof.
  unfold get_pool_index_unknown_to_oracle. rewrite np_where_elem. split.
  - intros (v & Hv & Hc). apply bool_decide_eq_true in Hc. by subst.
  - intros Hp. exists 10. split; [done|]. by apply bool_decide_eq_true.
Qed.

(** The oracle that [make_oracle] returns. *)
Lemma make_oracle_reference (x_pool : list image) (y_pool : list nat)
    (w w' : world) (y_pool' : list nat) (o : KNOracle_) :
  make_oracle x_pool y_pool w = Returned (y_pool', o) w' →
  n_neighbors o = 3 ∧
  length (oracle_x o) = length (oracle_y o) ∧
  oracle_y o = filter (λ v, v ≠ 10) y_pool' ∧
  zip (oracle_x o) (oracle_y o) = filter (λ p, p.2 ≠ 10) (zip x_pool y_pool').
Proof.
  intros Hmake. unfold make_oracle in Hmake.
  apply bind_Returned_inv in Hmake as (y1 & w1 & _ & Hmake).
  apply bind_Returned_inv in Hmake as (xs & w2 & Hxs & Hmake).
  apply bind_Returned_inv in Hmake as (ys & w3 & Hys & Hmake).
  apply ret_Returned_inv in Hmake as [[= -> <-] _].
  apply checked_Returned_inv in Hxs as [Hxs _].
  apply checked_Returned_inv in Hys as [Hys _].
  unfold mask_index in Hxs, Hys.
  destruct (decide (length x_pool = _)) as [Hlx|]; [|done].
  destruct (decide (length y_pool' = _)) as [Hly|]; [|done].
  injection Hxs as <-. injection Hys as <-. simpl. split; [done|].
  rewrite length_map in Hlx.
  destruct (mask_rows_zip (λ v, bool_decide (v ≠ unknown_label)) x_pool y_pool' Hlx)
    as [Hzip Hlen].
  split; [done|]. split.
  - rewrite mask_rows_self. apply list_filter_iff. intros v.
    by rewrite bool_decide_eq_true.
  - rewrite Hzip. apply list_filter_iff. intros [u v]. simpl.
    by rewrite bool_decide_eq_true.
Qed.

(** What [query_labels] returns, position by position. *)
Lemma query_labels_lookup (o : KNOracle_) (Pooled_X : list image)
    (y_Pool_Dropout : list nat) (x_pool_index : list nat) (Pooled_Y0 : list nat) :
  fancy_index y_Pool_Dropout x_pool_index = Some Pooled_Y0 →
  length Pooled_X = length Pooled_Y0 →
  ∃ Pooled_Y,
    query_labels o Pooled_X y_Pool_Dropout x_pool_index = Some Pooled_Y ∧
    length Pooled_Y = length Pooled_Y0 ∧
    ∀ p x y,
      Pooled_X !! p = Some x → Pooled_Y0 !! p = Some y →
      Pooled_Y !! p =
        Some (if decide (y = 10)
              then nearest_label (oracle_x o) (oracle_y o) (n_neighbors o) x
              else y).
Proof.
  intros HY HlXY.
  set (idx := get_pool_index_unknown_to_oracle Pooled_Y0).
  assert (Hbound : Forall (λ p, p < length Pooled_Y0) idx).
  { apply Forall_forall. intros p Hp. apply unknown_index_elem in Hp.
    by eapply lookup_lt_Some. }
  destruct (mapM_is_Some_2 (λ p, Pooled_X !! p) idx) as [unknown_X HU].
  { eapply Forall_impl; [exact Hbound|]. intros p Hp. simpl in Hp.
    apply lookup_lt_is_Some_2. rewrite HlXY. exact Hp. }
  pose proof (length_mapM _ _ _ HU) as HlU.
  set (labels := assign_nearest_available_label o unknown_X).
  assert (Hll : length idx = length labels).
  { unfold labels, assign_nearest_available_label. by rewrite length_map. }
  eexists. split.
  { unfold query_labels. rewrite HY. simpl. fold idx.
    unfold fancy_index in HU |- *. rewrite HU. simpl. fold labels.
    rewrite (put_values_Some _ _ _ Hll Hbound). reflexivity. }
  split; [by rewrite put_fold_length|].
  intros p x y HpX HpY. destruct (decide (y = 10)) as [->|Hne].
  - apply unknown_index_elem in HpY as Hin. fold idx in Hin.
    apply list_elem_of_lookup in Hin as [k Hkp].
    assert (HUk : unknown_X !! k = Some x).
    { apply mapM_Some_1 in HU.
      destruct (Forall2_lookup_l _ _ _ _ _ HU Hkp) as (x' & Hx' & Hpx). congruence. }
    eapply put_fold_lookup_in; [apply where_from_NoDup|exact Hkp| |].
    + by apply assign_nearest_available_label_lookup.
    + by eapply lookup_lt_Some.
  - rewrite put_fold_lookup_out; [done|].
    unfold idx. rewrite unknown_index_elem. congruence.
Qed.

(** C4. A queried point whose label in the pool is the sentinel 10 gets the
    label that [KNOracle.assign_nearest_available_label] looks up for it, a
    nearest-neighbour lookup with [k = 3] over the pool points whose labels
    were not withheld; a queried point with another label keeps the label
    it has in the pool. *)
Theorem oracle_labels_unknown_points
    (x_pool : list image) (y_pool : list nat) (w w' : world)
    (y_pool' : list nat) (o : KNOracle_)
    (X_Pool_Dropout : list image) (y_Pool_Dropout : list nat)
    (x_pool_index : list nat) (Pooled_X : list image) :
  make_oracle x_pool y_pool w = Returned (y_pool', o) w' →
  fancy_index X_Pool_Dropout x_pool_index = Some Pooled_X →
  is_Some (fancy_index y_Pool_Dropout x_pool_index) →
  n_neighbors o = 3 ∧
  zip (oracle_x o) (oracle_y o) = filter (λ p, p.2 ≠ 10) (zip x_pool y_pool') ∧
  ∃ Pooled_Y,
    query_labels o Pooled_X y_Pool_Dropout x_pool_index = Some Pooled_Y ∧
    length Pooled_Y = length x_pool_index ∧
    ∀ p i x y,
      x_pool_index !! p = Some i →
      X_Pool_Dropout !! i = Some x → y_Pool_Dropout !! i = Some y →
      (y = 10 →
         Pooled_Y !! p = assign_nearest_available_label o [x] !! 0 ∧
         Pooled_Y !! p = Some (nearest_label (oracle_x o) (oracle_y o) 3 x)) ∧
      (y ≠ 10 → Pooled_Y !! p = Some y).
Proof.
  intros Hmake HX [Pooled_Y0 HY].
  destruct (make_oracle_reference _ _ _ _ _ _ Hmake) as (Hk & _ & _ & Href).
  split; [done|]. split; [done|].
  pose proof (length_mapM _ _ _ HX) as HlX.
  pose proof (length_mapM _ _ _ HY) as HlY.
  destruct (query_labels_lookup o Pooled_X y_Pool_Dropout x_pool_index Pooled_Y0 HY)
    as (Pooled_Y & Hq & Hlen & Hlook); [congruence|].
  exists Pooled_Y. split; [done|]. split; [congruence|].
  intros p i x y Hp Hx Hy.
  assert (HpX : Pooled_X !! p = Some x).
  { apply mapM_Some_1 in HX.
    destruct (Forall2_lookup_l _ _ _ _ _ HX Hp) as (x' & Hx' & Hix). congruence. }
  assert (HpY : Pooled_Y0 !! p = Some y).
  { apply mapM_Some_1 in HY.
    destruct (Forall2_lookup_l _ _ _ _ _ HY Hp) as (y' & Hy' & Hiy). congruence. }
  rewrite (Hlook p x y HpX HpY), Hk. split.
  - intros ->. rewrite decide_True by done. split; [|done].
    unfold assign_nearest_available_label. simpl. by rewrite Hk.
  - intros Hne. by rewrite decide_False.
Qed.
End oracle_query.

(** ** One acquisition iteration *)

Section iteration.
Context `{Keras} `{!NumericLaws} `{!RandomnessLaws} `{!KerasLaws}.

Lemma fancy_index_Forall {A} (P : A → Prop) (a : list A) (idx : list nat) (b : list A) :
  Forall P a → fancy_index a idx = Some b → Forall P b.
Proof.
  intros Ha Hb. apply mapM_Some_1 in Hb. apply Forall_forall. intros v Hv.
  apply list_elem_of_lookup in Hv as [k Hk].
  destruct (Forall2_lookup_r _ _ _ _ _ Hb Hk) as (i & _ & Hi).
  eapply Forall_lookup_1; [exact Ha | exact Hi].
Qed.

Lemma fancy_index_elem {A} (a : list A) (idx : list nat) (b : list A) (v : A) :
  fancy_index a idx = Some b → v ∈ b → v ∈ a.
Proof.
  intros Hb Hv. apply mapM_Some_1 in Hb.
  apply list_elem_of_lookup in Hv as [k Hk].
  destruct (Forall2_lookup_r _ _ _ _ _ Hb Hk) as (i & _ & Hi).
  by eapply list_elem_of_lookup_2.
Qed.

Lemma fancy_index_is_Some {A} (a : list A) (idx : list nat) :
  Forall (λ i, i < length a) idx → ∃ b, fancy_index a idx = Some b.
Proof.
  intros Hb. apply (mapM_is_Some_2 (λ i, a !! i)).
  eapply Forall_impl; [exact Hb|]. intros i Hi. by apply lookup_lt_is_Some_2.
Qed.

Lemma query_indices_bound (U_X : list num) :
  Forall (λ i, i < length U_X) (query_indices U_X).
Proof.
  apply Forall_forall. intros i Hi. rewrite query_indices_eq in Hi.
  rewrite elem_of_reverse in Hi. apply argsort_elem.
  eapply elem_of_sublist; [exact Hi | apply sublist_drop].
Qed.

(** Retraining always returns: a model of the architecture of the loop,
    with the weights that fitting reaches from newly initialised ones. *)
Lemma retrain_Returned (x : list image) (y : list (list num))
    (xt : list image) (yt : list (list num)) (w : world) :
  let i := initialize dropout_cnn_in_loop (random_state w) in
  let f := fit_weights dropout_cnn_in_loop compile_settings i.1 x y
             batch_size epochs (xt, yt) i.2 in
  let e := evaluate_scores dropout_cnn_in_loop f.1 xt yt f.2 in
  retrain x y xt yt w =
    Returned ({| layers := dropout_cnn_in_loop; model_weights := f.1;
                 compiled := Some compile_settings |}, e.1)
             {| environ := environ w; random_state := e.2;
                keras_log := keras_log w ++
                  retrain_calls (environ w !! "CUDA_VISIBLE_DEVICES") |}.
Proof.
  intros i f e. subst e f i.
  unfold retrain, Sequential, compile, fit, evaluate, keras, random, checked.
  unfold mbind, M_bind, mret, M_ret. simpl.
  destruct (initialize dropout_cnn_in_loop (random_state w)) as [w0 r1]. simpl.
  destruct (fit_weights dropout_cnn_in_loop compile_settings w0 x y batch_size epochs
              (xt, yt) r1) as [w2 r2]. simpl.
  destruct (evaluate_scores dropout_cnn_in_loop w2 xt yt r2) as [s r3]. simpl.
  unfold retrain_calls. by rewrite <- !app_assoc.
Qed.

Lemma bind_checked {A B} (a : A) (f : A → M B) (w : world) :
  (checked (Some a) ≫= f) w = f a w.
Proof. reflexivity. Qed.

Lemma np_delete_Some {A} (a : list A) (idx : list nat) :
  Forall (λ i, i < length a) idx → np_delete a idx = Some (delete_from 0 idx a).
Proof. intros Hb. unfold np_delete. by rewrite decide_True. Qed.

Lemma to_categorical_is_Some (y : list nat) (n : nat) :
  Forall (λ c, c < n) y → ∃ Yc, to_categorical y n = Some Yc ∧ length Yc = length y.
Proof.
  intros Hy. unfold to_categorical. rewrite decide_True by done.
  eexists. split; [done|]. by rewrite length_map.
Qed.

(** Every step of an iteration, for a pool and an oracle as they should
    be. *)
Lemma acquisition_iteration_steps (g : globals) (w : world) :
  pool_ok g →
  ∃ idx X Y w1 U_X w2 Pooled_X Pooled_Y Pooled_Y_categorical,
    random_sample (length (x_pool g)) pool_subset w = Returned idx w1 ∧
    length idx = pool_subset ∧
    fancy_index (x_pool g) idx = Some X ∧
    fancy_index (y_pool g) idx = Some Y ∧
    acquisition_scores (model g) X w1 = Returned U_X w2 ∧
    fancy_index X (query_indices U_X) = Some Pooled_X ∧
    query_labels (oracle g) Pooled_X Y (query_indices U_X) = Some Pooled_Y ∧
    to_categorical Pooled_Y num_classes = Some Pooled_Y_categorical ∧
    ∀ m s w',
      retrain (x_train g ++ Pooled_X) (y_train g ++ Pooled_Y_categorical)
              (x_test g) (y_test g) w2 = Returned (m, s) w' →
      acquisition_iteration g w =
        Returned
          {| x_train := x_train g ++ Pooled_X;
             y_train := y_train g ++ Pooled_Y_categorical;
             x_pool := x_pool g ++ X;
             y_pool := y_pool g ++ Y;
             x_test := x_test g; y_test := y_test g;
             oracle := oracle g; model := m; score := s;
             delete_Pool_X := Some (delete_from 0 idx (x_pool g));
             delete_Pool_Y := Some (delete_from 0 idx (y_pool g));
             delete_Pool_X_Dropout := Some (delete_from 0 (query_indices U_X) X);
             delete_Pool_Y_Dropout := Some (delete_from 0 (query_indices U_X) Y) |}
          w'.
Proof.
  intros [Hlen Hlarge Hlabels Hne Hdigits].
  destruct (sampled_subset (x_pool g) w Hlarge)
    as (idx & X & w1 & Hs & Hlidx & _ & Hbound & HX & HlX).
  assert (Hboundy : Forall (λ i, i < length (y_pool g)) idx) by (by rewrite <- Hlen).
  destruct (fancy_index_is_Some (y_pool g) idx Hboundy) as [Y HY].
  pose proof (length_mapM _ _ _ HY) as HlY.
  destruct (acquisition_scores_passes (model g) X w1)
    as (_ & _ & _ & U_X & w2 & _ & HU & HlU & _).
  pose proof (query_indices_bound U_X) as Hsel. rewrite HlU in Hsel.
  destruct (fancy_index_is_Some X _ Hsel) as [Pooled_X HPX].
  assert (HselY : Forall (λ i, i < length Y) (query_indices U_X)).
  { replace (length Y) with (length X) by congruence. exact Hsel. }
  destruct (fancy_index_is_Some Y _ HselY) as [Pooled_Y0 HPY0].
  pose proof (length_mapM _ _ _ HPX) as HlPX.
  pose proof (length_mapM _ _ _ HPY0) as HlPY0.
  destruct (query_labels_lookup (oracle g) Pooled_X Y (query_indices U_X) Pooled_Y0 HPY0)
    as (Pooled_Y & Hq & HlPY & Hlook); [congruence|].
  assert (HY10 : Forall (λ v, v ≤ 10) Pooled_Y0).
  { apply (fancy_index_Forall _ Y (query_indices U_X)); [|exact HPY0].
    apply (fancy_index_Forall _ (y_pool g) idx); [exact Hlabels|exact HY]. }
  assert (Hdig : Forall (λ c, c < num_classes) Pooled_Y).
  { apply Forall_lookup. intros p v Hv.
    destruct (lookup_lt_is_Some_2 Pooled_Y0 p) as [y Hy];
      [rewrite <- HlPY; by eapply lookup_lt_Some|].
    destruct (lookup_lt_is_Some_2 Pooled_X p) as [x Hx];
      [rewrite <- HlPX, HlPY0; by eapply lookup_lt_Some|].
    rewrite (Hlook p x y Hx Hy) in Hv. injection Hv as <-.
    destruct (decide (y = 10)) as [->|Hy10].
    - apply (proj1 (Forall_forall _ _) Hdigits). by apply nearest_label_elem.
    - pose proof (Forall_lookup_1 _ _ _ _ HY10 Hy) as Hle. simpl in Hle.
      unfold num_classes. lia. }
  destruct (to_categorical_is_Some Pooled_Y num_classes Hdig) as (Yc & HYc & _).
  exists idx, X, Y, w1, U_X, w2, Pooled_X, Pooled_Y, Yc.
  repeat (split; [done|]).
  intros m s w' Hre. unfold acquisition_iteration.
  erewrite bind_Returned by exact Hs. cbv beta.
  rewrite HX, bind_checked. rewrite HY, bind_checked.
  erewrite bind_Returned by exact HU. cbv beta zeta.
  rewrite HPX, bind_checked. rewrite Hq, bind_checked. rewrite HYc, bind_checked.
  rewrite (np_delete_Some (x_pool g) idx Hbound), bind_checked.
  rewrite (np_delete_Some (y_pool g) idx Hboundy), bind_checked.
  rewrite (np_delete_Some X _ Hsel), bind_checked.
  rewrite (np_delete_Some Y _ HselY), bind_checked.
  cbv zeta. erewrite bind_Returned by exact Hre. reflexivity.
Qed.
End iteration.

(** ** The pool and the model across iterations *)

Section loop.
Context `{Keras} `{!NumericLaws} `{!RandomnessLaws} `{!KerasLaws}.

Lemma for_range_S_end {S} (n : nat) (body : S → M S) (s : S) (w : world) :
  for_range (Datatypes.S n) body s w = (for_range n body s ≫= body) w.
Proof.
  revert s w. induction n as [|n IH]; intros s w.
  - simpl. unfold mbind, M_bind, mret, M_ret. by destruct (body s w).
  - change (for_range (Datatypes.S (Datatypes.S n)) body s w)
      with ((body s ≫= for_range (Datatypes.S n) body) w).
    change (for_range (Datatypes.S n) body s)
      with (body s ≫= for_range n body).
    unfold mbind, M_bind. destruct (body s w) as [s' w'| |]; [|done..].
    apply IH.
Qed.

(** What one iteration does to the pool, and what it trains. *)
Lemma acquisition_iteration_effect (g : globals) (w : world) :
  pool_ok g →
  ∃ g' w' idx X Y w1 U_X w2 Pooled_X,
    acquisition_iteration g w = Returned g' w' ∧
    random_sample (length (x_pool g)) pool_subset w = Returned idx w1 ∧
    length idx = pool_subset ∧
    fancy_index (x_pool g) idx = Some X ∧
    fancy_index (y_pool g) idx = Some Y ∧
    acquisition_scores (model g) X w1 = Returned U_X w2 ∧
    fancy_index X (query_indices U_X) = Some Pooled_X ∧
    x_pool g' = x_pool g ++ X ∧
    y_pool g' = y_pool g ++ Y ∧
    x_train g' = x_train g ++ Pooled_X ∧
    x_test g' = x_test g ∧ y_test g' = y_test g ∧ oracle g' = oracle g ∧
    delete_Pool_X g' = np_delete (x_pool g) idx ∧
    delete_Pool_Y g' = np_delete (y_pool g) idx ∧
    delete_Pool_X_Dropout g' = np_delete X (query_indices U_X) ∧
    delete_Pool_Y_Dropout g' = np_delete Y (query_indices U_X) ∧
    retrain (x_train g') (y_train g') (x_test g) (y_test g) w2
      = Returned (model g', score g') w' ∧
    pool_ok g'.
Proof.
  intros Hok.
  destruct (acquisition_iteration_steps g w Hok)
    as (idx & X & Y & w1 & U_X & w2 & Pooled_X & Pooled_Y & Yc &
        Hs & Hlidx & HX & HY & HU & HPX & Hq & HYc & Hit).
  destruct Hok as [Hlen Hlarge Hlabels Hne Hdigits].
  pose proof (retrain_Returned (x_train g ++ Pooled_X) (y_train g ++ Yc)
                (x_test g) (y_test g) w2) as Hre. cbv zeta in Hre.
  specialize (Hit _ _ _ Hre).
  pose proof (length_mapM _ _ _ HX) as HlX.
  pose proof (length_mapM _ _ _ HY) as HlY.
  assert (Hbound : Forall (λ i, i < length (x_pool g)) idx).
  { apply Forall_forall. intros i Hi. apply mapM_Some_1 in HX.
    apply list_elem_of_lookup in Hi as [k Hk].
    destruct (Forall2_lookup_l _ _ _ _ _ HX Hk) as (x & _ & Hx).
    by eapply lookup_lt_Some. }
  assert (Hsel : Forall (λ i, i < length X) (query_indices U_X)).
  { apply Forall_forall. intros i Hi. apply mapM_Some_1 in HPX.
    apply list_elem_of_lookup in Hi as [k Hk].
    destruct (Forall2_lookup_l _ _ _ _ _ HPX Hk) as (x & _ & Hx).
    by eapply lookup_lt_Some. }
  eexists _, _, idx, X, Y, w1, U_X, w2, Pooled_X.
  split; [exact Hit|]. simpl.
  repeat (split; [done|]).
  split; [symmetry; by apply np_delete_Some|].
  split; [symmetry; apply np_delete_Some; by rewrite <- Hlen|].
  split; [symmetry; by apply np_delete_Some|].
  split; [symmetry; apply np_delete_Some;
          replace (length Y) with (length X) by congruence; exact Hsel|].
  split; [exact Hre|].
  split; simpl; try done.
  - rewrite !length_app. lia.
  - rewrite length_app. lia.
  - apply Forall_app. split; [done|]. by eapply fancy_index_Forall.
Qed.

(** The pool after [n] iterations. *)
Lemma acquisition_loop_pool (n : nat) (g : globals) (w : world) :
  pool_ok g →
  ∃ gn wn,
    acquisition_loop n g w = Returned gn wn ∧
    pool_ok gn ∧
    length (x_pool gn) = length (x_pool g) + n * pool_subset ∧
    length (y_pool gn) = length (y_pool g) + n * pool_subset ∧
    x_pool g `prefix_of` x_pool gn ∧
    y_pool g `prefix_of` y_pool gn ∧
    x_test gn = x_test g ∧ y_test gn = y_test g.
Proof.
  revert g w. induction n as [|n IH]; intros g w Hok.
  - exists g, w. split; [done|]. split; [done|].
    split; [simpl; lia|]. split; [simpl; lia|]. done.
  - destruct (acquisition_iteration_effect g w Hok)
      as (g1 & w1 & idx & X & Y & _ & _ & _ & _ & Hit & _ & Hlidx & HX & HY & _ & _ &
          Hxp & Hyp & _ & Hxt & Hyt & _ & _ & _ & _ & _ & _ & Hok1).
    destruct (IH g1 w1 Hok1) as (gn & wn & Hloop & Hokn & Hlx & Hly & Hpx & Hpy & Hxtn & Hytn).
    exists gn, wn. split.
    { unfold acquisition_loop in *. simpl.
      erewrite bind_Returned by exact Hit. exact Hloop. }
    pose proof (length_mapM _ _ _ HX) as HlX.
    pose proof (length_mapM _ _ _ HY) as HlY.
    split; [done|]. rewrite Hlx, Hly, Hxp, Hyp, !length_app.
    split; [lia|]. split; [lia|]. split; [|split; [|split; congruence]].
    + etrans; [|exact Hpx]. rewrite Hxp. by apply prefix_app_r.
    + etrans; [|exact Hpy]. rewrite Hyp. by apply prefix_app_r.
Qed.
End loop.

Section loop_theorems.
Context `{Keras} `{!NumericLaws} `{!RandomnessLaws} `{!KerasLaws}.

(** C5. An iteration leaves the pool [pool_subset = 2000] entries longer:
    the sampled subset is concatenated onto the pool, which is still
    complete. The four [delete_*] arrays are computed and assigned, but the
    following iteration is the same whatever they hold: they are never used.
    No point leaves the pool; the points queried are among those that
    stay. After [n] iterations the pool has grown by [n * 2000] entries. *)
Theorem pool_only_grows (g : globals) (w : world) :
  pool_ok g →
  (∃ g' w' idx X Y w1 U_X w2 Pooled_X,
     acquisition_iteration g w = Returned g' w' ∧
     random_sample (length (x_pool g)) pool_subset w = Returned idx w1 ∧
     length idx = 2000 ∧
     fancy_index (x_pool g) idx = Some X ∧
     fancy_index (y_pool g) idx = Some Y ∧
     acquisition_scores (model g) X w1 = Returned U_X w2 ∧
     fancy_index X (query_indices U_X) = Some Pooled_X ∧
     x_pool g' = x_pool g ++ X ∧
     y_pool g' = y_pool g ++ Y ∧
     length (x_pool g') = length (x_pool g) + 2000 ∧
     length (y_pool g') = length (y_pool g) + 2000 ∧
     delete_Pool_X g' = np_delete (x_pool g) idx ∧
     delete_Pool_Y g' = np_delete (y_pool g) idx ∧
     delete_Pool_X_Dropout g' = np_delete X (query_indices U_X) ∧
     delete_Pool_Y_Dropout g' = np_delete Y (query_indices U_X) ∧
     (∀ dx dy dxd dyd w0,
        acquisition_iteration (with_delete_variables g' dx dy dxd dyd) w0
        = acquisition_iteration g' w0) ∧
     x_train g' = x_train g ++ Pooled_X ∧
     (∀ x, x ∈ Pooled_X → x ∈ x_pool g') ∧
     (∀ x, x ∈ x_pool g → x ∈ x_pool g')) ∧
  (∀ n, ∃ gn wn,
     acquisition_loop n g w = Returned gn wn ∧
     length (x_pool gn) = length (x_pool g) + n * 2000 ∧
     length (y_pool gn) = length (y_pool g) + n * 2000 ∧
     x_pool g `prefix_of` x_pool gn ∧
     y_pool g `prefix_of` y_pool gn).
Proof.
  intros Hok. split.
  - destruct (acquisition_iteration_effect g w Hok)
      as (g' & w' & idx & X & Y & w1 & U_X & w2 & Pooled_X & Hit & Hs & Hlidx & HX & HY &
          HU & HPX & Hxp & Hyp & Hxt & _ & _ & _ & Hdx & Hdy & Hdxd & Hdyd & _ & _).
    pose proof (length_mapM _ _ _ HX) as HlX.
    pose proof (length_mapM _ _ _ HY) as HlY.
    exists g', w', idx, X, Y, w1, U_X, w2, Pooled_X.
    split; [done|]. split; [done|]. split; [done|]. split; [done|]. split; [done|].
    split; [done|]. split; [done|]. split; [done|]. split; [done|].
    split; [rewrite Hxp, length_app, <- HlX, Hlidx; done|].
    split; [rewrite Hyp, length_app, <- HlY, Hlidx; done|].
    split; [done|]. split; [done|]. split; [done|]. split; [done|].
    split; [reflexivity|]. split; [done|]. split.
    + intros x Hx. rewrite Hxp. apply elem_of_app. right.
      by eapply fancy_index_elem.
    + intros x Hx. rewrite Hxp. apply elem_of_app. by left.
  - intros n. destruct (acquisition_loop_pool n g w Hok)
      as (gn & wn & Hloop & _ & Hlx & Hly & Hpx & Hpy & _).
    by exists gn, wn.
Qed.

(** C6. Each of the [acquisition_iterations = 1000] iterations ends by
    building a new model of the architecture of the initial model,
    compiling it and fitting it: the model the iteration leaves is what
    [retrain] returns, and its weights are those that fitting reaches from
    newly initialised weights, not from the weights of the model before. *)
Theorem every_iteration_trains_a_new_model (g : globals) (w : world) (n : nat) :
  pool_ok g →
  n < acquisition_iterations →
  acquisition_iterations = 1000 ∧
  dropout_cnn_in_loop = dropout_cnn ∧
  ∃ gn wn g' w' idx X w1 U_X w2,
    acquisition_loop n g w = Returned gn wn ∧
    acquisition_iteration gn wn = Returned g' w' ∧
    acquisition_loop (S n) g w = Returned g' w' ∧
    random_sample (length (x_pool gn)) pool_subset wn = Returned idx w1 ∧
    fancy_index (x_pool gn) idx = Some X ∧
    acquisition_scores (model gn) X w1 = Returned U_X w2 ∧
    retrain (x_train g') (y_train g') (x_test g) (y_test g) w2
      = Returned (model g', score g') w' ∧
    layers (model g') = dropout_cnn ∧
    compiled (model g') = Some compile_settings ∧
    model_weights (model g') =
      (fit_weights dropout_cnn compile_settings
         (initialize dropout_cnn (random_state w2)).1
         (x_train g') (y_train g') batch_size epochs (x_test g, y_test g)
         (initialize dropout_cnn (random_state w2)).2).1 ∧
    keras_log w' =
      keras_log w2 ++ retrain_calls (environ w2 !! "CUDA_VISIBLE_DEVICES").
Proof.
  intros Hok Hn. split; [reflexivity|]. split; [reflexivity|].
  destruct (acquisition_loop_pool n g w Hok)
    as (gn & wn & Hloop & Hokn & _ & _ & _ & _ & Hxt & Hyt).
  destruct (acquisition_iteration_effect gn wn Hokn)
    as (g' & w' & idx & X & Y & w1 & U_X & w2 & Pooled_X & Hit & Hs & _ & HX & _ &
        HU & _ & _ & _ & _ & _ & _ & _ & _ & _ & _ & _ & Hre & _).
  rewrite Hxt, Hyt in Hre.
  exists gn, wn, g', w', idx, X, w1, U_X, w2.
  split; [done|]. split; [done|]. split.
  { unfold acquisition_loop in *. rewrite for_range_S_end.
    erewrite bind_Returned by exact Hloop. exact Hit. }
  split; [done|]. split; [done|]. split; [done|]. split; [done|].
  pose proof (retrain_Returned (x_train g') (y_train g') (x_test g) (y_test g) w2)
    as Hexp. cbv zeta in Hexp. rewrite Hre in Hexp.
  injection Hexp as Hm _ Hw. rewrite Hm, Hw. done.
Qed.
End loop_theorems.

(** ** The properties on the small instances *)

#[local] Existing Instances Z_numeric counter_randomness toy_keras.

Lemma acquisition_scores_bald_witness :
  ∃ idx X w1,
    random_sample (length (x_pool toy_globals)) pool_subset toy_world = Returned idx w1 ∧
    fancy_index (x_pool toy_globals) idx = Some X ∧
    length X = 2000 ∧
    ∃ P0 P1 P2 U_X w2,
      stochastic_passes 3 (model toy_globals) X w1 = Returned [P0; P1; P2] w2 ∧
      acquisition_scores (model toy_globals) X w1 = Returned U_X w2 ∧
      length U_X = 2000 ∧
      ∀ i, i < 2000 →
        ∃ p0 p1 p2,
          P0 !! i = Some p0 ∧ P1 !! i = Some p1 ∧ P2 !! i = Some p2 ∧
          U_X !! i =
            Some (fsub (entropy2 (average_distribution num_classes [p0; p1; p2]))
                       (average [entropy2 p0; entropy2 p1; entropy2 p2])).
Proof.
  apply (acquisition_scores_bald toy_globals toy_world).
  apply Nat.leb_le. vm_compute. reflexivity.
Defined.

Lemma queries_are_top_scores_witness :
  let x_pool_index := query_indices (H := Z_numeric) toy_scores in
  length x_pool_index = 10 ∧
  NoDup x_pool_index ∧
  Forall (λ i, i < 2000) x_pool_index ∧
  (∀ p q i j u v,
     p < q → x_pool_index !! p = Some i → x_pool_index !! q = Some j →
     toy_scores !! i = Some u → toy_scores !! j = Some v →
     sort_le (Numeric := Z_numeric) v u) ∧
  (∀ i j u v,
     i ∈ x_pool_index → j < 2000 → j ∉ x_pool_index →
     toy_scores !! i = Some u → toy_scores !! j = Some v →
     sort_le (Numeric := Z_numeric) v u) ∧
  ∃ Pooled_X,
    fancy_index toy_subset x_pool_index = Some Pooled_X ∧
    length Pooled_X = 10 ∧
    ∀ p i, x_pool_index !! p = Some i → Pooled_X !! p = toy_subset !! i.
Proof.
  apply (queries_are_top_scores (H := Z_numeric) toy_subset toy_scores).
  - vm_compute. reflexivity.
  - vm_compute. reflexivity.
Defined.

Lemma oracle_labels_unknown_points_witness :
  n_neighbors toy_small_oracle = 3 ∧
  zip (oracle_x toy_small_oracle) (oracle_y toy_small_oracle)
    = filter (λ p, p.2 ≠ 10) (zip toy_x_pool toy_y_pool_withheld) ∧
  ∃ Pooled_Y,
    query_labels toy_small_oracle [101; 103; 100] toy_y_pool_withheld [1; 3; 0]
      = Some Pooled_Y ∧
    length Pooled_Y = length [1; 3; 0] ∧
    ∀ p i x y,
      [1; 3; 0] !! p = Some i →
      toy_x_pool !! i = Some x → toy_y_pool_withheld !! i = Some y →
      (y = 10 →
         Pooled_Y !! p = assign_nearest_available_label toy_small_oracle [x] !! 0 ∧
         Pooled_Y !! p =
           Some (nearest_label (oracle_x toy_small_oracle)
                               (oracle_y toy_small_oracle) 3 x)) ∧
      (y ≠ 10 → Pooled_Y !! p = Some y).
Proof.
  apply (oracle_labels_unknown_points (H1 := toy_keras)
           toy_x_pool toy_y_pool toy_world toy_world_shuffled).
  - vm_compute. reflexivity.
  - reflexivity.
  - eexists. reflexivity.
Defined.

Lemma pool_only_grows_witness :
  (∃ g' w' idx X Y w1 U_X w2 Pooled_X,
     acquisition_iteration toy_globals toy_world = Returned g' w' ∧
     random_sample (length (x_pool toy_globals)) pool_subset toy_world
       = Returned idx w1 ∧
     length idx = 2000 ∧
     fancy_index (x_pool toy_globals) idx = Some X ∧
     fancy_index (y_pool toy_globals) idx = Some Y ∧
     acquisition_scores (model toy_globals) X w1 = Returned U_X w2 ∧
     fancy_index X (query_indices U_X) = Some Pooled_X ∧
     x_pool g' = x_pool toy_globals ++ X ∧
     y_pool g' = y_pool toy_globals ++ Y ∧
     length (x_pool g') = length (x_pool toy_globals) + 2000 ∧
     length (y_pool g') = length (y_pool toy_globals) + 2000 ∧
     delete_Pool_X g' = np_delete (x_pool toy_globals) idx ∧
     delete_Pool_Y g' = np_delete (y_pool toy_globals) idx ∧
     delete_Pool_X_Dropout g' = np_delete X (query_indices U_X) ∧
     delete_Pool_Y_Dropout g' = np_delete Y (query_indices U_X) ∧
     (∀ dx dy dxd dyd w0,
        acquisition_iteration (with_delete_variables g' dx dy dxd dyd) w0
        = acquisition_iteration g' w0) ∧
     x_train g' = x_train toy_globals ++ Pooled_X ∧
     (∀ x, x ∈ Pooled_X → x ∈ x_pool g') ∧
     (∀ x, x ∈ x_pool toy_globals → x ∈ x_pool g')) ∧
  (∀ n, ∃ gn wn,
     acquisition_loop n toy_globals toy_world = Returned gn wn ∧
     length (x_pool gn) = length (x_pool toy_globals) + n * 2000 ∧
     length (y_pool gn) = length (y_pool toy_globals) + n * 2000 ∧
     x_pool toy_globals `prefix_of` x_pool gn ∧
     y_pool toy_globals `prefix_of` y_pool gn).
Proof.
  apply (pool_only_grows toy_globals toy_world).
  split.
  - vm_compute. reflexivity.
  - apply Nat.leb_le. vm_compute. reflexivity.
  - apply (bool_decide_unpack _). vm_compute. exact I.
  - discriminate.
  - apply (bool_decide_unpack _). vm_compute. exact I.
Defined.

Lemma every_iteration_trains_a_new_model_witness :
  acquisition_iterations = 1000 ∧
  dropout_cnn_in_loop = dropout_cnn ∧
  ∃ gn wn g' w' idx X w1 U_X w2,
    acquisition_loop 2 toy_globals toy_world = Returned gn wn ∧
    acquisition_iteration gn wn = Returned g' w' ∧
    acquisition_loop 3 toy_globals toy_world = Returned g' w' ∧
    random_sample (length (x_pool gn)) pool_subset wn = Returned idx w1 ∧
    fancy_index (x_pool gn) idx = Some X ∧
    acquisition_scores (model gn) X w1 = Returned U_X w2 ∧
    retrain (x_train g') (y_train g') (x_test toy_globals) (y_test toy_globals) w2
      = Returned (model g', score g') w' ∧
    layers (model g') = dropout_cnn ∧
    compiled (model g') = Some compile_settings ∧
    model_weights (model g') =
      (fit_weights dropout_cnn compile_settings
         (initialize dropout_cnn (random_state w2)).1
         (x_train g') (y_train g') batch_size epochs
         (x_test toy_globals, y_test toy_globals)
         (initialize dropout_cnn (random_state w2)).2).1 ∧
    keras_log w' =
      keras_log w2 ++ retrain_calls (environ w2 !! "CUDA_VISIBLE_DEVICES").
Proof.
  apply (every_iteration_trains_a_new_model toy_globals toy_world 2).
  - split.
    + vm_compute. reflexivity.
    + apply Nat.leb_le. vm_compute. reflexivity.
    + apply (bool_decide_unpack _). vm_compute. exact I.
    + discriminate.
    + apply (bool_decide_unpack _). vm_compute. exact I.
  - unfold acquisition_iterations. lia.
Defined.

(** ** Module trees *)

Section module_facts.
Context `{Torch}.

Abbreviation Module := (Module tensor scalar).
Abbreviation Param := (nn_Parameter tensor).

(** Induction on a module with the property known of its submodules. *)
Lemma Module_induction (P : Module → Prop) :
  (∀ l t a p c, Forall (λ nc, P nc.2) c → P (mkModule l t a p c)) →
  ∀ m, P m.
Proof.
  intros IH.
  refine (fix rec (m : Module) : P m :=
            match m with
            | mkModule l t a p c =>
                IH l t a p c
                  ((fix below (c : list (string * Module))
                      : Forall (λ nc, P nc.2) c :=
                      match c with
                      | [] => @List.Forall_nil _ _
                      | nc :: c' => @List.Forall_cons _ _ nc c' (rec nc.2) (below c')
                      end) c)
            end).
Qed.

Lemma assoc_get_set_eq {V} (k : string) (v : V) (d : list (string * V)) :
  assoc_get k (assoc_set k v d) = Some v.
Proof.
  induction d as [|[k' v'] d IH]; simpl.
  - by rewrite decide_True.
  - destruct (decide (k = k')) as [->|Hne]; simpl.
    + by rewrite decide_True.
    + by rewrite decide_False.
Qed.

Lemma assoc_get_set_ne {V} (k k' : string) (v : V) (d : list (string * V)) :
  k ≠ k' → assoc_get k' (assoc_set k v d) = assoc_get k' d.
Proof.
  intros Hne. induction d as [|[k1 v1] d IH]; simpl.
  - by rewrite decide_False.
  - destruct (decide (k = k1)) as [->|Hk]; simpl.
    + by rewrite !decide_False.
    + destruct (decide (k' = k1)); [done|]. exact IH.
Qed.

Lemma assoc_set_Forall {V} (Q : string * V → Prop) (k : string) (v : V)
    (d : list (string * V)) :
  Forall Q d → Q (k, v) → Forall Q (assoc_set k v d).
Proof.
  intros Hd Hv. induction Hd as [|[k' v'] d Hx Hd IH]; simpl.
  - by constructor.
  - destruct (decide (k = k')); by constructor.
Qed.

Lemma assoc_get_Forall {V} (Q : string * V → Prop) (k : string) (v : V)
    (d : list (string * V)) :
  Forall Q d → assoc_get k d = Some v → Q (k, v).
Proof.
  intros Hd. induction Hd as [|[k' v'] d Hx Hd IH]; simpl; [done|].
  destruct (decide (k = k')) as [->|]; [|exact IH]. by intros [= ->].
Qed.

Lemma assoc_get_fmap {V} (f : V → V) (k : string) (d : list (string * V)) :
  assoc_get k (map (λ nc, (nc.1, f nc.2)) d) = f <$> assoc_get k d.
Proof.
  induction d as [|[k' v'] d IH]; simpl; [done|].
  destruct (decide (k = k')); [done|]. exact IH.
Qed.

Lemma get_set_module_eq (m child : Module) (name : string) :
  get_module (set_module m name child) name = Some child.
Proof. unfold get_module, set_module. simpl. apply assoc_get_set_eq. Qed.

Lemma get_set_module_ne (m child : Module) (name name' : string) :
  name ≠ name' →
  get_module (set_module m name child) name' = get_module m name'.
Proof. intros. unfold get_module, set_module. simpl. by apply assoc_get_set_ne. Qed.

(** A property of all parameters of a module is one of its own parameters
    and of the parameters of each submodule. *)
Lemma parameters_Forall (P : Param → Prop) (m : Module) :
  Forall P (parameters m) ↔
  Forall (λ np, P np.2) (_parameters m) ∧
  Forall (λ nc, Forall P (parameters nc.2)) (_modules m).
Proof.
  destruct m as [l t a p c]. simpl. rewrite Forall_app, Forall_fmap.
  apply and_iff_compat_l. induction c as [|nc c IH]; simpl.
  - split; constructor.
  - rewrite Forall_app, Forall_cons, IH. done.
Qed.

Lemma set_module_Forall (P : Param → Prop) (m child : Module) (name : string) :
  Forall P (parameters m) → Forall P (parameters child) →
  Forall P (parameters (set_module m name child)).
Proof.
  intros Hm Hchild. apply parameters_Forall in Hm as [Hown Hsub].
  apply parameters_Forall.
  destruct m as [l t a p c]. simpl in *. split; [done|].
  by apply assoc_set_Forall.
Qed.

Lemma get_module_Forall (P : Param → Prop) (m child : Module) (name : string) :
  Forall P (parameters m) → get_module m name = Some child →
  Forall P (parameters child).
Proof.
  rewrite parameters_Forall. intros [_ Hsub] Hget.
  apply (assoc_get_Forall (λ nc, Forall P (parameters nc.2)) name child _ Hsub Hget).
Qed.

Lemma set_attribute_parameters (m : Module) (name : string) (v : attr_value scalar) :
  parameters (set_attribute m name v) = parameters m.
Proof. by destruct m. Qed.

Lemma parameters_train (mode : bool) (m : Module) :
  parameters (train mode m) = parameters m.
Proof.
  induction m as [l t a p c IH] using Module_induction. simpl. f_equal.
  induction IH as [|nc c Hnc _ IHc]; simpl; [done|]. by rewrite Hnc, IHc.
Qed.

Lemma parameters_map_parameters (f : Param → Param) (m : Module) :
  parameters (map_parameters f m) = map f (parameters m).
Proof.
  induction m as [l t a p c IH] using Module_induction. simpl.
  rewrite map_app. f_equal.
  - rewrite !map_map. done.
  - induction IH as [|nc c Hnc _ IHc]; simpl; [done|].
    by rewrite map_app, Hnc, IHc.
Qed.

Lemma modules_train_false (m : Module) :
  Forall (λ m', training m' = false) (modules (train false m)).
Proof.
  induction m as [l t a p c IH] using Module_induction. simpl.
  constructor; [done|].
  induction IH as [|nc c Hnc _ IHc]; simpl; [constructor|].
  apply Forall_app. by split.
Qed.

Lemma modules_map_parameters (f : Param → Param) (m : Module) :
  map training (modules (map_parameters f m)) = map training (modules m).
Proof.
  induction m as [l t a p c IH] using Module_induction. simpl. f_equal.
  induction IH as [|nc c Hnc _ IHc]; simpl; [done|].
  by rewrite !map_app, Hnc, IHc.
Qed.

Lemma get_module_train (mode : bool) (m : Module) (name : string) :
  get_module (train mode m) name = train mode <$> get_module m name.
Proof. destruct m. unfold get_module. simpl. apply assoc_get_fmap. Qed.

Lemma get_module_map_parameters (f : Param → Param) (m : Module) (name : string) :
  get_module (map_parameters f m) name = map_parameters f <$> get_module m name.
Proof. destruct m. unfold get_module. simpl. apply assoc_get_fmap. Qed.
End module_facts.

(** ** Construction of the generative models *)

Section construction.
Context `{Torch}.

Abbreviation Module := (Module tensor scalar).
Abbreviation Param := (nn_Parameter tensor).

Lemma T_bind_Some {A B} (m : T A) (f : A → T B) (g g' : generator) (b : B) :
  (m ≫= f) g = Some (b, g') ↔ ∃ a g1, m g = Some (a, g1) ∧ f a g1 = Some (b, g').
Proof.
  unfold mbind, T_bind. split.
  - destruct (m g) as [[a g1]|]; [eauto|done].
  - intros (a & g1 & -> & Hf). done.
Qed.

Lemma T_try_Some {A} (o : option A) (g g' : generator) (a : A) :
  T_try o g = Some (a, g') ↔ o = Some a ∧ g' = g.
Proof.
  unfold T_try. destruct o; split; try done.
  - by intros [= -> ->].
  - by intros [[= ->] ->].
  - by intros [? _].
Qed.

Lemma T_random_Some {A} (f : generator → A * generator) (g g' : generator) (a : A) :
  T_random f g = Some (a, g') ↔ f g = (a, g').
Proof. unfold T_random. split; [by intros [= ->] | by intros ->]. Qed.

Lemma T_ret_Some {A} (a a' : A) (g g' : generator) :
  mret (M := T) a g = Some (a', g') ↔ a = a' ∧ g = g'.
Proof. unfold mret, T_ret. split; [by intros [= -> ->] | by intros [-> ->]]. Qed.

Lemma Linear_trainable (i o : nat) (g g' : generator) (m : Module) :
  Linear i o g = Some (m, g') → Forall trainable (parameters m).
Proof.
  unfold Linear. intros Hm. apply T_bind_Some in Hm as ([wt b] & g1 & _ & Hm).
  apply T_ret_Some in Hm as [<- _]. simpl. by repeat constructor.
Qed.

Lemma Classifier_trainable (x h y : nat) (g g' : generator) (m : Module) :
  Classifier x h y g = Some (m, g') → Forall trainable (parameters m).
Proof.
  unfold Classifier. intros Hm.
  apply T_bind_Some in Hm as (dense & g1 & Hd & Hm).
  apply T_bind_Some in Hm as (logits & g2 & Hl & Hm).
  apply T_ret_Some in Hm as [<- _]. apply parameters_Forall. simpl.
  split; [constructor|].
  repeat constructor; simpl; by eapply Linear_trainable.
Qed.

Lemma xavier_linear_trainable (p : list (string * Param)) (g : generator) :
  Forall (λ np, trainable np.2) p →
  Forall (λ np, trainable np.2) (xavier_linear p g).1.
Proof.
  intros Hp. unfold xavier_linear.
  destruct (assoc_get "weight" p) as [wt|] eqn:Hw; [|done].
  destruct (xavier_normal (data wt) g) as [t g1]. simpl.
  pose proof (assoc_get_Forall _ _ _ _ Hp Hw) as Hwt. simpl in Hwt.
  assert (Hp1 : Forall (λ np, trainable np.2)
                  (assoc_set "weight" {| data := t; requires_grad := requires_grad wt |} p)).
  { by apply assoc_set_Forall. }
  destruct (assoc_get "bias" _) as [b|] eqn:Hb; [|done].
  pose proof (assoc_get_Forall _ _ _ _ Hp1 Hb) as Hbt. simpl in Hbt.
  by apply assoc_set_Forall.
Qed.

(** The initialisation loop leaves [requires_grad] as it is. *)
Lemma xavier_modules_trainable (m : Module) :
  Forall trainable (parameters m) →
  ∀ g, Forall trainable (parameters (xavier_modules m g).1).
Proof.
  induction m as [l t a p c IH] using Module_induction.
  intros Hm g. apply parameters_Forall in Hm as [Hown Hsub]. simpl in Hown, Hsub.
  simpl.
  assert (Hp : Forall (λ np, trainable np.2)
                 (if l then xavier_linear p g else (p, g)).1).
  { destruct l; [by apply xavier_linear_trainable | done]. }
  destruct (if l then xavier_linear p g else (p, g)) as [p' g1]. simpl in Hp.
  assert (Hc : ∀ g, Forall (λ nc, Forall trainable (parameters nc.2))
                      (visit_modules (λ m' g', xavier_modules m' g') c g).1).
  { clear g1 Hp. induction IH as [|nc c Hnc _ IHc]; intros g0; simpl; [constructor|].
    apply Forall_cons in Hsub as [Hnc' Hsub].
    specialize (Hnc Hnc' g0). destruct (xavier_modules nc.2 g0) as [m' g'].
    specialize (IHc Hsub g').
    destruct (visit_modules (λ m' g', xavier_modules m' g') c g') as [c'' g''].
    simpl in *. by constructor. }
  specialize (Hc g1).
  destruct (visit_modules (λ m' g', xavier_modules m' g') c g1) as [c' g2].
  simpl in Hc. apply (parameters_Forall trainable (mkModule l t a p' c')).
  by split.
Qed.

(** Every parameter of a [DeepGenerativeModel] that was just built requires
    gradient. *)
Lemma DeepGenerativeModel_init_trainable `{!VaeLaws}
    (x_dim y_dim z_dim : nat) (h_dim : list nat) (ratio : scalar)
    (g g' : generator) (self : Module) :
  DeepGenerativeModel_init x_dim y_dim z_dim h_dim ratio g = Some (self, g') →
  Forall trainable (parameters self).
Proof.
  unfold DeepGenerativeModel_init. intros Hinit.
  apply T_bind_Some in Hinit as (self0 & g1 & Hv & Hinit).
  apply T_random_Some in Hv.
  apply T_bind_Some in Hinit as (encoder & g2 & He & Hinit).
  apply T_random_Some in He.
  apply T_bind_Some in Hinit as (decoder & g3 & Hd & Hinit).
  apply T_random_Some in Hd.
  apply T_bind_Some in Hinit as (h0 & g4 & _ & Hinit).
  apply T_bind_Some in Hinit as (classifier & g5 & Hc & Hinit).
  apply T_random_Some in Hinit.
  pose proof (VariationalAutoencoder_trainable x_dim z_dim h_dim g) as T0.
  pose proof (Encoder_trainable (x_dim + y_dim) h_dim z_dim g1) as Te.
  pose proof (Decoder_trainable (z_dim + y_dim) (reverse h_dim) x_dim g2) as Td.
  rewrite Hv in T0. rewrite He in Te. rewrite Hd in Td. simpl in T0, Te, Td.
  apply Classifier_trainable in Hc.
  match type of Hinit with
  | xavier_modules ?m _ = _ =>
      assert (Hm : Forall trainable (parameters m))
  end.
  { repeat apply set_module_Forall; try done.
    by rewrite !set_attribute_parameters. }
  pose proof (xavier_modules_trainable _ Hm g5) as Hx.
  by rewrite Hinit in Hx.
Qed.
End construction.

(** ** Training after construction *)

Section training.
Context `{Torch}.

Abbreviation Module := (Module tensor scalar).
Abbreviation Param := (nn_Parameter tensor).

Lemma training_run_cons (m : Module) (a : training_action) (l : list training_action) :
  training_run m (a :: l) = training_run (training_step m a) l.
Proof. reflexivity. Qed.

Lemma get_module_training_step (m : Module) (a : training_action) (name : string) :
  get_module (training_step m a) name
  = (λ c, training_step c a) <$> get_module m name.
Proof.
  destruct a; simpl; [apply get_module_map_parameters | apply get_module_train].
Qed.

Lemma get_module_training_run (m : Module) (l : list training_action) (name : string) :
  get_module (training_run m l) name
  = (λ c, training_run c l) <$> get_module m name.
Proof.
  revert m. induction l as [|a l IH]; intros m.
  - simpl. by destruct (get_module m name).
  - rewrite training_run_cons, IH, get_module_training_step.
    by destruct (get_module m name).
Qed.

(** A module without a parameter that requires gradient keeps its
    parameters through training. *)
Lemma frozen_training_step (m : Module) (a : training_action) :
  Forall (λ p, requires_grad p = false) (parameters m) →
  parameters (training_step m a) = parameters m.
Proof.
  intros Hm. destruct a as [new_data|mode]; simpl.
  - rewrite parameters_map_parameters.
    induction Hm as [|p ps Hp _ IH]; simpl; [done|].
    simpl in Hp. rewrite IH. f_equal.
    destruct p as [t rg]. simpl in Hp. subst rg. reflexivity.
  - apply parameters_train.
Qed.

Lemma frozen_training_run (m : Module) (l : list training_action) :
  Forall (λ p, requires_grad p = false) (parameters m) →
  parameters (training_run m l) = parameters m.
Proof.
  revert m. induction l as [|a l IH]; intros m Hm; [done|].
  rewrite training_run_cons, IH; [by apply frozen_training_step|].
  by rewrite frozen_training_step.
Qed.

Lemma trainable_training_step (m : Module) (a : training_action) :
  Forall trainable (parameters m) → Forall trainable (parameters (training_step m a)).
Proof.
  intros Hm. destruct a as [new_data|mode]; simpl.
  - rewrite parameters_map_parameters. apply Forall_fmap.
    eapply Forall_impl; [exact Hm|]. intros [t rg] Hp. unfold trainable in *.
    simpl in *. subst rg. reflexivity.
  - by rewrite parameters_train.
Qed.

Lemma trainable_training_run (m : Module) (l : list training_action) :
  Forall trainable (parameters m) → Forall trainable (parameters (training_run m l)).
Proof.
  revert m. induction l as [|a l IH]; intros m Hm; [done|].
  rewrite training_run_cons. by apply IH, trainable_training_step.
Qed.

(** The model that [StackedDeepGenerativeModel.__init__] returns: a
    [DeepGenerativeModel] with another [decoder.reconstruction], and with the
    features model in evaluation mode and without gradients. *)
Lemma StackedDeepGenerativeModel_init_Some
    (x_dim y_dim z_dim : nat) (h_dim : list nat) (ratio : scalar)
    (features : Module) (g g' : generator) (self : Module) :
  StackedDeepGenerativeModel_init x_dim y_dim z_dim h_dim ratio features g
    = Some (self, g') →
  ∃ features_z_dim self0 g0 decoder reconstruction g1,
    DeepGenerativeModel_init features_z_dim y_dim z_dim h_dim ratio g
      = Some (self0, g0) ∧
    get_module self0 "decoder" = Some decoder ∧
    (∃ in_features, Linear in_features x_dim g0 = Some (reconstruction, g1)) ∧
    self =
      set_module
        (set_module
           (set_module
              (set_module self0 "decoder"
                 (set_module decoder "reconstruction" reconstruction))
              "features" features)
           "features" (train false features))
        "features" (map_parameters no_grad (train false features)).
Proof.
  unfold StackedDeepGenerativeModel_init. intros Hinit.
  apply T_bind_Some in Hinit as (fz & g1 & Hfz & Hinit).
  apply T_try_Some in Hfz as [_ ->].
  apply T_bind_Some in Hinit as (self0 & g2 & Hdgm & Hinit).
  apply T_bind_Some in Hinit as (decoder & g3 & Hdec & Hinit).
  apply T_try_Some in Hdec as [Hdec ->].
  apply T_bind_Some in Hinit as (rec0 & g4 & Hrec & Hinit).
  apply T_try_Some in Hrec as [Hrec ->].
  apply T_bind_Some in Hinit as (inf & g5 & Hinf & Hinit).
  apply T_try_Some in Hinf as [Hinf ->].
  apply T_bind_Some in Hinit as (lin & g6 & Hlin & Hinit).
  apply T_bind_Some in Hinit as (f1 & g7 & Hf1 & Hinit).
  apply T_try_Some in Hf1 as [Hf1 ->].
  rewrite get_set_module_eq in Hf1. injection Hf1 as <-.
  apply T_bind_Some in Hinit as (f2 & g8 & Hf2 & Hinit).
  apply T_try_Some in Hf2 as [Hf2 ->].
  rewrite get_set_module_eq in Hf2. injection Hf2 as <-.
  apply T_ret_Some in Hinit as [<- <-].
  exists fz, self0, g2, decoder, lin, g6.
  split; [done|]. split; [done|]. split; [by exists inf|done].
Qed.
End training.

Section stacked_model.
Context `{Torch}.

Abbreviation Module := (Module tensor scalar).
Abbreviation Param := (nn_Parameter tensor).

(** C7. [StackedDeepGenerativeModel.forward(x, y)] returns what
    [DeepGenerativeModel.forward] returns, with the same [y], on the latent
    sample that the encoder of the features model draws for [x]; with
    [y = None] that is the output of the classifier on this sample alone. *)
Theorem stacked_forward_on_latent_sample
    (self features encoder : Module) (x : tensor) (y : option tensor)
    (g : generator) :
  get_module self "features" = Some features →
  get_module features "encoder" = Some encoder →
  let sample := Encoder_forward encoder x g in
  let x_sample := sample.1.1.1 in
  StackedDeepGenerativeModel_forward self x y g
    = DeepGenerativeModel_forward self x_sample y sample.2 ∧
  (∀ classifier logits,
     get_module self "classifier" = Some classifier →
     Classifier_forward classifier x_sample = Some logits →
     StackedDeepGenerativeModel_forward self x None g
       = Some (Logits logits, sample.2)).
Proof.
  intros Hf He sample x_sample.
  assert (Hfwd : ∀ y', StackedDeepGenerativeModel_forward self x y' g
                       = DeepGenerativeModel_forward self x_sample y' sample.2).
  { intros y'. unfold StackedDeepGenerativeModel_forward.
    unfold mbind at 1 2 3, T_bind. rewrite Hf. simpl. rewrite He. simpl.
    subst x_sample sample.
    destruct (Encoder_forward encoder x g) as [[[z z_mu] z_log_var] g1]. done. }
  split; [apply Hfwd|].
  intros classifier logits Hc Hl. rewrite Hfwd.
  unfold DeepGenerativeModel_forward. unfold mbind, T_bind.
  rewrite Hc. simpl. rewrite Hl. done.
Qed.

(** C8. After [StackedDeepGenerativeModel.__init__] has returned, no
    parameter of the features model requires gradient and the features
    model, with every module below it, is in evaluation mode; its parameter
    values are those it came with, and whatever training of the stacked model
    follows leaves them as they are. Every other parameter of the stacked
    model requires gradient, before and after training. *)
Theorem features_frozen_after_init `{!VaeLaws}
    (x_dim y_dim z_dim : nat) (h_dim : list nat) (ratio : scalar)
    (features : Module) (g g' : generator) (self : Module) :
  StackedDeepGenerativeModel_init x_dim y_dim z_dim h_dim ratio features g
    = Some (self, g') →
  ∃ frozen,
    get_module self "features" = Some frozen ∧
    Forall (λ p, requires_grad p = false) (parameters frozen) ∧
    Forall (λ m, training m = false) (modules frozen) ∧
    map data (parameters frozen) = map data (parameters features) ∧
    (∀ actions, ∃ frozen',
       get_module (training_run self actions) "features" = Some frozen' ∧
       parameters frozen' = parameters frozen) ∧
    Forall (λ np, trainable np.2) (_parameters self) ∧
    (∀ actions name child,
       name ≠ "features" →
       get_module (training_run self actions) name = Some child →
       Forall trainable (parameters child)).
Proof.
  intros Hinit.
  apply StackedDeepGenerativeModel_init_Some in Hinit
    as (fz & self0 & g0 & decoder & lin & g1 & Hdgm & Hdec & [inf Hlin] & ->).
  apply DeepGenerativeModel_init_trainable in Hdgm as Hself0.
  set (frozen := map_parameters no_grad (train false features)).
  assert (Hfrozen : Forall (λ p, requires_grad p = false) (parameters frozen)).
  { unfold frozen. rewrite parameters_map_parameters. apply Forall_fmap.
    by apply Forall_true. }
  exists frozen. split; [apply get_set_module_eq|]. split; [done|]. split; [|split].
  - unfold frozen.
    assert (Hm : Forall (λ b, b = false)
                   (map training (modules (map_parameters no_grad (train false features))))).
    { rewrite modules_map_parameters. apply Forall_fmap, modules_train_false. }
    apply Forall_fmap in Hm. exact Hm.
  - unfold frozen. rewrite parameters_map_parameters, parameters_train.
    rewrite map_map. done.
  - split; [|split].
    + intros actions. rewrite get_module_training_run, get_set_module_eq. simpl.
      eexists. split; [done|]. by apply frozen_training_run.
    + apply parameters_Forall in Hself0 as [Hown _]. by destruct self0.
    + intros actions name child Hne Hget.
      rewrite get_module_training_run in Hget.
      rewrite !get_set_module_ne in Hget by done.
      destruct (decide (name = "decoder")) as [->|Hnd].
      * rewrite get_set_module_eq in Hget. simpl in Hget. injection Hget as <-.
        apply trainable_training_run. apply set_module_Forall.
        -- by eapply get_module_Forall.
        -- by eapply Linear_trainable.
      * rewrite get_set_module_ne in Hget by done.
        destruct (get_module self0 name) as [c|] eqn:Hc; [|done].
        simpl in Hget. injection Hget as <-.
        apply trainable_training_run. by eapply get_module_Forall.
Qed.
End stacked_model.

#[local] Existing Instance toy_torch.

Global Instance toy_torch_laws : @VaeLaws toy_torch.
Proof. split; intros; simpl; repeat constructor. Qed.

Lemma stacked_forward_on_latent_sample_witness :
  let sample := Encoder_forward (Torch := toy_torch) toy_frozen_encoder 6%Z 4 in
  let x_sample := sample.1.1.1 in
  StackedDeepGenerativeModel_forward (H := toy_torch) toy_stacked 6%Z (Some 1%Z) 4
    = DeepGenerativeModel_forward toy_stacked x_sample (Some 1%Z) sample.2 ∧
  (∀ classifier logits,
     get_module toy_stacked "classifier" = Some classifier →
     Classifier_forward classifier x_sample = Some logits →
     StackedDeepGenerativeModel_forward toy_stacked 6%Z None 4
       = Some (Logits logits, sample.2)).
Proof.
  apply (stacked_forward_on_latent_sample (H := toy_torch)
           toy_stacked toy_frozen toy_frozen_encoder 6%Z (Some 1%Z) 4).
  - vm_compute. reflexivity.
  - vm_compute. reflexivity.
Defined.

Lemma features_frozen_after_init_witness :
  ∃ frozen,
    get_module (H := toy_torch) toy_stacked "features" = Some frozen ∧
    Forall (λ p, requires_grad p = false) (parameters frozen) ∧
    Forall (λ m, training m = false) (modules frozen) ∧
    map data (parameters frozen) = map data (parameters toy_features) ∧
    (∀ actions, ∃ frozen',
       get_module (training_run toy_stacked actions) "features" = Some frozen' ∧
       parameters frozen' = parameters frozen) ∧
    Forall (λ np, trainable np.2) (_parameters toy_stacked) ∧
    (∀ actions name child,
       name ≠ "features" →
       get_module (training_run toy_stacked actions) name = Some child →
       Forall trainable (parameters child)).
Proof.
  apply (features_frozen_after_init (H := toy_torch)
           4 2 3 [5] 10%Z toy_features 0 toy_generator toy_stacked).
  vm_compute. reflexivity.
Defined.

(** ** The command line and the environment *)

#[local] Set Warnings "-clear-no-such-hyp".

Lemma find_action_parser (s : string) :
  find_action parser s =
    if decide (s ∈ ["-h"; "--help"]) then
      Some {| option_strings := ["-h"; "--help"]; dest := "help";
              action_kind_ := help_action; required := false;
              default_value := None;
              help := "show this help message and exit" |}
    else if decide (s ∈ ["-g"; "--gpu"]) then
      Some {| option_strings := ["-g"; "--gpu"]; dest := "gpu";
              action_kind_ := store_action; required := false;
              default_value := Some "0"; help := "gpu to use" |}
    else None.
Proof.
  unfold find_action, parser, add_argument, ArgumentParser. simpl.
  repeat case_decide; done.
Qed.

Lemma namespace_defaults_parser :
  namespace_defaults parser = {["gpu" := "0"]}.
Proof. reflexivity. Qed.


Section environment.
Context `{Keras}.

Lemma calls_after_refl (w : world) (d : option string) : calls_after w w d.
Proof. exists []. split; [by rewrite app_nil_r | constructor]. Qed.

Lemma calls_after_trans (w1 w2 w3 : world) (d : option string) :
  calls_after w1 w2 d → calls_after w2 w3 d → calls_after w1 w3 d.
Proof.
  intros (l1 & E1 & F1) (l2 & E2 & F2). exists (l1 ++ l2). split.
  - by rewrite E2, E1, app_assoc.
  - by apply Forall_app.
Qed.

Lemma env_stable_ret {A} (a : A) : env_stable (mret a).
Proof. intros w. split; [done | apply calls_after_refl]. Qed.

Lemma env_stable_checked {A} (o : option A) : env_stable (checked o).
Proof. intros w. destruct o; (split; [done | apply calls_after_refl]). Qed.

Lemma env_stable_random {A} (f : rng → A * rng) : env_stable (random f).
Proof.
  intros w. unfold random. destruct (f (random_state w)) as [a r]. simpl.
  split; [done|]. exists []. split; [simpl; by rewrite app_nil_r | constructor].
Qed.

Lemma env_stable_keras (op : keras_op) : env_stable (keras op).
Proof.
  intros w. split; [done|]. eexists. split; [reflexivity|]. by repeat constructor.
Qed.

Lemma env_stable_bind {A B} (m : M A) (f : A → M B) :
  env_stable m → (∀ a, env_stable (f a)) → env_stable (m ≫= f).
Proof.
  intros Hm Hf w. specialize (Hm w). unfold mbind, M_bind.
  destruct (m w) as [a w1|w1|s w1]; simpl in Hm; try exact Hm.
  destruct Hm as [He Hc]. destruct (Hf a w1) as [He' Hc']. split; [congruence|].
  rewrite He in Hc'. by eapply calls_after_trans.
Qed.

Lemma env_stable_for_range {S} (n : nat) (body : S → M S) (s : S) :
  (∀ s, env_stable (body s)) → env_stable (for_range n body s).
Proof.
  intros Hb. revert s. induction n as [|n IH]; intros s; simpl.
  - apply env_stable_ret.
  - apply env_stable_bind; [apply Hb | apply IH].
Qed.

Ltac stable :=
  repeat first
    [ match goal with H : context [env_stable] |- _ => apply H end
    | apply env_stable_ret
    | apply env_stable_checked
    | apply env_stable_random
    | apply env_stable_keras
    | apply env_stable_for_range; intros
    | apply env_stable_bind; [|intros]
    | match goal with
      | |- env_stable (let '(_, _) := ?x in _) => destruct x
      | |- env_stable (if ?b then _ else _) => destruct b
      | |- env_stable (match ?x with _ => _ end) => destruct x
      end
    ].

Lemma env_stable_predict (model : Sequential_) (X : list image) (b : nat) :
  env_stable (predict model X b).
Proof. unfold predict. stable. Qed.

Lemma env_stable_acquisition_scores (model : Sequential_) (X : list image) :
  env_stable (acquisition_scores model X).
Proof.
  pose proof env_stable_predict. unfold acquisition_scores, dropout_pass. stable.
Qed.

Lemma env_stable_retrain (x : list image) (y : list (list num))
    (xt : list image) (yt : list (list num)) :
  env_stable (retrain x y xt yt).
Proof. unfold retrain, Sequential, compile, fit, evaluate. stable. Qed.

Lemma env_stable_acquisition_iteration (g : globals) :
  env_stable (acquisition_iteration g).
Proof.
  pose proof env_stable_acquisition_scores. pose proof env_stable_retrain.
  unfold acquisition_iteration, random_sample. stable.
Qed.

Lemma env_stable_acquisition_loop (n : nat) (g : globals) :
  env_stable (acquisition_loop n g).
Proof.
  pose proof env_stable_acquisition_iteration. unfold acquisition_loop. stable.
Qed.

Lemma env_stable_make_oracle (x_pool : list image) (y_pool : list nat) :
  env_stable (make_oracle x_pool y_pool).
Proof. unfold make_oracle, remove_pool_labels_for_oracle. stable. Qed.

Lemma final_world_bind {A B} (m : M A) (f : A → M B) (w : world) :
  final_world ((m ≫= f) w) =
    match m w with
    | Returned a w' => final_world (f a w')
    | Raised w' => w'
    | Exited _ w' => w'
    end.
Proof. unfold mbind, M_bind. by destruct (m w). Qed.

End environment.

Section command_line.
Context `{Keras}.



End command_line.

(** * Part III: further properties of the code *)

(** ** The splits of the data *)

Section splits.
Context `{Numeric}.

Lemma get_valid_data_split {A B} (x_train : list A) (y_train : list B) :
  let '(x_train', y_train', x_valid, y_valid) := get_valid_data x_train y_train in
  x_train' ++ x_valid = x_train ∧
  y_train' ++ y_valid = y_train ∧
  (length x_train = length y_train →
     length x_train' = length y_train' ∧ length x_valid = length y_valid).
Proof.
  unfold get_valid_data, slice_last.
  destruct (decide (round_tenth (length x_train) = 0)) as [Hv|Hv].
  - repeat split; try done; lia.
  - rewrite !take_drop. repeat split; try done.
    + rewrite !length_take. lia.
    + rewrite !length_drop. lia.
Qed.

(** X1. [get_valid_data] cuts its arrays in two, whatever the rounding gives:
    the training part followed by the validation part is the array that
    came in. When the tenth rounds to zero, [x[-0:]] is the whole array and
    [x[0:-0]] is empty, so everything goes to validation and nothing is left
    for training. *)
Theorem get_valid_data_partition {A B} (x_train : list A) (y_train : list B) :
  let '(x_train', y_train', x_valid, y_valid) := get_valid_data x_train y_train in
  x_train' ++ x_valid = x_train ∧
  y_train' ++ y_valid = y_train ∧
  (length x_train = length y_train →
     length x_train' = length y_train' ∧ length x_valid = length y_valid) ∧
  (round_tenth (length x_train) = 0 → x_train' = [] ∧ x_valid = x_train) ∧
  (0 < round_tenth (length x_train) →
     length x_valid = round_tenth (length x_train) `min` length x_train).
Proof.
  unfold get_valid_data, slice_last.
  set (v := round_tenth (length x_train)).
  destruct (decide (v = 0)) as [Hv|Hv].
  - repeat split; try done; lia.
  - rewrite !take_drop. repeat split; try done.
    + rewrite !length_take. lia.
    + rewrite !length_drop. lia.
    + rewrite length_drop. lia.
Qed.

(** X2. The two splits of the script, one after the other: the rows that
    [get_pool_data] keeps for training, the pool and the validation rows are
    consecutive stretches of the data, in this order, and leave no row out.
    With no more than [initial_train_point] rows before the validation
    rows, the pool is empty. *)
Theorem get_pool_data_after_get_valid_data {A}
    (x_train : list A) (y_train : list nat) (initial_train_point : nat) :
  let '(x_rest, y_rest, x_valid, y_valid) := get_valid_data x_train y_train in
  let '(x_train', y_train', x_pool, y_pool) :=
    get_pool_data x_rest y_rest initial_train_point in
  x_train' ++ x_pool ++ x_valid = x_train ∧
  y_train' ++ y_pool ++ y_valid = y_train ∧
  length x_train' = initial_train_point `min` length x_rest ∧
  length x_pool = length x_rest - initial_train_point ∧
  (length x_train = length y_train →
     length x_train' = length y_train' ∧ length x_pool = length y_pool ∧
     zip x_train' y_train' ++ zip x_pool y_pool ++ zip x_valid y_valid
       = zip x_train y_train) ∧
  (length x_rest ≤ initial_train_point → x_pool = [] ∧ x_train' = x_rest).
Proof.
  pose proof (get_valid_data_split x_train y_train) as Hvalid.
  destruct (get_valid_data x_train y_train) as [[[x_rest y_rest] x_valid] y_valid].
  destruct Hvalid as (Hx & Hy & Hlen).
  unfold get_pool_data. set (n := initial_train_point).
  split; [by rewrite app_assoc, take_drop|].
  split; [by rewrite app_assoc, take_drop|].
  split; [by rewrite length_take|].
  split; [by rewrite length_drop|].
  split.
  - intros Hl. destruct (Hlen Hl) as [Hrest Hval].
    split; [rewrite !length_take; lia|].
    split; [rewrite !length_drop; lia|].
    rewrite <- Hx, <- Hy.
    rewrite (zip_with_app pair x_rest x_valid y_rest y_valid Hrest).
    rewrite app_assoc. f_equal.
    rewrite <- (take_drop n x_rest) at 3. rewrite <- (take_drop n y_rest) at 3.
    rewrite zip_with_app; [done|]. rewrite !length_take. lia.
  - intros Hle. split; [by apply drop_ge|by apply take_ge].
Qed.
End splits.

(** ** The initial training set, whatever the labels *)

Section uniform_any.
Context {A : Type}.

Lemma fancy_index_constant (y : list nat) (idx : list nat) (c : nat) :
  Forall (λ i, y !! i = Some c) idx →
  fancy_index y idx = Some (replicate (length idx) c).
Proof.
  unfold fancy_index. induction 1 as [|i idx Hi _ IH]; [done|].
  simpl. rewrite Hi. simpl. by rewrite IH.
Qed.

(** Rows taken from two arrays at the same positions are rows of the
    arrays side by side. *)
Lemma fancy_index_aligned {B} (x : list A) (y : list B) (idx : list nat)
    (xs : list A) (ys : list B) :
  fancy_index x idx = Some xs → fancy_index y idx = Some ys →
  length xs = length ys ∧ Forall (λ p, p ∈ zip x y) (zip xs ys).
Proof.
  unfold fancy_index. revert xs ys.
  induction idx as [|i idx IH]; intros xs ys Hx Hy.
  - injection Hx as <-. injection Hy as <-. split; [done|constructor].
  - simpl in Hx, Hy.
    destruct (x !! i) as [a|] eqn:Ha; [|done].
    destruct (y !! i) as [b|] eqn:Hb; [|done]. simpl in Hx, Hy.
    destruct (mapM (λ i, x !! i) idx) as [xs'|]; [|done].
    destruct (mapM (λ i, y !! i) idx) as [ys'|]; [|done].
    injection Hx as <-. injection Hy as <-.
    destruct (IH xs' ys' eq_refl eq_refl) as [Hl Hall].
    split; [simpl; by rewrite Hl|]. simpl. constructor; [|done].
    apply list_elem_of_lookup. exists i.
    apply lookup_zip_with_Some. by exists a, b.
Qed.

(** The block for the class [c], whatever [y_train] holds. *)
Lemma class_rows_any (x_train : list A) (y_train : list nat) (c : nat) :
  length y_train ≤ length x_train →
  ∃ x_c,
    class_rows x_train y_train c
      = Some (x_c, replicate (occurrences c y_train `min` 2) c) ∧
    length x_c = occurrences c y_train `min` 2 ∧
    Forall (λ p, p ∈ zip x_train y_train)
           (zip x_c (replicate (occurrences c y_train `min` 2) c)).
Proof.
  intros Hlen. unfold class_rows.
  set (cond := λ y : nat, bool_decide (y = c)).
  set (idx := take 2 (np_where cond y_train)).
  assert (Hidx : Forall (λ i, y_train !! i = Some c) idx).
  { apply Forall_forall. intros i Hi. apply elem_of_take in Hi as (k & Hi & _).
    apply list_elem_of_lookup_2, np_where_elem in Hi as (v & Hv & Hc).
    apply bool_decide_eq_true in Hc. by subst. }
  assert (Hl : length idx = occurrences c y_train `min` 2).
  { unfold idx, np_where. rewrite length_take, where_from_length.
    unfold cond. rewrite occurrences_filter. lia. }
  destruct (mapM_is_Some_2 (λ i, x_train !! i) idx) as [x_c Hx].
  { eapply Forall_impl; [exact Hidx|]. intros i Hi. simpl in Hi.
    apply lookup_lt_is_Some_2. apply lookup_lt_Some in Hi. lia. }
  pose proof (fancy_index_constant y_train idx c Hidx) as Hy.
  destruct (fancy_index_aligned x_train y_train idx _ _ Hx Hy) as [Hlx Hall].
  exists x_c. unfold fancy_index in Hy |- *. rewrite Hx, Hy. simpl.
  rewrite length_replicate in Hlx. rewrite <- Hl.
  split; [done|]. split; [done|]. exact Hall.
Qed.
End uniform_any.

(** What [get_uniform_training_data] returns, whatever the labels. *)
Lemma get_uniform_training_data_rows {A} (x_train : list A) (y_train : list nat) :
  length y_train ≤ length x_train →
  ∃ (x : list A) (y : list nat),
    get_uniform_training_data x_train y_train = Some (x, y) ∧
    y = flat_map (λ c, replicate (occurrences c y_train `min` 2) c) (seq 0 10) ∧
    length x = length y ∧
    length y ≤ 20 ∧
    Forall (λ v, v < 10) y ∧
    Forall (λ p, p ∈ zip x_train y_train) (zip x y).
Proof.
  intros Hlen.
  destruct (class_rows_any x_train y_train 0 Hlen) as (x0 & E0 & L0 & F0).
  destruct (class_rows_any x_train y_train 1 Hlen) as (x1 & E1 & L1 & F1).
  destruct (class_rows_any x_train y_train 2 Hlen) as (x2 & E2 & L2 & F2).
  destruct (class_rows_any x_train y_train 3 Hlen) as (x3 & E3 & L3 & F3).
  destruct (class_rows_any x_train y_train 4 Hlen) as (x4 & E4 & L4 & F4).
  destruct (class_rows_any x_train y_train 5 Hlen) as (x5 & E5 & L5 & F5).
  destruct (class_rows_any x_train y_train 6 Hlen) as (x6 & E6 & L6 & F6).
  destruct (class_rows_any x_train y_train 7 Hlen) as (x7 & E7 & L7 & F7).
  destruct (class_rows_any x_train y_train 8 Hlen) as (x8 & E8 & L8 & F8).
  destruct (class_rows_any x_train y_train 9 Hlen) as (x9 & E9 & L9 & F9).
  eexists _, _. split.
  { unfold get_uniform_training_data.
    rewrite E0, E1, E2, E3, E4, E5, E6, E7, E8, E9. simpl. reflexivity. }
  split; [simpl; by rewrite app_nil_r|].
  split; [rewrite !length_app, !length_replicate; lia|].
  split; [rewrite !length_app, !length_replicate; lia|].
  split.
  { repeat (apply Forall_app; split);
      (apply Forall_forall; intros v Hv; apply elem_of_replicate in Hv as [-> _]; lia). }
  repeat (rewrite zip_with_app by (by rewrite length_replicate)).
  repeat (apply Forall_app; split); done.
Qed.

(** X3. [get_uniform_training_data] needs no more of its input than as many
    rows as labels. It raises nothing; each digit contributes its first two
    examples, or the only one, or none when the digit does not occur, so
    fewer than 20 examples come back when a digit is short; labels other
    than digits are passed over; and every example returned is a row of
    [x_train] with its own label. *)
Theorem get_uniform_training_data_short_classes
    {A} (x_train : list A) (y_train : list nat) :
  length y_train ≤ length x_train →
  ∃ (x : list A) (y : list nat),
    get_uniform_training_data x_train y_train = Some (x, y) ∧
    y = flat_map (λ c, replicate (occurrences c y_train `min` 2) c) (seq 0 10) ∧
    length x = length y ∧
    length y ≤ 20 ∧
    Forall (λ p, p ∈ zip x_train y_train) (zip x y).
Proof.
  intros Hlen.
  destruct (get_uniform_training_data_rows x_train y_train Hlen)
    as (x & y & Hrun & Hy & Hl & Hle & _ & Hrows).
  by exists x, y.
Qed.

Lemma get_uniform_training_data_short_classes_witness :
  ∃ (x : list string) (y : list nat),
    get_uniform_training_data ["a"; "b"; "c"; "d"; "e"; "f"] [3; 0; 3; 12; 3]
      = Some (x, y) ∧
    y = flat_map (λ c, replicate (occurrences c [3; 0; 3; 12; 3] `min` 2) c)
                 (seq 0 10) ∧
    length x = length y ∧
    length y ≤ 20 ∧
    Forall (λ p, p ∈ zip ["a"; "b"; "c"; "d"; "e"; "f"] [3; 0; 3; 12; 3]) (zip x y).
Proof.
  apply (get_uniform_training_data_short_classes
           ["a"; "b"; "c"; "d"; "e"; "f"] [3; 0; 3; 12; 3]).
  simpl. lia.
Defined.

Lemma get_valid_data_partition_witness :
  let '(x_train', y_train', x_valid, y_valid) :=
    get_valid_data (H := Z_numeric) ["a"; "b"; "c"] [4; 5; 6] in
  x_train' ++ x_valid = ["a"; "b"; "c"] ∧
  y_train' ++ y_valid = [4; 5; 6] ∧
  (length ["a"; "b"; "c"] = length [4; 5; 6] →
     length x_train' = length y_train' ∧ length x_valid = length y_valid) ∧
  (round_tenth (Numeric := Z_numeric) (length ["a"; "b"; "c"]) = 0 →
     x_train' = [] ∧ x_valid = ["a"; "b"; "c"]) ∧
  (0 < round_tenth (Numeric := Z_numeric) (length ["a"; "b"; "c"]) →
     length x_valid
     = round_tenth (Numeric := Z_numeric) (length ["a"; "b"; "c"])
         `min` length ["a"; "b"; "c"]).
Proof.
  exact (get_valid_data_partition (H := Z_numeric) ["a"; "b"; "c"] [4; 5; 6]).
Defined.

(** ** [split_data_into_binary] *)

Section index_facts.
Context {A : Type}.







End index_facts.



Section binary_split_facts.
Context `{Keras} `{!RandomnessLaws}.



End binary_split_facts.

Section binary_split_theorem.
Context `{Keras} `{!RandomnessLaws}.



End binary_split_theorem.


(** ** The top-level [assign_nearest_available_label] *)

Section random_label.
Context `{RandInt} `{!RandIntLaws}.

(** X5. The top-level [assign_nearest_available_label] draws one digit, from 0
    to 9, and writes this one digit at every position of [index]; the other
    labels stay as they are. *)
Theorem assign_nearest_available_label_one_random_digit
    (Pooled_Y index : list nat) (w : world) :
  Forall (λ i, i < length Pooled_Y) index →
  ∃ label Pooled_Y' w',
    script.assign_nearest_available_label Pooled_Y index w
      = Returned Pooled_Y' w' ∧
    label = (randint 0 9 (random_state w)).1 ∧
    label ≤ 9 ∧
    length Pooled_Y' = length Pooled_Y ∧
    (∀ i, i ∈ index → Pooled_Y' !! i = Some label) ∧
    (∀ i, i ∉ index → Pooled_Y' !! i = Pooled_Y !! i).
Proof.
  intros Hb. unfold script.assign_nearest_available_label.
  pose proof (randint_range 0 9 (random_state w)) as Hr.
  unfold mbind, M_bind, random.
  destruct (randint 0 9 (random_state w)) as [label r]. simpl in *.
  unfold checked, put_scalar. rewrite decide_True by done.
  eexists label, _, _. split; [reflexivity|].
  split; [done|]. split; [lia|].
  split; [apply foldl_insert_length|]. split.
  - intros i Hi. apply foldl_insert_lookup_in; [done|].
    rewrite Forall_forall in Hb. by apply Hb.
  - intros i Hi. by apply foldl_insert_lookup_out.
Qed.
End random_label.

Global Instance toy_randint_laws : @RandIntLaws counter_randomness toy_randint.
Proof.
  split. intros a b r Hab. simpl.
  pose proof (Nat.mod_upper_bound r (S b - a)). lia.
Qed.

Lemma assign_nearest_available_label_one_random_digit_witness :
  ∃ label Pooled_Y' w',
    @script.assign_nearest_available_label counter_randomness toy_randint
        [10; 3; 10; 7] [0; 2] toy_world
      = Returned Pooled_Y' w' ∧
    label = (@randint counter_randomness toy_randint 0 9 (random_state toy_world)).1 ∧
    label ≤ 9 ∧
    length Pooled_Y' = length [10; 3; 10; 7] ∧
    (∀ i, i ∈ [0; 2] → Pooled_Y' !! i = Some label) ∧
    (∀ i, i ∉ [0; 2] → Pooled_Y' !! i = [10; 3; 10; 7] !! i).
Proof.
  apply (@assign_nearest_available_label_one_random_digit
           counter_randomness toy_randint toy_randint_laws).
  repeat constructor.
Defined.

(** ** The loop: what it adds and what it leaves alone *)

Section loop_details.
Context `{Keras} `{!NumericLaws} `{!RandomnessLaws} `{!KerasLaws}.

Lemma random_sample_world (n k : nat) (w w1 : world) (idx : list nat) :
  random_sample n k w = Returned idx w1 →
  environ w1 = environ w ∧ keras_log w1 = keras_log w.
Proof.
  unfold random_sample, random, checked. destruct (decide (k ≤ n)); [|done].
  destruct (sample_range n k (random_state w)) as [i r]. by intros [= <- <-].
Qed.

Lemma predict_world (model : Sequential_) (X : list image) (b : nat) (w : world) :
  ∃ P r,
    predict model X b w =
      Returned P {| environ := environ w; random_state := r;
                    keras_log := keras_log w ++
                      [{| call_op := op_predict;
                          call_devices := environ w !! "CUDA_VISIBLE_DEVICES" |}] |}.
Proof.
  unfold predict, keras, random. unfold mbind, M_bind. simpl.
  destruct (predict_scores (layers model) (model_weights model) X b (random_state w))
    as [P r]. by exists P, r.
Qed.

Lemma dropout_passes_world (model : Sequential_) (X : list image)
    (n : nat) (acc : list (list num) * list num) (w w' : world)
    (res : list (list num) * list num) :
  for_range n (dropout_pass model X) acc w = Returned res w' →
  environ w' = environ w ∧
  keras_log w' = keras_log w ++
    replicate n {| call_op := op_predict;
                   call_devices := environ w !! "CUDA_VISIBLE_DEVICES" |}.
Proof.
  revert acc w. induction n as [|n IH]; intros [sa ae] w Hrun; simpl in Hrun.
  - apply ret_Returned_inv in Hrun as [_ <-]. by rewrite app_nil_r.
  - apply bind_Returned_inv in Hrun as (acc1 & w1 & Hpass & Hrun).
    unfold dropout_pass in Hpass.
    apply bind_Returned_inv in Hpass as (P & w0 & HP & Hret).
    apply ret_Returned_inv in Hret as [_ ->].
    destruct (predict_world model X batch_size w) as (P' & r & HP').
    rewrite HP' in HP. injection HP as _ <-.
    destruct (IH _ _ Hrun) as [He Hl]. simpl in He, Hl.
    split; [done|]. rewrite Hl. by rewrite <- app_assoc.
Qed.

Lemma acquisition_scores_world (model : Sequential_) (X : list image)
    (w w' : world) (U_X : list num) :
  acquisition_scores model X w = Returned U_X w' →
  environ w' = environ w ∧
  keras_log w' = keras_log w ++
    replicate dropout_iterations
      {| call_op := op_predict;
         call_devices := environ w !! "CUDA_VISIBLE_DEVICES" |}.
Proof.
  unfold acquisition_scores. intros Hrun.
  apply bind_Returned_inv in Hrun as ([sa ae] & w1 & Hloop & Hret).
  apply ret_Returned_inv in Hret as [_ ->].
  by eapply dropout_passes_world.
Qed.

Lemma to_categorical_rows (y : list nat) (n : nat) (rows : list (list num)) :
  to_categorical y n = Some rows →
  length rows = length y ∧ Forall (λ row, length row = n) rows.
Proof.
  unfold to_categorical. destruct (decide _); [|done]. intros [= <-].
  split; [by rewrite length_map|]. apply Forall_forall. intros row Hrow.
  apply list_elem_of_fmap in Hrow as (c & -> & _).
  by rewrite length_map, length_seq.
Qed.

Lemma query_indices_length (U_X : list num) :
  length (query_indices U_X) = Queries `min` length U_X.
Proof.
  rewrite query_indices_eq, length_reverse, length_drop, argsort_length. lia.
Qed.

(** Everything one iteration does to the variables of the script and to
    the world. *)
Lemma acquisition_iteration_details (g : globals) (w : world) :
  pool_ok g →
  ∃ g' w' X Y Pooled_X Pooled_Y,
    acquisition_iteration g w = Returned g' w' ∧
    pool_ok g' ∧
    x_pool g' = x_pool g ++ X ∧ y_pool g' = y_pool g ++ Y ∧
    length X = length Y ∧
    Forall (λ p, p ∈ zip (x_pool g) (y_pool g)) (zip X Y) ∧
    x_train g' = x_train g ++ Pooled_X ∧ y_train g' = y_train g ++ Pooled_Y ∧
    length Pooled_X = Queries ∧ length Pooled_Y = Queries ∧
    Forall (λ row, length row = num_classes) Pooled_Y ∧
    Forall (λ x, x ∈ x_pool g) Pooled_X ∧
    oracle g' = oracle g ∧ x_test g' = x_test g ∧ y_test g' = y_test g ∧
    environ w' = environ w ∧
    keras_log w' = keras_log w ++
      iteration_calls (environ w !! "CUDA_VISIBLE_DEVICES").
Proof.
  intros Hok.
  destruct (acquisition_iteration_steps g w Hok)
    as (idx & X & Y & w1 & U_X & w2 & Pooled_X & Pooled_Y & Yc &
        Hs & Hlidx & HX & HY & HU & HPX & Hq & HYc & Hit).
  pose proof (retrain_Returned (x_train g ++ Pooled_X) (y_train g ++ Yc)
                (x_test g) (y_test g) w2) as Hre. cbv zeta in Hre.
  specialize (Hit _ _ _ Hre).
  destruct (acquisition_iteration_effect g w Hok)
    as (g1 & w1' & _ & _ & _ & _ & _ & _ & _ & Hit' & _ & _ & _ & _ & _ & _ & _ & _ &
        _ & _ & _ & _ & _ & _ & _ & _ & _ & Hok').
  rewrite Hit in Hit'. injection Hit' as <- <-.
  pose proof (length_mapM _ _ _ HX) as HlX.
  pose proof (length_mapM _ _ _ HY) as HlY.
  pose proof (length_mapM _ _ _ HPX) as HlPX.
  destruct (fancy_index_aligned _ _ _ _ _ HX HY) as [_ Hal].
  destruct (acquisition_scores_passes (model g) X w1)
    as (_ & _ & _ & U_X' & w2' & _ & HU' & HlU & _).
  rewrite HU in HU'. injection HU' as <- <-.
  destruct (to_categorical_rows _ _ _ HYc) as [HlYc Hrows].
  assert (HlPY : length Pooled_Y = length (query_indices U_X)).
  { unfold query_labels in Hq.
    destruct (fancy_index Y (query_indices U_X)) as [Pooled_Y0|] eqn:HPY0; [|done].
    pose proof (length_mapM _ _ _ HPY0) as HlPY0.
    destruct (query_labels_lookup (oracle g) Pooled_X Y (query_indices U_X)
                Pooled_Y0 HPY0) as (Pooled_Y' & Hq' & Hl' & _); [congruence|].
    unfold query_labels in Hq'. rewrite HPY0 in Hq'. simpl in Hq, Hq'.
    rewrite Hq in Hq'. injection Hq' as <-. congruence. }
  assert (Hten : length (query_indices U_X) = Queries).
  { rewrite query_indices_length. unfold Queries, pool_subset in *. lia. }
  destruct (random_sample_world _ _ _ _ _ Hs) as [He1 Hl1].
  destruct (acquisition_scores_world _ _ _ _ _ HU) as [He2 Hl2].
  eexists _, _, X, Y, Pooled_X, Yc. split; [exact Hit|]. simpl.
  split; [exact Hok'|].
  split; [done|]. split; [done|]. split; [lia|]. split; [done|].
  split; [done|]. split; [done|]. split; [lia|]. split; [lia|].
  split; [done|].
  split; [apply Forall_forall; intros x Hx; eapply fancy_index_elem; [exact HX|];
          by eapply fancy_index_elem|].
  split; [done|]. split; [done|]. split; [done|].
  split; [congruence|].
  rewrite Hl2, Hl1, He2, He1. unfold iteration_calls. by rewrite <- app_assoc.
Qed.

(** After [n] iterations. *)
Lemma acquisition_loop_details (n : nat) (g : globals) (w : world) :
  pool_ok g →
  ∃ gn wn,
    acquisition_loop n g w = Returned gn wn ∧
    pool_ok gn ∧
    (∀ p, p ∈ zip (x_pool gn) (y_pool gn) ↔ p ∈ zip (x_pool g) (y_pool g)) ∧
    length (x_train gn) = length (x_train g) + n * Queries ∧
    length (y_train gn) = length (y_train g) + n * Queries ∧
    x_train g `prefix_of` x_train gn ∧
    y_train g `prefix_of` y_train gn ∧
    (∀ x, x ∈ x_train gn → x ∈ x_train g ∨ x ∈ x_pool g) ∧
    (Forall (λ row, length row = num_classes) (y_train g) →
     Forall (λ row, length row = num_classes) (y_train gn)) ∧
    oracle gn = oracle g ∧ x_test gn = x_test g ∧ y_test gn = y_test g ∧
    environ wn = environ w ∧
    keras_log wn = keras_log w ++
      concat (replicate n (iteration_calls (environ w !! "CUDA_VISIBLE_DEVICES"))).
Proof.
  revert g w. induction n as [|n IH]; intros g w Hok.
  - exists g, w. split; [done|]. split; [done|]. split; [done|].
    split; [simpl; lia|]. split; [simpl; lia|]. split; [done|]. split; [done|].
    split; [by left|]. split; [done|]. repeat (split; [done|]).
    simpl. by rewrite app_nil_r.
  - destruct (acquisition_iteration_details g w Hok)
      as (g1 & w1 & X & Y & PX & PY & Hit & Hok1 & Hxp & Hyp & HlXY & Hal &
          Hxt & Hyt & HlPX & HlPY & Hrows & Hfrom & Ho & Hxte & Hyte & He & Hl).
    destruct (IH g1 w1 Hok1)
      as (gn & wn & Hloop & Hokn & Hpairs & Hlx & Hly & Hpx & Hpy & Hsrc & Hw &
          Hon & Hxtn & Hytn & Hen & Hln).
    exists gn, wn. split.
    { unfold acquisition_loop in *. simpl.
      erewrite bind_Returned by exact Hit. exact Hloop. }
    split; [done|]. split.
    { intros p. rewrite Hpairs, Hxp, Hyp.
      rewrite zip_with_app by apply Hok. rewrite elem_of_app. split.
      - intros [Hp|Hp]; [done|].
        rewrite Forall_forall in Hal. by apply Hal.
      - by left. }
    rewrite Hlx, Hly, Hxt, Hyt, !length_app, HlPX, HlPY.
    split; [lia|]. split; [lia|].
    split; [etrans; [|exact Hpx]; rewrite Hxt; by apply prefix_app_r|].
    split; [etrans; [|exact Hpy]; rewrite Hyt; by apply prefix_app_r|].
    split.
    { intros x Hx. destruct (Hsrc x Hx) as [Hx1|Hx1].
      - rewrite Hxt in Hx1. apply elem_of_app in Hx1 as [Hx1|Hx1]; [by left|].
        right. rewrite Forall_forall in Hfrom. by apply Hfrom.
      - right. rewrite Hxp in Hx1. apply elem_of_app in Hx1 as [Hx1|Hx1]; [done|].
        apply list_elem_of_lookup in Hx1 as [k Hk].
        destruct (lookup_lt_is_Some_2 Y k) as [y Hy];
          [rewrite <- HlXY; by eapply lookup_lt_Some|].
        assert (Hin : (x, y) ∈ zip X Y).
        { apply list_elem_of_lookup. exists k.
          apply lookup_zip_with_Some. by exists x, y. }
        rewrite Forall_forall in Hal. apply Hal in Hin.
        apply list_elem_of_lookup in Hin as [j Hj].
        apply lookup_zip_with_Some in Hj as (x' & y' & [= <- <-] & Hj & _).
        by eapply list_elem_of_lookup_2. }
    split.
    { intros Hg. apply Hw. rewrite Hyt. apply Forall_app. by split. }
    split; [congruence|]. split; [congruence|]. split; [congruence|].
    split; [congruence|].
    rewrite Hln, Hl, He. simpl. by rewrite <- app_assoc.
Qed.
End loop_details.

Section few_scores.
Context `{Numeric} `{!NumericLaws}.

(** X6. [query_indices] on any number of scores: it selects ten indices when
    there are ten scores or more and all the indices when there are fewer,
    each index once, in descending order of score. *)
Theorem query_indices_takes_what_there_is (U_X : list num) :
  let x_pool_index := query_indices U_X in
  length x_pool_index = 10 `min` length U_X ∧
  NoDup x_pool_index ∧
  Forall (λ i, i < length U_X) x_pool_index ∧
  (length U_X ≤ 10 → x_pool_index = reverse (argsort U_X)) ∧
  (∀ p q i j u v,
     p < q → x_pool_index !! p = Some i → x_pool_index !! q = Some j →
     U_X !! i = Some u → U_X !! j = Some v → sort_le v u).
Proof.
  intros sel. unfold sel.
  split; [rewrite query_indices_eq, length_reverse, length_drop, argsort_length;
          unfold Queries; lia|].
  split.
  { rewrite query_indices_eq, reverse_Permutation.
    eapply sublist_NoDup; [apply argsort_NoDup | apply sublist_drop]. }
  split.
  { apply Forall_forall. intros i Hi. rewrite query_indices_eq in Hi.
    rewrite elem_of_reverse in Hi. apply argsort_elem.
    eapply elem_of_sublist; [exact Hi | apply sublist_drop]. }
  split.
  { intros Hfew. rewrite query_indices_eq.
    replace (length U_X - Queries) with 0 by (unfold Queries; lia).
    by rewrite drop_0. }
  intros p q i j u v Hpq Hp Hq Hu Hv.
  apply query_indices_lookup in Hp as [Hp Hi].
  apply query_indices_lookup in Hq as [Hq Hj].
  eapply (argsort_sorted U_X (length U_X - S q) (length U_X - S p) j i);
    [lia|done..].
Qed.
End few_scores.

Section loop_extras.
Context `{Keras} `{!NumericLaws} `{!RandomnessLaws} `{!KerasLaws}.

(** X8. With fewer than [pool_subset = 2000] points in the pool, an iteration
    raises at [random.sample], before anything is predicted or drawn: the
    world is as it was. So does the loop. *)
Theorem acquisition_needs_a_pool_of_2000 (g : globals) (w : world) :
  length (x_pool g) < pool_subset →
  acquisition_iteration g w = Raised w ∧
  ∀ n, acquisition_loop (S n) g w = Raised w.
Proof.
  intros Hsmall.
  assert (Hit : acquisition_iteration g w = Raised w).
  { unfold acquisition_iteration, random_sample.
    rewrite decide_False by lia. reflexivity. }
  split; [done|]. intros n. unfold acquisition_loop. simpl.
  unfold mbind, M_bind. by rewrite Hit.
Qed.

(** X7. Every iteration adds the ten queried points, with one row of ten
    label scores each, to the end of the training set: after [n] iterations
    it has grown by [10 * n] examples, all of them points of the pool, and
    what was in it is still there, in front. *)
Theorem training_set_grows_by_ten (g : globals) (w : world) (n : nat) :
  pool_ok g →
  ∃ gn wn,
    acquisition_loop n g w = Returned gn wn ∧
    length (x_train gn) = length (x_train g) + 10 * n ∧
    length (y_train gn) = length (y_train g) + 10 * n ∧
    x_train g `prefix_of` x_train gn ∧
    y_train g `prefix_of` y_train gn ∧
    (∀ x, x ∈ x_train gn → x ∈ x_train g ∨ x ∈ x_pool g) ∧
    (Forall (λ row, length row = 10) (y_train g) →
     Forall (λ row, length row = 10) (y_train gn)).
Proof.
  intros Hok.
  destruct (acquisition_loop_details n g w Hok)
    as (gn & wn & Hloop & _ & _ & Hlx & Hly & Hpx & Hpy & Hsrc & Hrows & _).
  exists gn, wn. unfold Queries in *. repeat (split; [done || lia|]). exact Hrows.
Qed.

(** X9. The pool only ever receives copies of its own examples: after any
    number of iterations, the points of the pool and the labels they carry
    are those of the pool at the start. In particular no label that the
    oracle assigned is written to the pool, and a withheld label stays
    withheld. The oracle and the test set are not assigned either. *)
Theorem pool_never_gets_new_labels (g : globals) (w : world) (n : nat) :
  pool_ok g →
  ∃ gn wn,
    acquisition_loop n g w = Returned gn wn ∧
    (∀ x y, (x, y) ∈ zip (x_pool gn) (y_pool gn)
            ↔ (x, y) ∈ zip (x_pool g) (y_pool g)) ∧
    (∀ y, y ∈ y_pool gn ↔ y ∈ y_pool g) ∧
    oracle gn = oracle g ∧
    x_test gn = x_test g ∧ y_test gn = y_test g.
Proof.
  intros Hok.
  destruct (acquisition_loop_details n g w Hok)
    as (gn & wn & Hloop & Hokn & Hpairs & _ & _ & _ & _ & _ & _ & Ho & Hxt & Hyt & _).
  exists gn, wn. split; [done|]. split; [intros x y; apply Hpairs|].
  split; [|done].
  intros y. rewrite <- (snd_zip (x_pool gn) (y_pool gn)),
    <- (snd_zip (x_pool g) (y_pool g)).
  - rewrite !list_elem_of_fmap. split; intros ([x y'] & -> & Hin); exists (x, y');
      (split; [done|]); by apply Hpairs.
  - by rewrite (pool_lengths g Hok).
  - by rewrite (pool_lengths gn Hokn).
Qed.

(** X10. The framework calls of the loop, in order: every iteration predicts
    three times with the model it found, then builds, compiles, fits and
    evaluates one model; seven calls an iteration and no other, all with
    the environment as the loop found it. *)
Theorem framework_calls_of_the_loop (g : globals) (w : world) (n : nat) :
  pool_ok g →
  ∃ gn wn,
    acquisition_loop n g w = Returned gn wn ∧
    environ wn = environ w ∧
    keras_log wn = keras_log w ++
      concat (replicate n (iteration_calls (environ w !! "CUDA_VISIBLE_DEVICES"))) ∧
    map call_op (iteration_calls (environ w !! "CUDA_VISIBLE_DEVICES"))
      = [op_predict; op_predict; op_predict;
         op_Sequential; op_compile; op_fit; op_evaluate] ∧
    length (keras_log wn) = length (keras_log w) + 7 * n.
Proof.
  intros Hok.
  destruct (acquisition_loop_details n g w Hok)
    as (gn & wn & Hloop & _ & _ & _ & _ & _ & _ & _ & _ & _ & _ & _ & He & Hl).
  exists gn, wn. split; [done|]. split; [done|]. split; [done|]. split; [done|].
  rewrite Hl, length_app. f_equal.
  generalize (environ w !! "CUDA_VISIBLE_DEVICES"). intros d. clear.
  induction n as [|n IH]; [done|].
  cbn [replicate concat]. rewrite length_app, IH. simpl. lia.
Qed.
End loop_extras.

#[local] Existing Instances Z_numeric counter_randomness toy_keras.

Lemma query_indices_takes_what_there_is_witness :
  let x_pool_index := query_indices (H := Z_numeric) [5; 9; 2]%Z in
  length x_pool_index = 10 `min` length [5; 9; 2]%Z ∧
  NoDup x_pool_index ∧
  Forall (λ i, i < length [5; 9; 2]%Z) x_pool_index ∧
  (length [5; 9; 2]%Z ≤ 10 →
     x_pool_index = reverse (argsort (Numeric := Z_numeric) [5; 9; 2]%Z)) ∧
  (∀ p q i j u v,
     p < q → x_pool_index !! p = Some i → x_pool_index !! q = Some j →
     [5; 9; 2]%Z !! i = Some u → [5; 9; 2]%Z !! j = Some v →
     sort_le (Numeric := Z_numeric) v u).
Proof.
  exact (query_indices_takes_what_there_is (H := Z_numeric) [5; 9; 2]%Z).
Defined.

Lemma toy_globals_ok : pool_ok toy_globals.
Proof.
  split.
  - vm_compute. reflexivity.
  - apply Nat.leb_le. vm_compute. reflexivity.
  - apply (bool_decide_unpack _). vm_compute. exact I.
  - discriminate.
  - apply (bool_decide_unpack _). vm_compute. exact I.
Defined.

Lemma acquisition_needs_a_pool_of_2000_witness :
  acquisition_iteration toy_small_globals toy_world = Raised toy_world ∧
  ∀ n, acquisition_loop (S n) toy_small_globals toy_world = Raised toy_world.
Proof.
  apply (acquisition_needs_a_pool_of_2000 toy_small_globals toy_world).
  apply Nat.ltb_lt. vm_compute. reflexivity.
Defined.

Lemma training_set_grows_by_ten_witness :
  ∃ gn wn,
    acquisition_loop 2 toy_globals toy_world = Returned gn wn ∧
    length (x_train gn) = length (x_train toy_globals) + 10 * 2 ∧
    length (y_train gn) = length (y_train toy_globals) + 10 * 2 ∧
    x_train toy_globals `prefix_of` x_train gn ∧
    y_train toy_globals `prefix_of` y_train gn ∧
    (∀ x, x ∈ x_train gn → x ∈ x_train toy_globals ∨ x ∈ x_pool toy_globals) ∧
    (Forall (λ row, length row = 10) (y_train toy_globals) →
     Forall (λ row, length row = 10) (y_train gn)).
Proof.
  apply (training_set_grows_by_ten toy_globals toy_world 2).
  exact toy_globals_ok.
Defined.

Lemma pool_never_gets_new_labels_witness :
  ∃ gn wn,
    acquisition_loop 2 toy_globals toy_world = Returned gn wn ∧
    (∀ x y, (x, y) ∈ zip (x_pool gn) (y_pool gn)
            ↔ (x, y) ∈ zip (x_pool toy_globals) (y_pool toy_globals)) ∧
    (∀ y, y ∈ y_pool gn ↔ y ∈ y_pool toy_globals) ∧
    oracle gn = oracle toy_globals ∧
    x_test gn = x_test toy_globals ∧ y_test gn = y_test toy_globals.
Proof.
  apply (pool_never_gets_new_labels toy_globals toy_world 2).
  exact toy_globals_ok.
Defined.

Lemma framework_calls_of_the_loop_witness :
  ∃ gn wn,
    acquisition_loop 2 toy_globals toy_world = Returned gn wn ∧
    environ wn = environ toy_world ∧
    keras_log wn = keras_log toy_world ++
      concat (replicate 2
                (iteration_calls (environ toy_world !! "CUDA_VISIBLE_DEVICES"))) ∧
    map call_op (iteration_calls (environ toy_world !! "CUDA_VISIBLE_DEVICES"))
      = [op_predict; op_predict; op_predict;
         op_Sequential; op_compile; op_fit; op_evaluate] ∧
    length (keras_log wn) = length (keras_log toy_world) + 7 * 2.
Proof.
  apply (framework_calls_of_the_loop toy_globals toy_world 2).
  exact toy_globals_ok.
Defined.

(** ** From the data to the first model *)

Section prepared.
Context `{Keras} `{!RandomnessLaws}.




End prepared.


(** ** The environment *)

Section environment_variables.
Context `{Keras}.

Ltac env_steps :=
  repeat first
    [ match goal with H : context [env_stable] |- _ => apply H end
    | apply env_stable_ret
    | apply env_stable_checked
    | apply env_stable_random
    | apply env_stable_keras
    | apply env_stable_for_range; intros
    | apply env_stable_bind; [|intros]
    | match goal with
      | |- env_stable (let '(_, _) := ?x in _) => destruct x
      | |- env_stable (if ?b then _ else _) => destruct b
      | |- env_stable (match ?x with _ => _ end) => destruct x
      end
    ].

Lemma prepare_environ (args : gmap string string)
    (mnist : (list image * list nat) * (list image * list nat))
    (w : world) (gpu : string) :
  args !! "gpu" = Some gpu →
  environ (final_world (prepare args mnist w))
  = <["CUDA_VISIBLE_DEVICES" := gpu]>
      (<["CUDA_DEVICE_ORDER" := "PCI_BUS_ID"]> (environ w)).
Proof.
  intros Hgpu. unfold prepare.
  rewrite final_world_bind. unfold os_environ_set at 1.
  rewrite final_world_bind. unfold checked at 1. rewrite Hgpu.
  rewrite final_world_bind. unfold os_environ_set at 1.
  match goal with
  | |- context [final_world (?m ?w2)] =>
      assert (Hm : env_stable m); [|destruct (Hm w2) as [He _]]
  end.
  { pose proof env_stable_make_oracle. unfold Sequential, compile, fit, evaluate.
    destruct mnist as [[? ?] [? ?]]. env_steps. }
  exact He.
Qed.

(** X12. A run writes [CUDA_DEVICE_ORDER] and [CUDA_VISIBLE_DEVICES] and leaves
    every other environment variable as it found it, however the run ends
    (with the loop finished or with an exception on the way); a command
    line that is turned down, or that asks for help, leaves the environment
    untouched. *)
Theorem run_writes_two_environment_variables
    (args : gmap string string) (gpu : string)
    (mnist : (list image * list nat) * (list image * list nat)) (w : world) :
  args !! "gpu" = Some gpu →
  environ (final_world (run (Namespace args) mnist w))
    = <["CUDA_VISIBLE_DEVICES" := gpu]>
        (<["CUDA_DEVICE_ORDER" := "PCI_BUS_ID"]> (environ w)) ∧
  (∀ k, k ≠ "CUDA_VISIBLE_DEVICES" → k ≠ "CUDA_DEVICE_ORDER" →
        environ (final_world (run (Namespace args) mnist w)) !! k = environ w !! k) ∧
  environ (final_world (run HelpExit mnist w)) = environ w ∧
  environ (final_world (run UsageError mnist w)) = environ w.
Proof.
  intros Hgpu.
  assert (Henv : environ (final_world (run (Namespace args) mnist w))
                 = <["CUDA_VISIBLE_DEVICES" := gpu]>
                     (<["CUDA_DEVICE_ORDER" := "PCI_BUS_ID"]> (environ w))).
  { pose proof (prepare_environ args mnist w gpu Hgpu) as Hp.
    unfold run. rewrite final_world_bind.
    destruct (prepare args mnist w) as [g w1|w1|st w1]; simpl in Hp; [|done..].
    destruct (env_stable_acquisition_loop acquisition_iterations g w1) as [He _].
    by rewrite He. }
  split; [exact Henv|]. split; [|done].
  intros k Hk1 Hk2. rewrite Henv. by rewrite !lookup_insert_ne.
Qed.
End environment_variables.

Lemma run_writes_two_environment_variables_witness :
  environ (final_world (run (H1 := toy_keras) (Namespace {["gpu" := "1"]})
                          (([], []), ([], [])) toy_world))
    = <["CUDA_VISIBLE_DEVICES" := "1"]>
        (<["CUDA_DEVICE_ORDER" := "PCI_BUS_ID"]> (environ toy_world)) ∧
  (∀ k, k ≠ "CUDA_VISIBLE_DEVICES" → k ≠ "CUDA_DEVICE_ORDER" →
        environ (final_world (run (H1 := toy_keras) (Namespace {["gpu" := "1"]})
                                (([], []), ([], [])) toy_world)) !! k
        = environ toy_world !! k) ∧
  environ (final_world (run (H1 := toy_keras) HelpExit (([], []), ([], [])) toy_world))
    = environ toy_world ∧
  environ (final_world (run (H1 := toy_keras) UsageError (([], []), ([], [])) toy_world))
    = environ toy_world.
Proof.
  apply (run_writes_two_environment_variables (H1 := toy_keras)
           {["gpu" := "1"]} "1" (([], []), ([], [])) toy_world).
  apply lookup_singleton_eq.
Defined.

(** ** Command lines that start a run *)

Lemma store_gpu_values (pairs : list (string * string)) (v0 : string) :
  foldl (λ ns fv, <["gpu" := fv.2]> ns) ({["gpu" := v0]} : gmap string string) pairs
  = {["gpu" := default v0 (last pairs.*2)]}.
Proof.
  revert v0. induction pairs as [|[f v] pairs IH]; intros v0; [done|].
  cbn [foldl snd]. rewrite insert_singleton_eq, IH. f_equal.
  change (((f, v) :: pairs).*2) with (v :: pairs.*2).
  rewrite last_cons. by destruct (last pairs.*2).
Qed.

Lemma parse_known_pairs_1 (argv : list string) (ns0 ns : gmap string string)
    (extras : list string) :
  parse_known parser argv ns0 extras = Some (Namespace ns) →
  extras = [] ∧
  ∃ pairs : list (string * string),
    argv = flat_map (λ fv, [fv.1; fv.2]) pairs ∧
    Forall (λ fv, fv.1 ∈ ["-g"; "--gpu"] ∧ starts_with_dash fv.2 = false) pairs ∧
    ns = foldl (λ ns fv, <["gpu" := fv.2]> ns) ns0 pairs.
Proof.
  remember (length argv) as n eqn:Hn.
  assert (Hle : length argv ≤ n) by lia. clear Hn.
  revert argv ns0 extras Hle. induction n as [|n IH]; intros argv ns0 extras Hle;
    destruct argv as [|s rest]; simpl in *; try lia.
  - case_decide; [|done]. intros [= <-]. split; [done|]. by exists [].
  - case_decide; [|done]. intros [= <-]. split; [done|]. by exists [].
  - destruct (starts_with_dash s) eqn:Hs.
    + rewrite find_action_parser.
      destruct (decide (s ∈ ["-h"; "--help"])) as [Hh|Hh]; [done|].
      destruct (decide (s ∈ ["-g"; "--gpu"])) as [Hg|Hg]; [|done]. simpl.
      destruct rest as [|v rest']; [done|].
      destruct (starts_with_dash v) eqn:Hv.
      * rewrite find_action_parser. repeat case_decide; done.
      * intros Hrun. apply IH in Hrun as (He & pairs & -> & Hall & ->);
          [|simpl in *; lia].
        split; [done|]. exists ((s, v) :: pairs). split; [done|]. split; [|done].
        constructor; [|done]. by split.
    + intros Hrun. apply IH in Hrun as (He & _); [|lia].
      by destruct extras.
Qed.

Lemma parse_known_pairs_2 (pairs : list (string * string)) (ns0 : gmap string string) :
  Forall (λ fv, fv.1 ∈ ["-g"; "--gpu"] ∧ starts_with_dash fv.2 = false) pairs →
  parse_known parser (flat_map (λ fv, [fv.1; fv.2]) pairs) ns0 []
  = Some (Namespace (foldl (λ ns fv, <["gpu" := fv.2]> ns) ns0 pairs)).
Proof.
  revert ns0. induction pairs as [|[f v] pairs IH]; intros ns0 Hall; [done|].
  apply Forall_cons in Hall as [[Hf Hv] Hall]. simpl in Hf, Hv.
  cbn [flat_map fst snd app parse_known foldl].
  assert (Hdash : starts_with_dash f = true).
  { rewrite !elem_of_cons in Hf.
    destruct Hf as [->|[->|Hf]]; [done|done|by apply elem_of_nil in Hf]. }
  assert (Hnohelp : f ∉ ["-h"; "--help"]).
  { rewrite !elem_of_cons in Hf. rewrite !elem_of_cons.
    destruct Hf as [->|[->|Hf]]; [| |by apply elem_of_nil in Hf];
      intros [?|[?|Hn]]; try done; by apply elem_of_nil in Hn. }
  rewrite Hdash, find_action_parser.
  rewrite decide_False by done. rewrite decide_True by done. simpl.
  rewrite Hv. by apply IH.
Qed.

(** X13. Among the command lines written plainly, the script starts a run on
    exactly those that are a sequence of [-g VALUE] or [--gpu VALUE] pairs
    (none at all included); the namespace then holds [gpu] and nothing
    else, with the value given last, or ["0"] when none was given. *)
Theorem parse_args_accepts_gpu_pairs (argv : list string) (ns : gmap string string) :
  parse_args parser argv = Some (Namespace ns) ↔
  ∃ pairs : list (string * string),
    argv = flat_map (λ fv, [fv.1; fv.2]) pairs ∧
    Forall (λ fv, fv.1 ∈ ["-g"; "--gpu"] ∧ starts_with_dash fv.2 = false) pairs ∧
    ns = {["gpu" := default "0" (last pairs.*2)]}.
Proof.
  unfold parse_args. rewrite namespace_defaults_parser. split.
  - intros Hrun. apply parse_known_pairs_1 in Hrun as (_ & pairs & -> & Hall & ->).
    exists pairs. split; [done|]. split; [done|]. apply store_gpu_values.
  - intros (pairs & -> & Hall & ->).
    rewrite (parse_known_pairs_2 pairs _ Hall). by rewrite store_gpu_values.
Qed.

Lemma parse_args_accepts_gpu_pairs_witness :
  parse_args parser ["-g"; "1"; "--gpu"; "3"] = Some (Namespace {["gpu" := "3"]}).
Proof.
  apply (parse_args_accepts_gpu_pairs ["-g"; "1"; "--gpu"; "3"] {["gpu" := "3"]}).
  exists [("-g", "1"); ("--gpu", "3")]. split; [reflexivity|]. split; [|reflexivity].
  repeat constructor.
Defined.

(** ** Initialisation of the generative models *)

Section initialisation.
Context `{Torch}.

Abbreviation Module := (Module tensor scalar).
Abbreviation Param := (nn_Parameter tensor).

Lemma xavier_linear_initialised (l : bool) (t : bool)
    (a : list (string * attr_value scalar)) (p : list (string * Param))
    (c : list (string * Module)) (g : generator) :
  xavier_initialised (mkModule l t a (xavier_linear p g).1 c).
Proof.
  unfold xavier_initialised, xavier_linear. simpl.
  destruct (assoc_get "weight" p) as [w0|] eqn:Hw0.
  2:{ simpl. intros weight Hw. congruence. }
  destruct (xavier_normal (data w0) g) as [t0 g1] eqn:Hx. simpl.
  set (p1 := assoc_set "weight" {| data := t0; requires_grad := requires_grad w0 |} p).
  destruct (assoc_get "bias" p1) as [b0|] eqn:Hb0; simpl.
  - intros weight Hw. rewrite assoc_get_set_ne in Hw by done.
    unfold p1 in Hw. rewrite assoc_get_set_eq in Hw. injection Hw as <-. simpl.
    split; [exists (data w0), g; by rewrite Hx|].
    intros bias Hb. rewrite assoc_get_set_eq in Hb. injection Hb as <-. simpl.
    by eexists.
  - intros weight Hw. unfold p1 in Hw. rewrite assoc_get_set_eq in Hw.
    injection Hw as <-. simpl.
    split; [exists (data w0), g; by rewrite Hx|].
    intros bias Hb. fold p1 in Hb. congruence.
Qed.

(** The loop over [self.modules()] reaches every linear layer, however
    deep. *)
Lemma xavier_modules_initialised (m : Module) (g : generator) :
  Forall (λ n, is_linear n = true → xavier_initialised n)
         (modules (xavier_modules m g).1).
Proof.
  revert g. induction m as [l t a p c IH] using Module_induction. intros g. simpl.
  assert (Hroot : ∀ c', is_linear (mkModule l t a (if l then xavier_linear p g else (p, g)).1 c') = true →
                        xavier_initialised
                          (mkModule l t a (if l then xavier_linear p g else (p, g)).1 c')).
  { intros c'. destruct l; [intros _; apply xavier_linear_initialised|done]. }
  destruct (if l then xavier_linear p g else (p, g)) as [p' g1]. simpl in Hroot.
  assert (Hc : ∀ g, Forall (λ nc, Forall (λ n, is_linear n = true → xavier_initialised n)
                                         (modules nc.2))
                      (visit_modules (λ m' g', xavier_modules m' g') c g).1).
  { clear g1 Hroot. induction IH as [|nc c Hnc _ IHc]; intros g0; simpl; [constructor|].
    specialize (Hnc g0). destruct (xavier_modules nc.2 g0) as [m' g'].
    specialize (IHc g').
    destruct (visit_modules (λ m' g', xavier_modules m' g') c g') as [c'' g''].
    simpl in *. by constructor. }
  specialize (Hc g1).
  destruct (visit_modules (λ m' g', xavier_modules m' g') c g1) as [c' g2].
  simpl in *. constructor; [apply Hroot|].
  apply Forall_concat, Forall_fmap. exact Hc.
Qed.

Lemma is_linear_xavier_modules (m : Module) (g : generator) :
  is_linear (xavier_modules m g).1 = is_linear m.
Proof.
  destruct m as [l t a p c]. simpl.
  destruct (if l then xavier_linear p g else (p, g)) as [p' g1].
  by destruct (visit_modules (λ m' g', xavier_modules m' g') c g1) as [c' g2].
Qed.

Lemma visit_modules_assoc_get {V} (f : V → generator → V * generator)
    (c : list (string * V)) (g : generator) (name : string) (m : V) :
  assoc_get name c = Some m →
  ∃ g0, assoc_get name (visit_modules f c g).1 = Some (f m g0).1.
Proof.
  revert g. induction c as [|[k v] c IH]; intros g; simpl; [done|].
  destruct (f v g) as [v' g1] eqn:Hv.
  specialize (IH g1). destruct (visit_modules f c g1) as [c' g2]. simpl in *.
  destruct (decide (name = k)) as [->|Hne].
  - intros [= <-]. exists g. by rewrite Hv.
  - exact IH.
Qed.

Lemma get_module_xavier_modules (m child : Module) (g : generator) (name : string) :
  get_module m name = Some child →
  ∃ g0, get_module (xavier_modules m g).1 name = Some (xavier_modules child g0).1.
Proof.
  destruct m as [l t a p c]. unfold get_module. simpl. intros Hc.
  destruct (if l then xavier_linear p g else (p, g)) as [p' g1].
  destruct (visit_modules_assoc_get (λ m' g', xavier_modules m' g') c g1 name child Hc)
    as [g0 Hg0].
  destruct (visit_modules (λ m' g', xavier_modules m' g') c g1) as [c' g2].
  simpl in *. by exists g0.
Qed.

Lemma elem_of_concat_2 {A} (x : A) (l : list A) (ls : list (list A)) :
  x ∈ l → l ∈ ls → x ∈ concat ls.
Proof.
  intros Hx Hl. induction Hl as [l ls|l l' ls _ IH]; simpl; apply elem_of_app.
  - by left.
  - right. by apply IH.
Qed.

Lemma modules_self (m : Module) : m ∈ modules m.
Proof. destruct m. simpl. by left. Qed.

Lemma get_module_modules (m child n : Module) (name : string) :
  get_module m name = Some child → n ∈ modules child → n ∈ modules m.
Proof.
  destruct m as [l t a p c]. unfold get_module. simpl. intros Hc Hn.
  right. apply (elem_of_concat_2 _ (modules child)); [done|].
  apply list_elem_of_fmap. exists (name, child). split; [done|].
  clear Hn. induction c as [|[k v] c IH]; simpl in Hc; [done|].
  destruct (decide (name = k)) as [->|Hne].
  - injection Hc as ->. by left.
  - right. by apply IH.
Qed.

Lemma Linear_is_linear (i o : nat) (g g' : generator) (m : Module) :
  Linear i o g = Some (m, g') →
  is_linear m = true ∧
  get_int m "in_features" = Some i ∧ get_int m "out_features" = Some o ∧
  ∃ weight bias,
    linear_reset i o g = ((weight, bias), g') ∧
    _parameters m = [("weight", {| data := weight; requires_grad := true |});
                     ("bias", {| data := bias; requires_grad := true |})].
Proof.
  unfold Linear. intros Hm. apply T_bind_Some in Hm as ([wt b] & g1 & Hr & Hm).
  apply T_random_Some in Hr. apply T_ret_Some in Hm as [<- <-].
  split; [done|]. split; [done|]. split; [done|]. by exists wt, b.
Qed.

Lemma attributes_xavier_modules (m : Module) (g : generator) :
  attributes (xavier_modules m g).1 = attributes m.
Proof.
  destruct m as [l t a p c]. simpl.
  destruct (if l then xavier_linear p g else (p, g)) as [p' g1].
  by destruct (visit_modules (λ m' g', xavier_modules m' g') c g1) as [c' g2].
Qed.

Lemma get_int_xavier_modules (m : Module) (g : generator) (name : string) :
  get_int (xavier_modules m g).1 name = get_int m name.
Proof. unfold get_int. by rewrite attributes_xavier_modules. Qed.

(** The model that [DeepGenerativeModel.__init__] returns is what the loop
    over the modules makes of the model built before it; its classifier has
    the two linear layers with the dimensions given. *)
Lemma DeepGenerativeModel_init_classifier
    (x_dim y_dim z_dim : nat) (h_dim : list nat) (ratio : scalar)
    (g g' : generator) (self : Module) :
  DeepGenerativeModel_init x_dim y_dim z_dim h_dim ratio g = Some (self, g') →
  (∃ built g0, xavier_modules built g0 = (self, g')) ∧
  ∃ h_dim_0 classifier dense logits,
    h_dim !! 0 = Some h_dim_0 ∧
    get_module self "classifier" = Some classifier ∧
    get_module classifier "dense" = Some dense ∧
    get_module classifier "logits" = Some logits ∧
    dense ∈ modules self ∧ logits ∈ modules self ∧
    is_linear dense = true ∧ is_linear logits = true ∧
    get_int dense "in_features" = Some x_dim ∧
    get_int dense "out_features" = Some h_dim_0 ∧
    get_int logits "in_features" = Some h_dim_0 ∧
    get_int logits "out_features" = Some y_dim.
Proof.
  unfold DeepGenerativeModel_init. intros Hinit.
  apply T_bind_Some in Hinit as (self0 & g1 & _ & Hinit).
  apply T_bind_Some in Hinit as (encoder & g2 & _ & Hinit).
  apply T_bind_Some in Hinit as (decoder & g3 & _ & Hinit).
  apply T_bind_Some in Hinit as (h0 & g4 & Hh & Hinit).
  apply T_try_Some in Hh as [Hh _].
  apply T_bind_Some in Hinit as (classifier0 & g5 & Hc & Hinit).
  apply T_random_Some in Hinit.
  match type of Hinit with
  | @xavier_modules _ ?m _ = _ => pose (built := m)
  end.
  change (xavier_modules built g5 = (self, g')) in Hinit.
  split; [by exists built, g5|].
  unfold Classifier in Hc.
  apply T_bind_Some in Hc as (dense0 & g6 & Hd & Hc).
  apply T_bind_Some in Hc as (logits0 & g7 & Hl & Hc).
  apply T_ret_Some in Hc as [Hceq _].
  apply Linear_is_linear in Hd as (Hdl & Hdi & Hdo & _).
  apply Linear_is_linear in Hl as (Hll & Hli & Hlo & _).
  assert (Hgd : get_module classifier0 "dense" = Some dense0) by (by rewrite <- Hceq).
  assert (Hgl : get_module classifier0 "logits" = Some logits0) by (by rewrite <- Hceq).
  destruct (get_module_xavier_modules built classifier0 g5 "classifier"
              (get_set_module_eq _ _ _)) as [g8 Hclass].
  rewrite Hinit in Hclass. cbn [fst] in Hclass.
  destruct (get_module_xavier_modules classifier0 dense0 g8 "dense" Hgd)
    as [g9 Hdense].
  destruct (get_module_xavier_modules classifier0 logits0 g8 "logits" Hgl)
    as [g10 Hlogits].
  eexists h0, _, _, _. split; [done|].
  split; [exact Hclass|]. split; [exact Hdense|]. split; [exact Hlogits|].
  split; [eapply get_module_modules; [exact Hclass|];
          eapply get_module_modules; [exact Hdense|apply modules_self]|].
  split; [eapply get_module_modules; [exact Hclass|];
          eapply get_module_modules; [exact Hlogits|apply modules_self]|].
  by rewrite !is_linear_xavier_modules, !get_int_xavier_modules.
Qed.

(** X14. When [DeepGenerativeModel.__init__] returns, every [nn.Linear] of the
    model, those of the encoder and the decoder that [vae.py] builds as well
    as those of the classifier, has a weight drawn by [init.xavier_normal]
    and a bias of zeros. *)
Theorem every_linear_layer_is_xavier_initialised
    (x_dim y_dim z_dim : nat) (h_dim : list nat) (ratio : scalar)
    (g g' : generator) (self : Module) :
  DeepGenerativeModel_init x_dim y_dim z_dim h_dim ratio g = Some (self, g') →
  Forall (λ m, is_linear m = true → xavier_initialised m) (modules self) ∧
  ∃ classifier dense logits,
    get_module self "classifier" = Some classifier ∧
    get_module classifier "dense" = Some dense ∧
    get_module classifier "logits" = Some logits ∧
    dense ∈ modules self ∧ logits ∈ modules self ∧
    is_linear dense = true ∧ is_linear logits = true ∧
    xavier_initialised dense ∧ xavier_initialised logits.
Proof.
  intros Hinit.
  destruct (DeepGenerativeModel_init_classifier _ _ _ _ _ _ _ _ Hinit)
    as ((built & g0 & Hx) & h0 & classifier & dense & logits & _ & Hc & Hd & Hl &
        Hdin & Hlin & Hdl & Hll & _).
  pose proof (xavier_modules_initialised built g0) as Hall.
  rewrite Hx in Hall. cbn [fst] in Hall.
  split; [exact Hall|]. exists classifier, dense, logits.
  repeat (split; [done|]). rewrite Forall_forall in Hall.
  split; by apply Hall.
Qed.

(** X15. [StackedDeepGenerativeModel.__init__] builds its M2 part for inputs of
    [features.z_dim] values, and then puts a new [nn.Linear] in the place of
    [decoder.reconstruction], with the inputs the old layer had and [x_dim]
    outputs. The new layer is made after the initialisation loop of
    [DeepGenerativeModel.__init__] has run: its weight and bias are those
    [nn.Linear] starts with, not drawn by [init.xavier_normal] and not
    zeroed, and nothing else of the decoder or of the M2 part is replaced. *)
Theorem stacked_reconstruction_layer
    (x_dim y_dim z_dim : nat) (h_dim : list nat) (ratio : scalar)
    (features : Module) (g g' : generator) (self : Module) :
  StackedDeepGenerativeModel_init x_dim y_dim z_dim h_dim ratio features g
    = Some (self, g') →
  ∃ features_z_dim self0 g0 decoder0 old in_features decoder reconstruction
    weight bias,
    get_int features "z_dim" = Some features_z_dim ∧
    DeepGenerativeModel_init features_z_dim y_dim z_dim h_dim ratio g
      = Some (self0, g0) ∧
    get_module self0 "decoder" = Some decoder0 ∧
    get_module decoder0 "reconstruction" = Some old ∧
    get_int old "in_features" = Some in_features ∧
    get_module self "decoder" = Some decoder ∧
    get_module decoder "reconstruction" = Some reconstruction ∧
    is_linear reconstruction = true ∧
    get_int reconstruction "in_features" = Some in_features ∧
    get_int reconstruction "out_features" = Some x_dim ∧
    linear_reset in_features x_dim g0 = ((weight, bias), g') ∧
    _parameters reconstruction
      = [("weight", {| data := weight; requires_grad := true |});
         ("bias", {| data := bias; requires_grad := true |})] ∧
    (∀ name, name ≠ "reconstruction" →
       get_module decoder name = get_module decoder0 name) ∧
    (∀ name, name ≠ "decoder" → name ≠ "features" →
       get_module self name = get_module self0 name) ∧
    ∃ classifier dense,
      get_module self "classifier" = Some classifier ∧
      get_module classifier "dense" = Some dense ∧
      get_int dense "in_features" = Some features_z_dim.
Proof.
  unfold StackedDeepGenerativeModel_init. intros Hinit.
  apply T_bind_Some in Hinit as (fz & g1 & Hfz & Hinit).
  apply T_try_Some in Hfz as [Hfz ->].
  apply T_bind_Some in Hinit as (self0 & g2 & Hdgm & Hinit).
  apply T_bind_Some in Hinit as (decoder0 & g3 & Hdec & Hinit).
  apply T_try_Some in Hdec as [Hdec ->].
  apply T_bind_Some in Hinit as (old & g4 & Hold & Hinit).
  apply T_try_Some in Hold as [Hold ->].
  apply T_bind_Some in Hinit as (inf & g5 & Hinf & Hinit).
  apply T_try_Some in Hinf as [Hinf ->].
  apply T_bind_Some in Hinit as (lin & g6 & Hlin & Hinit).
  apply T_bind_Some in Hinit as (f1 & g7 & Hf1 & Hinit).
  apply T_try_Some in Hf1 as [Hf1 ->].
  rewrite get_set_module_eq in Hf1. injection Hf1 as <-.
  apply T_bind_Some in Hinit as (f2 & g8 & Hf2 & Hinit).
  apply T_try_Some in Hf2 as [Hf2 ->].
  rewrite get_set_module_eq in Hf2. injection Hf2 as <-.
  apply T_ret_Some in Hinit as [<- <-].
  apply Linear_is_linear in Hlin as (Hll & Hli & Hlo & weight & bias & Hreset & Hpar).
  destruct (DeepGenerativeModel_init_classifier _ _ _ _ _ _ _ _ Hdgm)
    as (_ & h0 & classifier & dense & logits & _ & Hc & Hd & _ & _ & _ & _ & _ & Hdi & _).
  exists fz, self0, g2, decoder0, old, inf,
    (set_module decoder0 "reconstruction" lin), lin, weight, bias.
  split; [done|]. split; [done|]. split; [done|]. split; [done|]. split; [done|].
  split; [rewrite 3!get_set_module_ne by done; by rewrite get_set_module_eq|].
  split; [by rewrite get_set_module_eq|].
  split; [done|]. split; [done|]. split; [done|]. split; [done|]. split; [done|].
  split; [intros name Hn; by rewrite get_set_module_ne by congruence|].
  split; [intros name Hn1 Hn2; by rewrite !get_set_module_ne by congruence|].
  exists classifier, dense. split; [|done].
  by rewrite !get_set_module_ne by done.
Qed.

(** X16. [DeepGenerativeModel.forward] computes the classifier output before it
    looks at the label: the logits returned with a label are the logits
    returned without one, and without a label nothing is sampled. With a
    label, the latent list holds the one triple of the encoder. *)
Theorem forward_logits_do_not_depend_on_the_label
    (self : Module) (x y : tensor) (g g' : generator) (r : forward_result) :
  DeepGenerativeModel_forward self x (Some y) g = Some (r, g') →
  ∃ reconstruction logits z z_mu z_log_var,
    r = Reconstruction reconstruction logits [[z; z_mu; z_log_var]] ∧
    DeepGenerativeModel_forward self x None g = Some (Logits logits, g).
Proof.
  unfold DeepGenerativeModel_forward. intros Hrun.
  apply T_bind_Some in Hrun as (classifier & g1 & Hc & Hrun).
  apply T_try_Some in Hc as [Hc ->].
  apply T_bind_Some in Hrun as (logits & g2 & Hl & Hrun).
  apply T_try_Some in Hl as [Hl ->].
  apply T_bind_Some in Hrun as (encoder & g3 & He & Hrun).
  apply T_try_Some in He as [He ->].
  apply T_bind_Some in Hrun as ([[z z_mu] z_log_var] & g4 & Hz & Hrun).
  apply T_bind_Some in Hrun as (decoder & g5 & Hd & Hrun).
  apply T_try_Some in Hd as [Hd ->].
  apply T_bind_Some in Hrun as (reconstruction & g6 & Hr & Hrun).
  apply T_ret_Some in Hrun as [<- <-].
  exists reconstruction, logits, z, z_mu, z_log_var. split; [done|].
  unfold mbind, T_bind, T_try. rewrite Hc, Hl. done.
Qed.
End initialisation.

#[local] Existing Instance toy_torch.

Lemma every_linear_layer_is_xavier_initialised_witness :
  Forall (λ m, is_linear (H := toy_torch) m = true → xavier_initialised m)
         (modules toy_dgm) ∧
  ∃ classifier dense logits,
    get_module (H := toy_torch) toy_dgm "classifier" = Some classifier ∧
    get_module classifier "dense" = Some dense ∧
    get_module classifier "logits" = Some logits ∧
    dense ∈ modules toy_dgm ∧ logits ∈ modules toy_dgm ∧
    is_linear dense = true ∧ is_linear logits = true ∧
    xavier_initialised dense ∧ xavier_initialised logits.
Proof.
  apply (every_linear_layer_is_xavier_initialised (H := toy_torch)
           4 2 3 [5] 10%Z 0 toy_dgm_generator toy_dgm).
  vm_compute. reflexivity.
Defined.

Lemma stacked_reconstruction_layer_witness :
  ∃ features_z_dim self0 g0 decoder0 old in_features decoder reconstruction
    weight bias,
    get_int (H := toy_torch) toy_features "z_dim" = Some features_z_dim ∧
    DeepGenerativeModel_init features_z_dim 2 3 [5] 10%Z 0 = Some (self0, g0) ∧
    get_module self0 "decoder" = Some decoder0 ∧
    get_module decoder0 "reconstruction" = Some old ∧
    get_int old "in_features" = Some in_features ∧
    get_module toy_stacked "decoder" = Some decoder ∧
    get_module decoder "reconstruction" = Some reconstruction ∧
    is_linear reconstruction = true ∧
    get_int reconstruction "in_features" = Some in_features ∧
    get_int reconstruction "out_features" = Some 4 ∧
    linear_reset in_features 4 g0 = ((weight, bias), toy_generator) ∧
    _parameters reconstruction
      = [("weight", {| data := weight; requires_grad := true |});
         ("bias", {| data := bias; requires_grad := true |})] ∧
    (∀ name, name ≠ "reconstruction" →
       get_module decoder name = get_module decoder0 name) ∧
    (∀ name, name ≠ "decoder" → name ≠ "features" →
       get_module toy_stacked name = get_module self0 name) ∧
    ∃ classifier dense,
      get_module toy_stacked "classifier" = Some classifier ∧
      get_module classifier "dense" = Some dense ∧
      get_int dense "in_features" = Some features_z_dim.
Proof.
  apply (stacked_reconstruction_layer (H := toy_torch)
           4 2 3 [5] 10%Z toy_features 0 toy_generator toy_stacked).
  vm_compute. reflexivity.
Defined.

Lemma forward_logits_do_not_depend_on_the_label_witness :
  ∃ reconstruction logits z z_mu z_log_var,
    toy_forward_result = Reconstruction reconstruction logits [[z; z_mu; z_log_var]] ∧
    DeepGenerativeModel_forward (H := toy_torch) toy_dgm 6%Z None 4
      = Some (Logits logits, 4).
Proof.
  apply (forward_logits_do_not_depend_on_the_label (H := toy_torch)
           toy_dgm 6%Z 1%Z 4 toy_forward_generator toy_forward_result).
  vm_compute. reflexivity.
Defined.

(** ** The classifier *)

Section classifier.
Context `{Torch} `{!TensorLaws}.

Abbreviation Module := (Module tensor scalar).

Lemma softmax_of_matrix (input : tensor) (r c : nat) :
  tensor_size input = [r; c] →
  softmax input (-1) = Some (F_softmax input).
Proof.
  intros Hsize. unfold softmax.
  assert (Hne : tensor_size input ≠ []) by (by rewrite Hsize).
  rewrite (transpose_last input Hne). rewrite Hsize. simpl.
  rewrite contiguous_values, (view_rows input r c Hsize).
  pose proof (view_same (F_softmax input)) as Hview.
  rewrite F_softmax_size, Hsize in Hview. simpl in Hview. rewrite Hview.
  pose proof (transpose_last (F_softmax input)) as Ht.
  rewrite F_softmax_size, Hsize in Ht. simpl in Ht. by rewrite Ht.
Qed.

(** X17. On a batch, that is a matrix with one row for each example, the
    function [softmax] of [dgm.py] with [dim=-1] returns what [F.softmax]
    returns: its transpositions and views change nothing. A [Classifier]
    therefore returns [F.softmax] of its [logits] layer applied to the
    softplus of its [dense] layer. *)
Theorem classifier_forward_is_softmax_of_logits
    (x_dim h_dim y_dim : nat) (g g' : generator) (self : Module) (x : tensor) :
  Classifier x_dim h_dim y_dim g = Some (self, g') →
  (∀ input r c, tensor_size input = [r; c] →
                softmax input (-1) = Some (F_softmax input)) ∧
  ∃ dense_weight dense_bias logits_weight logits_bias g1,
    linear_reset x_dim h_dim g = ((dense_weight, dense_bias), g1) ∧
    linear_reset h_dim y_dim g1 = ((logits_weight, logits_bias), g') ∧
    let logits :=
      F_linear (F_softplus (F_linear x dense_weight (Some dense_bias)))
               logits_weight (Some logits_bias) in
    ∀ r c, tensor_size logits = [r; c] →
           Classifier_forward self x = Some (F_softmax logits).
Proof.
  intros Hc. split; [intros input r c; apply softmax_of_matrix|].
  unfold Classifier in Hc.
  apply T_bind_Some in Hc as (dense & g1 & Hd & Hc).
  apply T_bind_Some in Hc as (logits & g2 & Hl & Hc).
  apply T_ret_Some in Hc as [<- <-].
  apply Linear_is_linear in Hd as (_ & _ & _ & dw & db & Hdr & Hdp).
  apply Linear_is_linear in Hl as (_ & _ & _ & lw & lb & Hlr & Hlp).
  exists dw, db, lw, lb, g1. split; [done|]. split; [done|].
  intros lg r c Hsize. subst lg.
  unfold Classifier_forward, get_module. simpl.
  unfold Linear_forward. rewrite Hdp, Hlp. simpl.
  by rewrite (softmax_of_matrix _ r c Hsize).
Qed.
End classifier.

Global Instance toy_tensor_laws : @TensorLaws toy_torch.
Proof. by split. Qed.

Lemma classifier_forward_is_softmax_of_logits_witness :
  (∀ input r c, tensor_size (Torch := toy_torch) input = [r; c] →
                softmax input (-1) = Some (F_softmax input)) ∧
  ∃ dense_weight dense_bias logits_weight logits_bias g1,
    linear_reset (Torch := toy_torch) 4 5 0 = ((dense_weight, dense_bias), g1) ∧
    linear_reset 5 2 g1 = ((logits_weight, logits_bias), 2) ∧
    let logits :=
      F_linear (F_softplus (F_linear 6%Z dense_weight (Some dense_bias)))
               logits_weight (Some logits_bias) in
    ∀ r c, tensor_size logits = [r; c] →
           Classifier_forward (H := toy_torch)
             (default toy_features (fst <$> Classifier (H := toy_torch) 4 5 2 0)) 6%Z
           = Some (F_softmax logits).
Proof.
  apply (classifier_forward_is_softmax_of_logits (H := toy_torch) 4 5 2 0 2).
  vm_compute. reflexivity.
Defined.

(** ** The labels that reach the training set *)

Section queried_labels.
Context `{Keras} `{!KerasLaws}.

(** X18. Whatever the oracle is asked, no sentinel reaches the training set:
    with a pool whose labels are digits or the sentinel, and an oracle that
    knows some digits, the labels of the queried points are digits after
    the oracle was asked, [to_categorical] raises nothing, and the row of a
    label has a one in the column of the label and zeros in the nine other
    columns. *)
Theorem queried_labels_are_digits
    (o : KNOracle_) (X_Pool_Dropout : list image) (y_Pool_Dropout : list nat)
    (x_pool_index : list nat) (Pooled_X : list image) :
  oracle_y o ≠ [] →
  Forall (λ y, y < 10) (oracle_y o) →
  Forall (λ y, y ≤ 10) y_Pool_Dropout →
  fancy_index X_Pool_Dropout x_pool_index = Some Pooled_X →
  is_Some (fancy_index y_Pool_Dropout x_pool_index) →
  ∃ Pooled_Y rows,
    query_labels o Pooled_X y_Pool_Dropout x_pool_index = Some Pooled_Y ∧
    Forall (λ y, y < 10) Pooled_Y ∧
    to_categorical Pooled_Y num_classes = Some rows ∧
    length rows = length x_pool_index ∧
    ∀ p y, Pooled_Y !! p = Some y →
      ∃ row, rows !! p = Some row ∧ length row = 10 ∧
             row !! y = Some fone ∧
             ∀ j, j < 10 → j ≠ y → row !! j = Some fzero.
Proof.
  intros Hne Hdigits Hlabels HX [Pooled_Y0 HY].
  pose proof (length_mapM _ _ _ HX) as HlX.
  pose proof (length_mapM _ _ _ HY) as HlY.
  destruct (query_labels_lookup o Pooled_X y_Pool_Dropout x_pool_index Pooled_Y0 HY)
    as (Pooled_Y & Hq & Hlen & Hlook); [congruence|].
  assert (HY10 : Forall (λ v, v ≤ 10) Pooled_Y0).
  { apply Forall_forall. intros v Hv.
    apply list_elem_of_lookup in Hv as [k Hk]. apply mapM_Some_1 in HY.
    destruct (Forall2_lookup_r _ _ _ _ _ HY Hk) as (i & _ & Hi).
    eapply (Forall_lookup_1 _ _ _ _ Hlabels Hi). }
  assert (Hdig : Forall (λ c, c < 10) Pooled_Y).
  { apply Forall_lookup. intros p v Hv.
    destruct (lookup_lt_is_Some_2 Pooled_Y0 p) as [y Hy];
      [rewrite <- Hlen; by eapply lookup_lt_Some|].
    destruct (lookup_lt_is_Some_2 Pooled_X p) as [x Hx];
      [rewrite <- HlX, HlY; by eapply lookup_lt_Some|].
    rewrite (Hlook p x y Hx Hy) in Hv. injection Hv as <-.
    destruct (decide (y = 10)) as [->|Hy10].
    - apply (proj1 (Forall_forall _ _) Hdigits). by apply nearest_label_elem.
    - pose proof (Forall_lookup_1 _ _ _ _ HY10 Hy) as Hle. simpl in Hle. lia. }
  eexists Pooled_Y, _. split; [done|]. split; [done|].
  split; [unfold to_categorical, num_classes; by rewrite decide_True|].
  split; [rewrite length_map; congruence|].
  intros p y Hp. eexists. split; [by rewrite list_lookup_fmap, Hp|].
  pose proof (Forall_lookup_1 _ _ _ _ Hdig Hp) as Hy. simpl in Hy.
  split; [by rewrite length_map, length_seq|]. split.
  - rewrite list_lookup_fmap, lookup_seq_lt by done. simpl.
    by rewrite bool_decide_eq_true_2.
  - intros j Hj Hjy. rewrite list_lookup_fmap, lookup_seq_lt by done. simpl.
    by rewrite bool_decide_eq_false_2.
Qed.
End queried_labels.

Lemma queried_labels_are_digits_witness :
  ∃ Pooled_Y rows,
    query_labels (H1 := toy_keras) toy_small_oracle [100; 102; 104]
        toy_y_pool_withheld [0; 2; 4] = Some Pooled_Y ∧
    Forall (λ y, y < 10) Pooled_Y ∧
    to_categorical (H := Z_numeric) Pooled_Y num_classes = Some rows ∧
    length rows = length [0; 2; 4] ∧
    ∀ p y, Pooled_Y !! p = Some y →
      ∃ row, rows !! p = Some row ∧ length row = 10 ∧
             row !! y = Some 1%Z ∧
             ∀ j, j < 10 → j ≠ y → row !! j = Some 0%Z.
Proof.
  apply (queried_labels_are_digits (H1 := toy_keras)
           toy_small_oracle toy_x_pool toy_y_pool_withheld [0; 2; 4] [100; 102; 104]).
  - discriminate.
  - apply (bool_decide_unpack _). vm_compute. exact I.
  - apply (bool_decide_unpack _). vm_compute. exact I.
  - reflexivity.
  - eexists. reflexivity.
Defined.

(** ** Sampling, and the auxiliary model *)

Section sampling.
Context `{TorchArith}.

Abbreviation Module := (Module tensor scalar).

(** X19. The reconstruction that [DeepGenerativeModel.forward] returns for a
    label that already is a float tensor is what [sample] returns for the
    latent variable that [forward] drew and the same label, when the decoder
    is run from the same state. *)
Theorem forward_reconstruction_is_a_sample
    (self : Module) (x y : tensor) (g g' : generator) (r : forward_result) :
  type_FloatTensor y = y →
  DeepGenerativeModel_forward self x (Some y) g = Some (r, g') →
  ∃ encoder reconstruction logits z z_mu z_log_var g1,
    get_module self "encoder" = Some encoder ∧
    Encoder_forward encoder (cat [x; y]) g = ((z, z_mu, z_log_var), g1) ∧
    r = Reconstruction reconstruction logits [[z; z_mu; z_log_var]] ∧
    DeepGenerativeModel_sample self z y g1 = Some (reconstruction, g').
Proof.
  unfold DeepGenerativeModel_forward. intros Hy Hrun.
  apply T_bind_Some in Hrun as (classifier & g1 & Hc & Hrun).
  apply T_try_Some in Hc as [Hc ->].
  apply T_bind_Some in Hrun as (logits & g2 & Hl & Hrun).
  apply T_try_Some in Hl as [Hl ->].
  apply T_bind_Some in Hrun as (encoder & g3 & He & Hrun).
  apply T_try_Some in He as [He ->].
  apply T_bind_Some in Hrun as ([[z z_mu] z_log_var] & g4 & Hz & Hrun).
  apply T_random_Some in Hz.
  apply T_bind_Some in Hrun as (decoder & g5 & Hd & Hrun).
  apply T_try_Some in Hd as [Hd ->].
  apply T_bind_Some in Hrun as (reconstruction & g6 & Hr & Hrun).
  apply T_random_Some in Hr.
  apply T_ret_Some in Hrun as [<- <-].
  exists encoder, reconstruction, logits, z, z_mu, z_log_var, g4.
  split; [done|]. split; [done|]. split; [done|].
  unfold DeepGenerativeModel_sample. rewrite Hy.
  unfold mbind, T_bind, T_try, T_random. rewrite Hd, Hr. done.
Qed.

(** X20. [AuxiliaryDeepGenerativeModel.forward] with a label: the logits are
    those it returns without a label, computed from the sample [a] of the
    auxiliary encoder alone. The name [a] is then bound again, to the output
    of the auxiliary decoder: the reconstruction is decoded from this
    generated [a], and the last list returned holds the generated [a]
    beside the mean and log-variance of the auxiliary encoder. *)
Theorem auxiliary_forward_returns_the_generated_a
    (self : Module) (x y : tensor) (g g' : generator)
    (r : auxiliary_forward_result) :
  AuxiliaryDeepGenerativeModel_forward self x (Some y) g = Some (r, g') →
  ∃ aux_encoder a a_mu a_log_var g1 reconstruction logits z z_mu z_log_var
    a_generated,
    get_module self "aux_encoder" = Some aux_encoder ∧
    Encoder_forward aux_encoder x g = ((a, a_mu, a_log_var), g1) ∧
    AuxiliaryDeepGenerativeModel_forward self x None g
      = Some (AuxiliaryLogits logits, g1) ∧
    r = AuxiliaryReconstruction reconstruction logits
          [z; z_mu; z_log_var] [a_generated; a_mu; a_log_var] ∧
    ∃ aux_decoder decoder transform_y_to_z y_z g2 g3,
      get_module self "aux_decoder" = Some aux_decoder ∧
      get_module self "decoder" = Some decoder ∧
      get_module self "transform_y_to_z" = Some transform_y_to_z ∧
      Linear_forward transform_y_to_z y = Some y_z ∧
      Decoder_forward aux_decoder (tensor_add z y_z) g2 = (a_generated, g3) ∧
      Decoder_forward decoder (tensor_add (tensor_add a_generated z) y_z) g3
        = (reconstruction, g').
Proof.
  unfold AuxiliaryDeepGenerativeModel_forward. intros Hrun.
  apply T_bind_Some in Hrun as (aux_encoder & g1 & Hae & Hrun).
  apply T_try_Some in Hae as [Hae ->].
  apply T_bind_Some in Hrun as ([[a a_mu] a_log_var] & g2 & Ha & Hrun).
  apply T_random_Some in Ha.
  apply T_bind_Some in Hrun as (tzx & g3 & Htzx & Hrun).
  apply T_try_Some in Htzx as [Htzx ->].
  apply T_bind_Some in Hrun as (a_x & g4 & Hax & Hrun).
  apply T_try_Some in Hax as [Hax ->].
  apply T_bind_Some in Hrun as (classifier & g5 & Hc & Hrun).
  apply T_try_Some in Hc as [Hc ->].
  apply T_bind_Some in Hrun as (logits & g6 & Hl & Hrun).
  apply T_try_Some in Hl as [Hl ->].
  apply T_bind_Some in Hrun as (tyz & g7 & Htyz & Hrun).
  apply T_try_Some in Htyz as [Htyz ->].
  apply T_bind_Some in Hrun as (y_z & g8 & Hyz & Hrun).
  apply T_try_Some in Hyz as [Hyz ->].
  apply T_bind_Some in Hrun as (txz & g9 & Htxz & Hrun).
  apply T_try_Some in Htxz as [Htxz ->].
  apply T_bind_Some in Hrun as (x_z & g10 & Hxz & Hrun).
  apply T_try_Some in Hxz as [Hxz ->].
  apply T_bind_Some in Hrun as (encoder & g11 & He & Hrun).
  apply T_try_Some in He as [He ->].
  apply T_bind_Some in Hrun as ([[z z_mu] z_log_var] & g12 & Hz & Hrun).
  apply T_random_Some in Hz.
  apply T_bind_Some in Hrun as (aux_decoder & g13 & Had & Hrun).
  apply T_try_Some in Had as [Had ->].
  apply T_bind_Some in Hrun as (y_z' & g14 & Hyz' & Hrun).
  apply T_try_Some in Hyz' as [Hyz' ->].
  apply T_bind_Some in Hrun as (a_gen & g15 & Hag & Hrun).
  apply T_random_Some in Hag.
  apply T_bind_Some in Hrun as (decoder & g16 & Hd & Hrun).
  apply T_try_Some in Hd as [Hd ->].
  apply T_bind_Some in Hrun as (y_z'' & g17 & Hyz'' & Hrun).
  apply T_try_Some in Hyz'' as [Hyz'' ->].
  apply T_bind_Some in Hrun as (reconstruction & g18 & Hr & Hrun).
  apply T_random_Some in Hr.
  apply T_ret_Some in Hrun as [<- <-].
  assert (y_z' = y_z) as -> by congruence.
  assert (y_z'' = y_z) as -> by congruence.
  exists aux_encoder, a, a_mu, a_log_var, g2, reconstruction, logits,
    z, z_mu, z_log_var, a_gen.
  split; [done|]. split; [done|]. split.
  { unfold mbind, T_bind, T_try, T_random. rewrite Hae, Ha, Htzx, Hax, Hc, Hl. done. }
  split; [done|].
  by exists aux_decoder, decoder, tyz, y_z, g12, g15.
Qed.
End sampling.

#[local] Existing Instance toy_torch_arith.

Lemma forward_reconstruction_is_a_sample_witness :
  ∃ encoder reconstruction logits z z_mu z_log_var g1,
    get_module (H := toy_torch) toy_dgm "encoder" = Some encoder ∧
    Encoder_forward encoder (cat [6%Z; 1%Z]) 4 = ((z, z_mu, z_log_var), g1) ∧
    toy_forward_result = Reconstruction reconstruction logits [[z; z_mu; z_log_var]] ∧
    DeepGenerativeModel_sample (H0 := toy_torch_arith) toy_dgm z 1%Z g1
      = Some (reconstruction, toy_forward_generator).
Proof.
  apply (forward_reconstruction_is_a_sample (H0 := toy_torch_arith)
           toy_dgm 6%Z 1%Z 4 toy_forward_generator toy_forward_result).
  - reflexivity.
  - vm_compute. reflexivity.
Defined.

Lemma auxiliary_forward_returns_the_generated_a_witness :
  ∃ aux_encoder a a_mu a_log_var g1 reconstruction logits z z_mu z_log_var
    a_generated,
    get_module (H := toy_torch) toy_auxiliary "aux_encoder" = Some aux_encoder ∧
    Encoder_forward aux_encoder 6%Z 4 = ((a, a_mu, a_log_var), g1) ∧
    AuxiliaryDeepGenerativeModel_forward (H0 := toy_torch_arith) toy_auxiliary 6%Z None 4
      = Some (AuxiliaryLogits logits, g1) ∧
    toy_auxiliary_result = AuxiliaryReconstruction reconstruction logits
          [z; z_mu; z_log_var] [a_generated; a_mu; a_log_var] ∧
    ∃ aux_decoder decoder transform_y_to_z y_z g2 g3,
      get_module toy_auxiliary "aux_decoder" = Some aux_decoder ∧
      get_module toy_auxiliary "decoder" = Some decoder ∧
      get_module toy_auxiliary "transform_y_to_z" = Some transform_y_to_z ∧
      Linear_forward transform_y_to_z 1%Z = Some y_z ∧
      Decoder_forward aux_decoder (tensor_add z y_z) g2 = (a_generated, g3) ∧
      Decoder_forward decoder (tensor_add (tensor_add a_generated z) y_z) g3
        = (reconstruction, toy_auxiliary_generator).
Proof.
  apply (auxiliary_forward_returns_the_generated_a (H0 := toy_torch_arith)
           toy_auxiliary 6%Z 1%Z 4 toy_auxiliary_generator toy_auxiliary_result).
  vm_compute. reflexivity.
Defined.
